(** * Branding and colour-resolution pipeline of docs-to-tutorial

    A shallow embedding of the TypeScript sources

      - [mcp-server/src/utils/branding.ts]      (colour codec, theme, logo)
      - [mcp-server/src/tools/extract-url.ts]   (URL orchestrator)
      - [mcp-server/src/tools/extract-docs.ts]  (docs orchestrator)

    together with the properties the specification states about them.

    Conventions of the embedding.

    - A JavaScript string is a [string]: a sequence of code units, here
      restricted to the code units below 256.
    - A JavaScript Number is a [Num.number]: an IEEE-754 binary64 value.
      Finite values are carried by the rational they denote and every
      arithmetic operation rounds the exact result to the nearest binary64
      value, ties to even.  The two zeros are identified: the sources never
      divide by a computed quantity, and comparison, [===], [Math.round] and
      [toString] do not tell them apart.
    - A function that can raise returns a [completion].
    - Logging through [console.error] is not part of the model. *)

From Stdlib Require Import ZArith QArith Qround Qabs Qpower Lia Lqa.
From Stdlib Require Import List String Ascii Bool.
Import ListNotations.

Open Scope string_scope.
Open Scope Z_scope.

(* ================================================================= *)
(** ** JavaScript numbers *)

Module Num.

Inductive number :=
| NaN
| Inf (neg : bool)
| Fin (v : Q).

(** Numbers known to be integral: the results of [parseInt] and
    [Math.round], the receivers of [toString(16)] and of [>>]. *)
Inductive jsint :=
| INaN
| IInf (neg : bool)
| IInt (z : Z).

(** [pow2 e] is 2^e for any integer [e]. *)
Definition pow2 (e : Z) : Q :=
  if 0 <=? e then inject_Z (2 ^ e) else (1 # Z.to_pos (2 ^ (- e)))%Q.

(** [ilog2 a] is the integer part of the binary logarithm of [a > 0]. *)
Definition ilog2 (a : Q) : Z :=
  let k := Z.log2 (Qnum a) - Z.log2 (Zpos (Qden a)) in
  if Qle_bool (pow2 k) a then k else k - 1.

(** Nearest integer, ties to even. *)
Definition rne (x : Q) : Z :=
  let f := Qfloor x in
  match Qcompare (x - inject_Z f) (1 # 2) with
  | Lt => f
  | Gt => f + 1
  | Eq => if Z.even f then f else f + 1
  end.

(** Exponent of the unit in the last place of the binary64 format around
    [a > 0]: 53 significant bits, smallest exponent -1074. *)
Definition ulp_exp (a : Q) : Z := Z.max (ilog2 a - 52) (-1074).

(** Rounding of a positive rational with unbounded exponent range. *)
Definition round_mag (a : Q) : Q :=
  let e := ulp_exp a in (inject_Z (rne (a / pow2 e)) * pow2 e)%Q.

(** [RN x]: the binary64 value nearest to [x] (roundTiesToEven), with
    overflow to infinity. *)
Definition RN (x : Q) : number :=
  match Qcompare x 0 with
  | Eq => Fin 0
  | Gt => let v := round_mag x in
          if Qle_bool (pow2 1024) v then Inf false else Fin (Qred v)
  | Lt => let v := round_mag (- x) in
          if Qle_bool (pow2 1024) v then Inf true else Fin (Qred (- v))
  end.

Definition isneg (q : Q) : bool := negb (Qle_bool 0 q).
Definition iszero (q : Q) : bool := Qeq_bool q 0.

(** [x + y] *)
Definition add (x y : number) : number :=
  match x, y with
  | NaN, _ | _, NaN => NaN
  | Inf a, Inf b => if Bool.eqb a b then Inf a else NaN
  | Inf a, Fin _ => Inf a
  | Fin _, Inf b => Inf b
  | Fin p, Fin q => RN (p + q)
  end.

Definition neg (x : number) : number :=
  match x with
  | NaN => NaN
  | Inf a => Inf (negb a)
  | Fin p => Fin (- p)
  end.

(** [x - y] *)
Definition sub (x y : number) : number := add x (neg y).

(** [x * y] *)
Definition mul (x y : number) : number :=
  match x, y with
  | NaN, _ | _, NaN => NaN
  | Inf a, Inf b => Inf (xorb a b)
  | Inf a, Fin q => if iszero q then NaN else Inf (xorb a (isneg q))
  | Fin p, Inf b => if iszero p then NaN else Inf (xorb (isneg p) b)
  | Fin p, Fin q => RN (p * q)
  end.

(** [x / y].  The sources divide by non-zero literals only; a zero divisor
    is taken to be +0. *)
Definition div (x y : number) : number :=
  match x, y with
  | NaN, _ | _, NaN => NaN
  | Inf _, Inf _ => NaN
  | Inf a, Fin q => Inf (xorb a (isneg q))
  | Fin _, Inf _ => Fin 0
  | Fin p, Fin q =>
      if iszero q then (if iszero p then NaN else Inf (isneg p))
      else RN (p / q)
  end.

(** [x < y] *)
Definition ltb (x y : number) : bool :=
  match x, y with
  | NaN, _ | _, NaN => false
  | Inf a, Inf b => a && negb b
  | Inf a, Fin _ => a
  | Fin _, Inf b => negb b
  | Fin p, Fin q => negb (Qle_bool q p)
  end.

(** [x > y] *)
Definition gtb (x y : number) : bool := ltb y x.

(** [x === 0] *)
Definition is_zero (x : number) : bool :=
  match x with
  | Fin p => iszero p
  | _ => false
  end.

(** A decimal literal [n/d] of the source text, e.g. [0.6] is [lit 6 10]. *)
Definition lit (n : Z) (d : positive) : number := RN (n # d).

(** The Number value of a mathematical integer. *)
Definition int_of_Z (z : Z) : jsint :=
  match RN (inject_Z z) with
  | NaN => INaN
  | Inf b => IInf b
  | Fin q => IInt (Qfloor q)
  end.

Definition of_int (i : jsint) : number :=
  match i with
  | INaN => NaN
  | IInf b => Inf b
  | IInt z => Fin (inject_Z z)
  end.

(** [isNaN(i)] *)
Definition isNaN (i : jsint) : bool :=
  match i with
  | INaN => true
  | _ => false
  end.

(** [Math.round(x)]: the nearest integer, a tie going towards +infinity. *)
Definition round (x : number) : jsint :=
  match x with
  | NaN => INaN
  | Inf a => IInf a
  | Fin q => IInt (Qfloor (q + (1 # 2)))
  end.

(** [ToInt32], the conversion applied to the operands of [>>] and [&]. *)
Definition toInt32 (i : jsint) : Z :=
  match i with
  | IInt z => (z + 2 ^ 31) mod 2 ^ 32 - 2 ^ 31
  | _ => 0
  end.

End Num.

(* ================================================================= *)
(** ** JavaScript strings *)

Module Str.

Definition code (c : ascii) : Z := Z.of_nat (nat_of_ascii c).

(** White space and line terminators, as used by [trim], [parseInt],
    [parseFloat] and the [\s] class. *)
Definition isWhite (c : ascii) : bool :=
  let n := code c in
  ((9 <=? n) && (n <=? 13)) || (n =? 32) || (n =? 160).

Definition isDigit (c : ascii) : bool :=
  let n := code c in (48 <=? n) && (n <=? 57).

(** Value of a digit in a radix up to 36, [None] for any other character. *)
Definition digitValue (c : ascii) : option Z :=
  let n := code c in
  if (48 <=? n) && (n <=? 57) then Some (n - 48)
  else if (97 <=? n) && (n <=? 122) then Some (n - 87)
  else if (65 <=? n) && (n <=? 90) then Some (n - 55)
  else None.

Definition isHexDigit (c : ascii) : bool :=
  match digitValue c with
  | Some v => v <? 16
  | None => false
  end.

Fixpoint trimStart (s : string) : string :=
  match s with
  | String c r => if isWhite c then trimStart r else s
  | EmptyString => EmptyString
  end.

Fixpoint trimEnd (s : string) : string :=
  match s with
  | String c r =>
      match trimEnd r with
      | EmptyString => if isWhite c then EmptyString else String c EmptyString
      | r' => String c r'
      end
  | EmptyString => EmptyString
  end.

(** [s.trim()] *)
Definition trim (s : string) : string := trimEnd (trimStart s).

(** [s.startsWith(p)] *)
Definition startsWith (s p : string) : bool := String.prefix p s.

Fixpoint drop (n : nat) (s : string) : string :=
  match n, s with
  | S n', String _ r => drop n' r
  | _, _ => s
  end.

(** [s.slice(a, b)] and [s.substring(a, b)] for [0 <= a <= b]. *)
Definition slice (s : string) (a b : nat) : string :=
  String.substring a (b - a) s.

(** [s.slice(a)] for [0 <= a]. *)
Definition sliceFrom (s : string) (a : nat) : string := drop a s.

(** [s.replace(p, '')] for a string pattern: the first occurrence goes. *)
Fixpoint removeFirst (p s : string) : string :=
  if String.prefix p s then drop (String.length p) s
  else match s with
       | String c r => String c (removeFirst p r)
       | EmptyString => EmptyString
       end.

Definition lowerChar (c : ascii) : ascii :=
  let n := code c in
  if ((65 <=? n) && (n <=? 90))
     || ((192 <=? n) && (n <=? 222) && negb (n =? 215))
  then ascii_of_nat (nat_of_ascii c + 32)
  else c.

(** [s.toLowerCase()] *)
Fixpoint toLowerCase (s : string) : string :=
  match s with
  | String c r => String (lowerChar c) (toLowerCase r)
  | EmptyString => EmptyString
  end.

Fixpoint repeat (c : ascii) (n : nat) : string :=
  match n with
  | O => EmptyString
  | S n' => String c (repeat c n')
  end.

(** [s.padStart(n, c)] for a one-character filler. *)
Definition padStart (s : string) (n : nat) (c : ascii) : string :=
  repeat c (n - String.length s) ++ s.

(** Longest prefix whose characters satisfy [p], and the rest. *)
Fixpoint span (p : ascii -> bool) (s : string) : string * string :=
  match s with
  | String c r =>
      if p c then let (a, b) := span p r in (String c a, b)
      else (EmptyString, s)
  | EmptyString => (EmptyString, EmptyString)
  end.

Definition isEmpty (s : string) : bool :=
  match s with
  | EmptyString => true
  | _ => false
  end.

End Str.

(* ================================================================= *)
(** ** Values, completions and the global functions used by the sources *)

(** The run-time values that reach the colour functions.  The TypeScript
    types promise strings; at run time a field can also be missing, and a
    property read on an object literal can return a member inherited from
    [Object.prototype]. *)
Inductive value :=
| VUndefined
| VNull
| VStr (s : string)
| VBuiltin (name : string).

(** [!!v] *)
Definition truthy (v : value) : bool :=
  match v with
  | VUndefined | VNull => false
  | VStr s => negb (Str.isEmpty s)
  | VBuiltin _ => true
  end.

(** [a || b] *)
Definition or_else (a b : value) : value := if truthy a then a else b.

(** What a [catch] clause can observe of a raised error: a [TypeError] of
    the language, or a rejection coming from a collaborator (browser,
    network, image decoder). *)
Inductive error :=
| TypeError (message : string)
| Rejected (message : string).

Definition errorMessage (e : error) : string :=
  match e with
  | TypeError m => m
  | Rejected m => m
  end.

Inductive completion (A : Type) :=
| Normal (a : A)
| Throw (e : error).
Arguments Normal {A} a.
Arguments Throw {A} e.

Definition bind {A B : Type} (m : completion A) (k : A -> completion B)
  : completion B :=
  match m with
  | Normal a => k a
  | Throw e => Throw e
  end.

Notation "'let!' x ':=' m 'in' k" := (bind m (fun x => k))
  (at level 10, x name, m at level 100, k at level 200).

(** The names [Object.prototype] defines; an object literal answers a read
    of any of them with the inherited member. *)
Definition objectPrototypeKeys : list string :=
  [ "constructor"; "__defineGetter__"; "__defineSetter__"; "hasOwnProperty";
    "__lookupGetter__"; "__lookupSetter__"; "isPrototypeOf";
    "propertyIsEnumerable"; "toString"; "valueOf"; "__proto__";
    "toLocaleString" ].

Fixpoint assoc (k : string) (l : list (string * string)) : option string :=
  match l with
  | (k', v) :: l' => if String.eqb k k' then Some v else assoc k l'
  | [] => None
  end.

(** [obj[k]] for an object literal [obj] with the own properties [own]. *)
Definition getProperty (own : list (string * string)) (k : string) : value :=
  match assoc k own with
  | Some v => VStr v
  | None =>
      if existsb (String.eqb k) objectPrototypeKeys
      then VBuiltin ("Object.prototype." ++ k)
      else VUndefined
  end.

Fixpoint digitsValue (R : Z) (acc : Z) (s : string) : Z :=
  match s with
  | String c r =>
      match Str.digitValue c with
      | Some v => digitsValue R (acc * R + v) r
      | None => acc
      end
  | EmptyString => acc
  end.

Definition isRadixDigit (R : Z) (c : ascii) : bool :=
  match Str.digitValue c with
  | Some v => v <? R
  | None => false
  end.

(** The optional sign [parseInt] reads, and what follows it. *)
Definition splitSign (s : string) : bool * string :=
  match s with
  | String "-" r => (true, r)
  | String "+" r => (false, r)
  | _ => (false, s)
  end.

(** [parseInt(s, radix)]; [radix = 0] stands for an omitted radix. *)
Definition parseInt (s : string) (radix : Z) : Num.jsint :=
  let s1 := Str.trimStart s in
  let '(neg, s2) := splitSign s1 in
  let R0 := if radix =? 0 then 10 else radix in
  if (R0 <? 2) || (36 <? R0) then Num.INaN else
  let strip := (radix =? 0) || (radix =? 16) in
  let '(R, s3) :=
    if strip && (String.prefix "0x" s2 || String.prefix "0X" s2)
    then (16, Str.drop 2 s2) else (R0, s2) in
  let ds := fst (Str.span (isRadixDigit R) s3) in
  if Str.isEmpty ds then Num.INaN
  else let m := digitsValue R 0 ds in
       Num.int_of_Z (if neg then - m else m).

(** [parseFloat(s)] on the strings a [[\d.]+] capture can hold: the longest
    prefix [digits], [digits.digits], [digits.] or [.digits] is read as a
    decimal numeral; without such a prefix the result is NaN. *)
Definition parseFloat (s : string) : Num.number :=
  let s1 := Str.trimStart s in
  let (ip, r1) := Str.span Str.isDigit s1 in
  let fp :=
    match r1 with
    | String "." r2 => fst (Str.span Str.isDigit r2)
    | _ => EmptyString
    end in
  if Str.isEmpty ip && Str.isEmpty fp then Num.NaN
  else
    let k := Z.of_nat (String.length fp) in
    Num.RN (Qmake (digitsValue 10 (digitsValue 10 0 ip) fp)
                  (Z.to_pos (10 ^ k))).

Definition hexChar (v : Z) : ascii :=
  match String.get (Z.to_nat v) "0123456789abcdef" with
  | Some c => c
  | None => "?"%char
  end.

Fixpoint hexDigits (fuel : nat) (z : Z) (acc : string) : string :=
  match fuel with
  | O => acc
  | S f =>
      let acc' := String (hexChar (z mod 16)) acc in
      if z / 16 =? 0 then acc' else hexDigits f (z / 16) acc'
  end.

(** [n.toString(16)] for an integral [n]. *)
Definition toString16 (i : Num.jsint) : string :=
  match i with
  | Num.INaN => "NaN"
  | Num.IInf false => "Infinity"
  | Num.IInf true => "-Infinity"
  | Num.IInt z =>
      let a := Z.abs z in
      (if z <? 0 then "-" else EmptyString)
        ++ hexDigits (S (Z.to_nat (Z.log2 a))) a EmptyString
  end.

(** The [i]-th element bound by an array pattern over a string, as it
    prints in a template literal. *)
Definition item (s : string) (i : nat) : string :=
  match String.get i s with
  | Some c => String c EmptyString
  | None => "undefined"
  end.

(* ================================================================= *)
(** ** The two regular expressions of [rgbaToHex] *)

Module Regex.

Definition expect (p s : string) : option string :=
  if String.prefix p s then Some (Str.drop (String.length p) s) else None.

Definition optional (c : ascii) (s : string) : string :=
  match s with
  | String c' r => if Ascii.eqb c c' then r else s
  | EmptyString => s
  end.

(** A greedy non-empty run of characters of class [p]. *)
Definition many1 (p : ascii -> bool) (s : string) : option (string * string) :=
  let (a, r) := Str.span p s in
  if Str.isEmpty a then None else Some (a, r).

Definition obind {A B : Type} (m : option A) (k : A -> option B) : option B :=
  match m with
  | Some a => k a
  | None => None
  end.

Notation "'let?' x ':=' m 'in' k" := (obind m (fun x => k))
  (at level 10, x name, m at level 100, k at level 200).
Notation "'let?' ' p ':=' m 'in' k" :=
  (obind m (fun x => match x with p => k end))
  (at level 10, p strict pattern, m at level 100, k at level 200).

(** [/rgba?\(\s*(\d+)\s*,\s*(\d+)\s*,\s*(\d+)/] anchored at the head of [s].
    Every quantifier is followed by a character outside its class, so the
    greedy reading is the only one backtracking can succeed with. *)
Definition rgbAt (s : string) : option (string * string * string) :=
  let? s := expect "rgb" s in
  let? s := expect "(" (optional "a" s) in
  let? '(r, s) := many1 Str.isDigit (Str.trimStart s) in
  let? s := expect "," (Str.trimStart s) in
  let? '(g, s) := many1 Str.isDigit (Str.trimStart s) in
  let? s := expect "," (Str.trimStart s) in
  let? '(b, _) := many1 Str.isDigit (Str.trimStart s) in
  Some (r, g, b).

Definition isNumChar (c : ascii) : bool :=
  Str.isDigit c || Ascii.eqb c ".".

(** [/hsla?\(\s*([\d.]+)\s*,\s*([\d.]+)%\s*,\s*([\d.]+)%/] anchored at the
    head of [s]. *)
Definition hslAt (s : string) : option (string * string * string) :=
  let? s := expect "hsl" s in
  let? s := expect "(" (optional "a" s) in
  let? '(h, s) := many1 isNumChar (Str.trimStart s) in
  let? s := expect "," (Str.trimStart s) in
  let? '(sa, s) := many1 isNumChar (Str.trimStart s) in
  let? s := expect "%" s in
  let? s := expect "," (Str.trimStart s) in
  let? '(l, s) := many1 isNumChar (Str.trimStart s) in
  let? _ := expect "%" s in
  Some (h, sa, l).

(** [s.match(re)] for a pattern without the global flag: the leftmost
    position at which the anchored match succeeds. *)
Fixpoint search {A : Type} (at_ : string -> option A) (s : string) : option A :=
  match at_ s with
  | Some m => Some m
  | None =>
      match s with
      | String _ r => search at_ r
      | EmptyString => None
      end
  end.

Definition rgbMatch : string -> option (string * string * string) := search rgbAt.
Definition hslMatch : string -> option (string * string * string) := search hslAt.

End Regex.

(* ================================================================= *)
(** ** [utils/branding.ts]: colour codec and theme *)

Record BrandColors := mkColors {
  primary : value;
  secondary : value;
  accent : value;
  background : value
}.

Inductive Theme := light | dark.

Definition channel (rgb : Z) (shift : Z) : Z :=
  Z.land (Z.shiftr rgb shift) 255.

(** [0.299 * r + 0.587 * g + 0.114 * b] *)
Definition luminance (r g b : Z) : Num.number :=
  Num.add
    (Num.add (Num.mul (Num.lit 299 1000) (Num.of_int (Num.IInt r)))
             (Num.mul (Num.lit 587 1000) (Num.of_int (Num.IInt g))))
    (Num.mul (Num.lit 114 1000) (Num.of_int (Num.IInt b))).

(** [detectTheme(colors)] *)
Definition detectTheme (colors : BrandColors) : completion Theme :=
  match background colors with
  | VUndefined | VNull => Normal light
  | VBuiltin _ => Throw (TypeError "bgColor.startsWith is not a function")
  | VStr bgColor =>
      if Str.isEmpty bgColor
         || negb (Str.startsWith bgColor "#")
         || (Z.of_nat (String.length bgColor) <? 7)
      then Normal light
      else
        let rgb := parseInt (Str.sliceFrom bgColor 1) 16 in
        if Num.isNaN rgb then Normal light
        else
          let r := channel (Num.toInt32 rgb) 16 in
          let g := channel (Num.toInt32 rgb) 8 in
          let b := channel (Num.toInt32 rgb) 0 in
          if Num.gtb (luminance r g b) (Num.lit 128 1)
          then Normal light else Normal dark
  end.

(** [c => Math.round(c * k).toString(16).padStart(2, '0')] and the
    [join('')] of its image of [[r, g, b]]. *)
Definition hexByte (x : Num.number) : string :=
  Str.padStart (toString16 (Num.round x)) 2 "0".

Definition hexTriple (r g b : Num.number) : string :=
  "#" ++ hexByte r ++ hexByte g ++ hexByte b.

(** The closure [hue2rgb] of [hslToHex]. *)
Definition hue2rgb (p q t : Num.number) : Num.number :=
  let t := if Num.ltb t (Num.lit 0 1) then Num.add t (Num.lit 1 1) else t in
  let t := if Num.gtb t (Num.lit 1 1) then Num.sub t (Num.lit 1 1) else t in
  if Num.ltb t (Num.div (Num.lit 1 1) (Num.lit 6 1))
  then Num.add p (Num.mul (Num.mul (Num.sub q p) (Num.lit 6 1)) t)
  else if Num.ltb t (Num.div (Num.lit 1 1) (Num.lit 2 1)) then q
  else if Num.ltb t (Num.div (Num.lit 2 1) (Num.lit 3 1))
  then Num.add p
         (Num.mul (Num.mul (Num.sub q p)
                     (Num.sub (Num.div (Num.lit 2 1) (Num.lit 3 1)) t))
                  (Num.lit 6 1))
  else p.

(** [hslToHex(h, s, l)] *)
Definition hslToHex (h s l : Num.number) : string :=
  let third := Num.div (Num.lit 1 1) (Num.lit 3 1) in
  let '(r, g, b) :=
    if Num.is_zero s then (l, l, l)
    else
      let q :=
        if Num.ltb l (Num.lit 5 10)
        then Num.mul l (Num.add (Num.lit 1 1) s)
        else Num.sub (Num.add l s) (Num.mul l s) in
      let p := Num.sub (Num.mul (Num.lit 2 1) l) q in
      (hue2rgb p q (Num.add h third),
       hue2rgb p q h,
       hue2rgb p q (Num.sub h third)) in
  let k := Num.lit 255 1 in
  hexTriple (Num.mul r k) (Num.mul g k) (Num.mul b k).

Definition namedColors : list (string * string) :=
  [ ("white", "#FFFFFF"); ("black", "#000000"); ("red", "#FF0000");
    ("green", "#008000"); ("blue", "#0000FF"); ("yellow", "#FFFF00");
    ("cyan", "#00FFFF"); ("magenta", "#FF00FF"); ("orange", "#FFA500");
    ("purple", "#800080"); ("pink", "#FFC0CB"); ("gray", "#808080");
    ("grey", "#808080"); ("navy", "#000080"); ("teal", "#008080");
    ("maroon", "#800000"); ("lime", "#00FF00"); ("aqua", "#00FFFF");
    ("silver", "#C0C0C0"); ("olive", "#808000"); ("coral", "#FF7F50");
    ("salmon", "#FA8072"); ("tomato", "#FF6347"); ("gold", "#FFD700");
    ("indigo", "#4B0082"); ("violet", "#EE82EE");
    ("rebeccapurple", "#663399"); ("crimson", "#DC143C");
    ("darkblue", "#00008B"); ("darkgreen", "#006400");
    ("steelblue", "#4682B4"); ("slategray", "#708090");
    ("dodgerblue", "#1E90FF"); ("royalblue", "#4169E1");
    ("midnightblue", "#191970") ].

(** The sentinel of [rgbaToHex] and the sentinel of [darkenHex]. *)
Definition defaultHex : string := "#0066FF".
Definition darkenDefault : string := "#003D99".

(** [parseInt(c)] of one [rgb()] component, as a Number. *)
Definition rgbComponent (c : string) : Num.number :=
  Num.of_int (parseInt c 0).

(** [c => parseInt(c).toString(16).padStart(2, '0')] *)
Definition rgbByte (c : string) : string :=
  Str.padStart (toString16 (parseInt c 0)) 2 "0".

(** [rgbaToHex(color)] *)
Definition rgbaToHex (color : value) : value :=
  match color with
  | VStr color =>
      if Str.isEmpty color then VStr defaultHex
      else
        let trimmed := Str.trim color in
        if Str.startsWith trimmed "#" then
          if (String.length trimmed =? 4)%nat then
            let r := item trimmed 1 in
            let g := item trimmed 2 in
            let b := item trimmed 3 in
            VStr ("#" ++ r ++ r ++ g ++ g ++ b ++ b)
          else VStr (Str.slice trimmed 0 7)
        else
          match Regex.rgbMatch trimmed with
          | Some (r, g, b) => VStr ("#" ++ rgbByte r ++ rgbByte g ++ rgbByte b)
          | None =>
              match Regex.hslMatch trimmed with
              | Some (h, s, l) =>
                  VStr (hslToHex
                          (Num.div (parseFloat h) (Num.lit 360 1))
                          (Num.div (parseFloat s) (Num.lit 100 1))
                          (Num.div (parseFloat l) (Num.lit 100 1)))
              | None =>
                  let lower := Str.toLowerCase trimmed in
                  let named := getProperty namedColors lower in
                  if truthy named then named else VStr defaultHex
              end
          end
  | _ => VStr defaultHex
  end.

(** [darkenHex(hex, factor)].  A receiver that is not a string has no
    callable [startsWith]: the call raises. *)
Definition darkenHex (hex : value) (factor : Num.number) : completion string :=
  match hex with
  | VStr hex =>
      if negb (Str.startsWith hex "#") || (Z.of_nat (String.length hex) <? 7)
      then Normal darkenDefault
      else
        let clean := Str.removeFirst "#" hex in
        let r := parseInt (Str.slice clean 0 2) 16 in
        let g := parseInt (Str.slice clean 2 4) 16 in
        let b := parseInt (Str.slice clean 4 6) 16 in
        if Num.isNaN r || Num.isNaN g || Num.isNaN b
        then Normal darkenDefault
        else Normal (hexTriple (Num.mul (Num.of_int r) factor)
                               (Num.mul (Num.of_int g) factor)
                               (Num.mul (Num.of_int b) factor))
  | VUndefined | VNull =>
      Throw (TypeError "Cannot read properties of undefined")
  | VBuiltin _ => Throw (TypeError "hex.startsWith is not a function")
  end.

(* ================================================================= *)
(** ** [utils/branding.ts]: the logo resolver *)

Inductive Quality := high | medium | favicon.

Record LogoResult := mkLogo {
  url : string;
  quality : Quality
}.

(** [{ url: logoResult.url, quality: logoResult.quality }] *)
Definition copyLogo (logoResult : LogoResult) : LogoResult :=
  mkLogo (url logoResult) (quality logoResult).

(** How one [axios.head] call ends: a response with its status, or a
    rejection (time-out, network error, status refused by axios). *)
Inductive head_outcome :=
| Responded (status : Z)
| Failed.

(** The browser side of one page: what [getComputedStyle] reports. *)
Record Computed := mkComputed {
  backgroundColor : string;
  color : string
}.

Record Dom := mkDom {
  getPropertyValue : string -> string;
  querySelectorAll : string -> list Computed
}.

(** One browser session on a page that loaded: the palette
    [extractColorsFromScreenshot] computes from its screenshot (the image
    analysis is not modelled: its result is a datum of the session),
    and the document [page.evaluate] runs in, [None] when the evaluation
    rejects. *)
Record Page := mkPage {
  screenshotColors : BrandColors;
  document : option Dom
}.

(** The collaborators of one request.  [head n u t] is the outcome of
    [axios.head(u, {timeout: t})] when [n] probes were made before it;
    [origin u] is [new URL(u).origin], [None] when the constructor raises;
    [openPage u] is the session of [chromium.launch] ... [page.screenshot],
    or the error one of these steps rejects with. *)
Record World := mkWorld {
  head : nat -> string -> Z -> head_outcome;
  origin : string -> option string;
  openPage : string -> completion Page
}.

(** The state one request threads through its calls: the probes made so
    far, oldest first, and the shared [warnings] array. *)
Record state := mkState {
  probes : list (string * Z);
  warnings : list string
}.

Definition M (A : Type) : Type := state -> completion A * state.

Definition ret {A : Type} (a : A) : M A := fun st => (Normal a, st).

Definition raise {A : Type} (e : error) : M A := fun st => (Throw e, st).

Definition mbind {A B : Type} (m : M A) (k : A -> M B) : M B :=
  fun st =>
    match m st with
    | (Normal a, st') => k a st'
    | (Throw e, st') => (Throw e, st')
    end.

Notation "x <- m ;; k" := (mbind m (fun x => k))
  (at level 61, m at next level, right associativity).

(** [try { m } catch (e) { h e }] *)
Definition try_catch {A : Type} (m : M A) (h : error -> M A) : M A :=
  fun st =>
    match m st with
    | (Normal a, st') => (Normal a, st')
    | (Throw e, st') => h e st'
    end.

Definition lift {A : Type} (c : completion A) : M A := fun st => (c, st).

(** [warnings.push(msg)] *)
Definition warn (msg : string) : M unit :=
  fun st => (Normal tt, mkState (probes st) (warnings st ++ [msg])).

(** [await axios.head(u, { timeout: t })] inside its [try]: the status of
    the response, or [None] when the call rejected and the [catch] ran. *)
Definition probe (w : World) (u : string) (t : Z) : M head_outcome :=
  fun st =>
    (Normal (head w (List.length (probes st)) u t),
     mkState (probes st ++ [(u, t)]) (warnings st)).

Definition is200 (o : head_outcome) : bool :=
  match o with
  | Responded s => s =? 200
  | Failed => false
  end.

Definition commonPaths (origin : string) : list string :=
  [ origin ++ "/logo.svg";
    origin ++ "/logo.png";
    origin ++ "/assets/logo.svg";
    origin ++ "/assets/logo.png";
    origin ++ "/images/logo.svg";
    origin ++ "/images/logo.png" ].

Definition clearbitUrl (domain : string) : string :=
  "https://logo.clearbit.com/" ++ domain.

Definition faviconUrl (domain : string) : string :=
  "https://www.google.com/s2/favicons?domain=" ++ domain ++ "&sz=256".

Definition faviconWarning (domain : string) : string :=
  "No high-quality logo found for " ++ domain
    ++ ". Using Google favicon (256px).".

(** The [for (const logoPath of commonPaths)] loop; [None] when it runs to
    its end. *)
Fixpoint tryPaths (w : World) (paths : list string) : M (option LogoResult) :=
  match paths with
  | logoPath :: rest =>
      o <- probe w logoPath 3000;;
      if is200 o then ret (Some (mkLogo logoPath medium))
      else tryPaths w rest
  | [] => ret None
  end.

(** [extractLogoFromCloud(domain, fullUrl, warnings)] *)
Definition extractLogoFromCloud (w : World) (domain fullUrl : string)
  : M LogoResult :=
  o <- probe w (clearbitUrl domain) 5000;;
  if is200 o then ret (mkLogo (clearbitUrl domain) high)
  else
    match origin w fullUrl with
    | None => raise (TypeError "Invalid URL")
    | Some org =>
        found <- tryPaths w (commonPaths org);;
        match found with
        | Some r => ret r
        | None =>
            _ <- warn (faviconWarning domain);;
            ret (mkLogo (faviconUrl domain) favicon)
        end
    end.

(* ================================================================= *)
(** ** The CSS signals read in the page *)

Record BrandingResult := mkBranding {
  logo : LogoResult;
  colors : BrandColors;
  font : string;
  theme : Theme
}.

(** What the orchestrators keep of the page: both fields are a colour
    string or [null]. *)
Record CssColors := mkCss {
  cssPrimary : value;
  cssAccent : value
}.

Definition setPrimary (c : BrandColors) (p s : value) : BrandColors :=
  mkColors p s (accent c) (background c).

Definition setAccent (c : BrandColors) (a : value) : BrandColors :=
  mkColors (primary c) (secondary c) a (background c).

(** The closure [tryProps] of both [page.evaluate] callbacks. *)
Fixpoint tryProps (d : Dom) (names : list string) : value :=
  match names with
  | name :: rest =>
      let val := Str.trim (getPropertyValue d name) in
      if negb (Str.isEmpty val) then VStr val else tryProps d rest
  | [] => VNull
  end.

Definition isButtonBackground (bg : string) : bool :=
  negb (Str.isEmpty bg)
  && negb (String.eqb bg "rgba(0, 0, 0, 0)")
  && negb (String.eqb bg "transparent")
  && negb (String.eqb bg "rgb(255, 255, 255)").

Definition isLinkColor (c : string) : bool :=
  negb (Str.isEmpty c)
  && negb (String.eqb c "rgb(0, 0, 0)")
  && negb (String.eqb c "rgb(255, 255, 255)").

(** A [for ... of] loop over the first ten elements that keeps the first
    style accepted by [ok], [null] without one. *)
Definition firstStyle (ok : string -> bool) (styles : list string) : value :=
  match find ok (firstn 10 styles) with
  | Some c => VStr c
  | None => VNull
  end.

Definition buttonBg (d : Dom) (selector : string) : value :=
  firstStyle isButtonBackground (map backgroundColor (querySelectorAll d selector)).

Definition linkColor (d : Dom) : value :=
  firstStyle isLinkColor (map color (querySelectorAll d "a")).

Definition dq : string := String (ascii_of_nat 34) EmptyString.

Definition classContains (part : string) : string :=
  "[class*=" ++ dq ++ part ++ dq ++ "]".

(* ================================================================= *)
(** ** [tools/extract-docs.ts] *)

Module Docs.

Definition primaryVars : list string :=
  [ "--primary"; "--primary-color"; "--brand-color"; "--color-primary";
    "--theme-primary"; "--main-color"; "--docs-color-primary" ].

Definition accentVars : list string :=
  [ "--accent"; "--accent-color"; "--color-accent"; "--secondary";
    "--secondary-color"; "--theme-accent"; "--docs-color-secondary" ].

Definition buttonSelector : string :=
  "button, a.btn, " ++ classContains "button" ++ ", " ++ classContains "btn".

(** The callback of [page.evaluate] in [extractBrandingWithCssColors]. *)
Definition evaluateCss (d : Dom) : CssColors :=
  let primary := tryProps d primaryVars in
  let accent := tryProps d accentVars in
  let buttonBg := buttonBg d buttonSelector in
  mkCss (or_else primary buttonBg) accent.

(** [await page.evaluate(...).catch(() => ({ primary: null, accent: null }))] *)
Definition cssColorsOf (p : Page) : CssColors :=
  match document p with
  | Some d => evaluateCss d
  | None => mkCss VNull VNull
  end.

(** "Override screenshot colors with CSS-extracted colors": the two [if]
    statements on [cssColors]. *)
Definition overrideColors (colors : BrandColors) (cssColors : CssColors)
  : completion BrandColors :=
  let! colors :=
    if truthy (cssPrimary cssColors) then
      let p := rgbaToHex (cssPrimary cssColors) in
      let! s := darkenHex p (Num.lit 6 10) in
      Normal (setPrimary colors p (VStr s))
    else Normal colors in
  if truthy (cssAccent cssColors)
  then Normal (setAccent colors (rgbaToHex (cssAccent cssColors)))
  else Normal colors.

(** [extractBrandingWithCssColors(url, domain, warnings)] *)
Definition extractBrandingWithCssColors (w : World) (url domain : string)
  : M BrandingResult :=
  let cleanDomain := Str.removeFirst "www." domain in
  logoResult <- extractLogoFromCloud w cleanDomain url;;
  page <- lift (openPage w url);;
  colors <- lift (overrideColors (screenshotColors page) (cssColorsOf page));;
  theme <- lift (detectTheme colors);;
  ret (mkBranding (copyLogo logoResult)
                  colors
                  "system-ui, -apple-system, sans-serif"
                  theme).

Definition defaultColors : BrandColors :=
  mkColors (VStr "#0066FF") (VStr "#003D99") (VStr "#66B3FF") (VStr "#FFFFFF").

(** Phase 3 of [extractDocsContent]: the branding of the returned record
    before the logo is downloaded. *)
Definition extractDocsBranding (w : World) (url domain : string)
  : M BrandingResult :=
  try_catch (extractBrandingWithCssColors w url domain)
    (fun e =>
       _ <- warn ("Branding extraction failed: " ++ errorMessage e);;
       ret (mkBranding (mkLogo (faviconUrl domain) favicon)
                       defaultColors
                       "system-ui, sans-serif"
                       light)).

End Docs.

(* ================================================================= *)
(** ** [tools/extract-url.ts] *)

Module Url.

Record Signals := mkSignals {
  sigPrimary : value;
  sigAccent : value;
  sigButtonBg : value;
  sigLinkColor : value
}.

Definition primaryVars : list string :=
  [ "--primary"; "--primary-color"; "--brand-color"; "--color-primary";
    "--theme-primary"; "--main-color" ].

Definition accentVars : list string :=
  [ "--accent"; "--accent-color"; "--color-accent"; "--secondary";
    "--secondary-color"; "--theme-accent" ].

Definition buttonSelector : string :=
  "button, a.btn, " ++ classContains "button" ++ ", " ++ classContains "btn"
    ++ ", " ++ classContains "cta".

(** The callback of [page.evaluate] in [extractWithPlaywright]. *)
Definition evaluateCss (d : Dom) : Signals :=
  mkSignals (tryProps d primaryVars) (tryProps d accentVars)
            (buttonBg d buttonSelector) (linkColor d).

(** [await page.evaluate(...).catch(...)]: four [null]s on rejection. *)
Definition signalsOf (doc : option Dom) : Signals :=
  match doc with
  | Some d => evaluateCss d
  | None => mkSignals VNull VNull VNull VNull
  end.

(** [resolvedPrimary], [resolvedAccent] and [colorResult] of
    [extractWithPlaywright]. *)
Definition resolveColors (cssColors : Signals) : option CssColors :=
  let resolvedPrimary :=
    if truthy (sigPrimary cssColors) then rgbaToHex (sigPrimary cssColors)
    else if truthy (sigButtonBg cssColors) then rgbaToHex (sigButtonBg cssColors)
    else if truthy (sigLinkColor cssColors) then rgbaToHex (sigLinkColor cssColors)
    else VNull in
  let resolvedAccent :=
    if truthy (sigAccent cssColors) then rgbaToHex (sigAccent cssColors)
    else VNull in
  if truthy resolvedPrimary || truthy resolvedAccent
  then Some (mkCss resolvedPrimary resolvedAccent)
  else None.

(** The two [if] statements on [playwrightResult.cssColors], the same in
    both branches of [extractUrlContent]. *)
Definition improveColors (colors : BrandColors) (cssColors : CssColors)
  : completion BrandColors :=
  let! colors :=
    if truthy (cssPrimary cssColors) then
      let! s := darkenHex (cssPrimary cssColors) (Num.lit 6 10) in
      Normal (setPrimary colors (cssPrimary cssColors) (VStr s))
    else Normal colors in
  if truthy (cssAccent cssColors)
  then Normal (setAccent colors (cssAccent cssColors))
  else Normal colors.

(** [if (playwrightResult.cssColors) { ... }]: the improvement applies
    when [extractWithPlaywright] returned colours. *)
Definition applyCss (colors : BrandColors) (cssColors : option CssColors)
  : completion BrandColors :=
  match cssColors with
  | Some css => improveColors colors css
  | None => Normal colors
  end.

(** The branding of [extractUrlContent] once [extractWithPlaywright] has
    returned.  [branding] is the result of [extractBrandingSimple], [None]
    when it raised; [cssColors] is [playwrightResult.cssColors];
    [screenshot] is the outcome of [takeScreenshot] followed by
    [extractColorsFromScreenshot] in the [needBranding] branch. *)
Definition improveBranding (domain : string)
                           (branding : option BrandingResult)
                           (cssColors : option CssColors)
                           (screenshot : completion BrandColors)
  : completion BrandingResult :=
  match branding with
  | None =>
      let! colors := screenshot in
      let! colors := applyCss colors cssColors in
      let! theme := detectTheme colors in
      Normal (mkBranding (mkLogo (faviconUrl domain) favicon)
                         colors
                         "system-ui, sans-serif"
                         theme)
  | Some b =>
      let! colors := applyCss (colors b) cssColors in
      Normal (mkBranding (logo b) colors (font b) (theme b))
  end.

(** [extractBrandingSimple(url, warnings)] of the same file. *)
Definition extractBrandingSimple (w : World) (url hostname : string)
                                 (screenshot : completion BrandColors)
  : M BrandingResult :=
  let domain := Str.removeFirst "www." hostname in
  logoResult <- extractLogoFromCloud w domain url;;
  colors <- lift screenshot;;
  theme <- lift (detectTheme colors);;
  ret (mkBranding (copyLogo logoResult)
                  colors
                  "system-ui, -apple-system, sans-serif"
                  theme).

End Url.

(* ================================================================= *)
(** ** Vocabulary of the specification *)

(** The first [n] characters of a string. *)
Fixpoint firstChars (n : nat) (s : string) : string :=
  match n, s with
  | S n', String c r => String c (firstChars n' r)
  | _, _ => EmptyString
  end.

Fixpoint allChars (p : ascii -> bool) (s : string) : bool :=
  match s with
  | String c r => p c && allChars p r
  | EmptyString => true
  end.

(** [#] followed by exactly [n] hexadecimal digits. *)
Definition isHexOfLength (n : nat) (s : string) : bool :=
  match s with
  | String "#" r => allChars Str.isHexDigit r && (String.length r =? n)%nat
  | _ => false
  end.

(** The hexadecimal notations the specification calls valid:
    [#RGB], [#RRGGBB] and [#RRGGBBAA]. *)
Definition isHexColor (s : string) : bool :=
  isHexOfLength 3 s || isHexOfLength 6 s || isHexOfLength 8 s.

(** The canonical form [#RRGGBB]. *)
Definition isCanonical (s : string) : bool := isHexOfLength 6 s.

(** [#RGB] with each of its three characters doubled. *)
Definition doubled (s : string) : string :=
  match s with
  | String h (String r (String g (String b _))) =>
      String h (String r (String r (String g (String g
        (String b (String b EmptyString))))))
  | _ => s
  end.

(** The two lower-case hexadecimal digits of a byte. *)
Definition twoHex (n : Z) : string :=
  String (hexChar (n / 16)) (String (hexChar (n mod 16)) EmptyString).

(** The value of the byte two hexadecimal digits write. *)
Definition byteOf (hi lo : ascii) : Z :=
  match Str.digitValue hi, Str.digitValue lo with
  | Some a, Some b => 16 * a + b
  | _, _ => 0
  end.

(** The names [namedColors[lower]] answers with a truthy value: the keys of
    the table, and the two members of [Object.prototype] whose name is its
    own lower-case form. *)
Definition isNamedOrInherited (k : string) : bool :=
  existsb (String.eqb k) (map fst namedColors)
  || String.eqb k "constructor" || String.eqb k "__proto__".

Definition matches {A : Type} (m : option A) : bool :=
  match m with
  | Some _ => true
  | None => false
  end.

(** The inputs [rgbaToHex] has no branch for: a missing value, the empty
    string, and a string that, once trimmed, does not begin with [#],
    matches neither pattern and names no property of the table. *)
Definition unsupported (v : value) : bool :=
  match v with
  | VStr s =>
      Str.isEmpty s
      || (let t := Str.trim s in
          negb (Str.startsWith t "#")
          && negb (matches (Regex.rgbMatch t))
          && negb (matches (Regex.hslMatch t))
          && negb (isNamedOrInherited (Str.toLowerCase t)))
  | _ => true
  end.

Definition isUpper (c : ascii) : bool :=
  (65 <=? Str.code c) && (Str.code c <=? 90).

(** The outcome the [k]-th common-path probe receives when [n] probes
    were made before the resolver started. *)
Definition pathOutcome (w : World) (n : nat) (org : string) (k : nat)
  : head_outcome :=
  head w (n + 1 + k) (nth k (commonPaths org) EmptyString) 3000.

(** The probe log after the brand-API probe and the first [k] common
    paths. *)
Definition probesAfter (st : state) (domain org : string) (k : nat)
  : list (string * Z) :=
  probes st ++ (clearbitUrl domain, 5000)
    :: map (fun p => (p, 3000)) (firstn k (commonPaths org)).

(** The first truthy value of a list of signals, [null] without one. *)
Fixpoint firstTruthy (l : list value) : value :=
  match l with
  | v :: rest => if truthy v then v else firstTruthy rest
  | [] => VNull
  end.

(** *** Sample requests *)

(** A network on which every probe fails, and a page that cannot be
    opened. *)
Definition offline : World :=
  mkWorld (fun _ _ _ => Failed)
          (fun _ => Some "https://example.com")
          (fun _ => Throw (Rejected "net::ERR_INTERNET_DISCONNECTED")).

(** A network on which the probe number [k] (from 0) is answered 200. *)
Definition answering (k : nat) : World :=
  mkWorld (fun n _ _ => if (n =? k)%nat then Responded 200 else Responded 404)
          (fun _ => Some "https://example.com")
          (fun _ => Throw (Rejected "net::ERR_INTERNET_DISCONNECTED")).

(** A network on which every probe fails, and a page URL that [new URL]
    does not parse. *)
Definition unparsable : World :=
  mkWorld (fun _ _ _ => Failed)
          (fun _ => None)
          (fun _ => Throw (Rejected "net::ERR_INTERNET_DISCONNECTED")).

Definition freshState : state := mkState [] [].

(** A palette standing for the result of the screenshot analysis. *)
Definition samplePalette : BrandColors :=
  mkColors (VStr "#FF6600") (VStr "#112233") (VStr "#445566") (VStr "#1A1A1A").

(** A page without custom properties and without buttons. *)
Definition plainDom (links : list Computed) : Dom :=
  mkDom (fun _ => EmptyString)
        (fun selector => if String.eqb selector "a" then links else []).


(** A page declaring [--primary] with the given value. *)
Definition primaryDom (v : string) : Dom :=
  mkDom (fun name => if String.eqb name "--primary" then v else EmptyString)
        (fun _ => []).

Definition serving (d : Dom) : World :=
  mkWorld (fun _ _ _ => Failed)
          (fun _ => Some "https://example.com")
          (fun _ => Normal (mkPage samplePalette (Some d))).

(** The three channels a canonical colour writes. *)
Definition channelsOf (hex : string) : Z * Z * Z :=
  match hex with
  | String _ (String a (String b (String c (String d (String e (String f _)))))) =>
      (byteOf a b, byteOf c d, byteOf e f)
  | _ => (0, 0, 0)
  end.

(** [n] is a channel [c] scaled by [k]: an integer between 0 and [c], the
    nearest to the binary64 product [v] of [c] and [k] (the upper one on a
    tie), which is within 2^-45 of the exact product. *)
Definition scaledTo (c : Z) (k : Q) (n : Z) : Prop :=
  0 <= n <= c
  /\ exists v, Num.mul (Num.of_int (Num.IInt c)) (Num.Fin k) = Num.Fin v
               /\ (inject_Z n - (1 # 2) <= v)%Q /\ (v < inject_Z n + (1 # 2))%Q
               /\ (Qabs (v - inject_Z c * k) <= 1 # (2 ^ 45))%Q.

(** The hexadecimal digits, and the checks run over them and over the
    bytes. *)
Definition hexChars : list ascii := list_ascii_of_string "0123456789abcdefABCDEF".

Definition jsint_eqb (a b : Num.jsint) : bool :=
  match a, b with
  | Num.IInt x, Num.IInt y => x =? y
  | Num.INaN, Num.INaN => true
  | Num.IInf x, Num.IInf y => Bool.eqb x y
  | _, _ => false
  end.

Definition pairOk (hi lo : ascii) : bool :=
  jsint_eqb (parseInt (String hi (String lo EmptyString)) 16) (Num.IInt (byteOf hi lo))
  && String.eqb (twoHex (byteOf hi lo))
       (String (Str.lowerChar hi) (String (Str.lowerChar lo) EmptyString))
  && (0 <=? byteOf hi lo) && (byteOf hi lo <? 256).

Definition byteOk (n : Z) : bool :=
  String.eqb (Str.padStart (toString16 (Num.IInt n)) 2 "0") (twoHex n).


(** *** The notations of a colour *)

(** A non-empty run of decimal digits; a run of white space; the class of
    the first character of a string. *)
Definition isDigits (s : string) : bool :=
  negb (Str.isEmpty s) && allChars Str.isDigit s.

Definition isSpaces (s : string) : bool := allChars Str.isWhite s.

Definition headIs (p : ascii -> bool) (s : string) : bool :=
  match s with
  | String c _ => p c
  | EmptyString => false
  end.

(** The text of an [rgb()] or [rgba()] colour: three integers between 0
    and 255 separated by commas, white space allowed around them, and
    whatever follows the third (an alpha component, the closing
    parenthesis). *)
Record RgbText := mkRgbText {
  rgbAlpha : bool;
  rgbSp1 : string; red : string; rgbSp2 : string;
  rgbSp3 : string; green : string; rgbSp4 : string;
  rgbSp5 : string; blue : string;
  rgbTail : string
}.

Definition writeRgb (x : RgbText) : string :=
  "rgb" ++ (if rgbAlpha x then "a" else EmptyString) ++ "("
    ++ rgbSp1 x ++ red x ++ rgbSp2 x ++ ","
    ++ rgbSp3 x ++ green x ++ rgbSp4 x ++ ","
    ++ rgbSp5 x ++ blue x ++ rgbTail x.

Definition isByteText (s : string) : bool :=
  isDigits s && (digitsValue 10 0 s <=? 255).

Definition validRgb (x : RgbText) : bool :=
  isSpaces (rgbSp1 x) && isSpaces (rgbSp2 x) && isSpaces (rgbSp3 x)
  && isSpaces (rgbSp4 x) && isSpaces (rgbSp5 x)
  && isByteText (red x) && isByteText (green x) && isByteText (blue x)
  && negb (headIs Str.isDigit (rgbTail x)).

(** A decimal numeral [digits] or [digits.digits] and its value. *)
Record Numeral := mkNumeral {
  intPart : string;
  fracPart : string
}.

Definition writeNum (n : Numeral) : string :=
  intPart n ++ (if Str.isEmpty (fracPart n) then EmptyString else "." ++ fracPart n).

Definition validNum (n : Numeral) : bool :=
  isDigits (intPart n) && allChars Str.isDigit (fracPart n).

Definition numValue (n : Numeral) : Q :=
  Qmake (digitsValue 10 (digitsValue 10 0 (intPart n)) (fracPart n))
        (Z.to_pos (10 ^ Z.of_nat (String.length (fracPart n)))).

(** The text of an [hsl()] or [hsla()] colour: a hue, and a saturation and
    a lightness between 0% and 100%; what follows the lightness holds no
    [r]. *)
Record HslText := mkHslText {
  hslAlpha : bool;
  hslSp1 : string; hue : Numeral; hslSp2 : string;
  hslSp3 : string; saturation : Numeral;
  hslSp4 : string; hslSp5 : string; lightness : Numeral;
  hslTail : string
}.

Definition writeHsl (x : HslText) : string :=
  "hsl" ++ (if hslAlpha x then "a" else EmptyString) ++ "("
    ++ hslSp1 x ++ writeNum (hue x) ++ hslSp2 x ++ ","
    ++ hslSp3 x ++ writeNum (saturation x) ++ "%"
    ++ hslSp4 x ++ "," ++ hslSp5 x ++ writeNum (lightness x) ++ "%"
    ++ hslTail x.

Definition notR (c : ascii) : bool := negb (Ascii.eqb c "r").

Definition validHsl (x : HslText) : bool :=
  isSpaces (hslSp1 x) && isSpaces (hslSp2 x) && isSpaces (hslSp3 x)
  && isSpaces (hslSp4 x) && isSpaces (hslSp5 x)
  && validNum (hue x) && validNum (saturation x) && validNum (lightness x)
  && Qle_bool (numValue (saturation x)) 100
  && Qle_bool (numValue (lightness x)) 100
  && allChars notR (hslTail x).

(** A name of the table, in any case. *)
Definition isNamed (t : string) : bool :=
  existsb (String.eqb (Str.toLowerCase t)) (map fst namedColors).

(** The inputs the specification calls valid. *)
Definition validColor (t : string) : Prop :=
  isHexColor t = true
  \/ (exists x, validRgb x = true /\ t = writeRgb x)
  \/ (exists x, validHsl x = true /\ t = writeHsl x)
  \/ isNamed t = true.


(** *** Quantities of the rounding analysis *)

Open Scope Q_scope.

(** The rounding error of a magnitude up to 16. *)
Definition eps : Q := 1 # (2 ^ 49).

(** The values of [1/6], [2/3] and [1/3] in binary64. *)
Definition c6 : Q := 6004799503160661 # 36028797018963968.

Definition c23 : Q := 6004799503160661 # 9007199254740992.

Definition c13 : Q := 6004799503160661 # 18014398509481984.

(** The arguments [hue2rgb] receives as [t]: a finite value from -1
    upwards, or +infinity. *)
Definition hueArg (t : Num.number) : Prop :=
  t = Num.Inf false \/ exists t0, t = Num.Fin t0 /\ -1 <= t0.

(** [x] lies in the unit interval widened by [d]. *)
Definition nearUnit (x : Q) (d : Q) : Prop := - d <= x /\ x <= 1 + d.

Definition tiny : Q := 1 # 1000000.

(** The hues [rgbaToHex] passes to [hslToHex]: a finite value from 0
    upwards, or +infinity. *)
Definition hueValue (h : Num.number) : Prop :=
  h = Num.Inf false \/ exists h0, h = Num.Fin h0 /\ 0 <= h0.

Close Scope Q_scope.

(** Checks run over the bytes and over the table of named colours. *)
Definition byteCanonical (n : Z) : bool := allChars Str.isHexDigit (twoHex n).

Definition notParen (c : ascii) : bool := negb (Ascii.eqb c "(").

Definition isPlain (c : ascii) : bool :=
  negb (Ascii.eqb c "#") && negb (Ascii.eqb c "(").

Definition entryOk (e : string * string) : bool :=
  allChars isPlain (fst e) && negb (Str.isEmpty (fst e))
  && isCanonical (snd e).

(* ================================================================= *)
(** ** Further string and number operations *)

(** [s.includes(p)] *)
Fixpoint includes (s p : string) : bool :=
  String.prefix p s
  || match s with
     | String _ r => includes r p
     | EmptyString => false
     end.

(** [s.endsWith(p)] *)
Definition endsWith (s p : string) : bool :=
  (String.length p <=? String.length s)%nat
  && String.eqb (Str.drop (String.length s - String.length p) s) p.

(** [s.split(c)] for a one-character separator. *)
Fixpoint split (sep : ascii) (s : string) : list string :=
  match s with
  | String c r =>
      if Ascii.eqb c sep then EmptyString :: split sep r
      else match split sep r with
           | piece :: rest => String c piece :: rest
           | [] => [String c EmptyString]
           end
  | EmptyString => [EmptyString]
  end.

(** [s.split(/\s+/)]; [inRun] tells that the previous character belonged
    to a run of white space. *)
Fixpoint splitWhiteFrom (inRun : bool) (s : string) : list string :=
  match s with
  | String c r =>
      if Str.isWhite c then
        if inRun then splitWhiteFrom true r
        else EmptyString :: splitWhiteFrom true r
      else match splitWhiteFrom false r with
           | piece :: rest => String c piece :: rest
           | [] => [String c EmptyString]
           end
  | EmptyString => [EmptyString]
  end.

Definition splitWhite (s : string) : list string := splitWhiteFrom false s.

(** [s.replace(/[^a-z0-9.-]/g, '')] *)
Definition isDomainChar (c : ascii) : bool :=
  let n := Str.code c in
  ((97 <=? n) && (n <=? 122)) || ((48 <=? n) && (n <=? 57))
  || (n =? 46) || (n =? 45).

Fixpoint keepChars (p : ascii -> bool) (s : string) : string :=
  match s with
  | String c r => if p c then String c (keepChars p r) else keepChars p r
  | EmptyString => EmptyString
  end.

(** [c.toUpperCase()] for one code unit below 256.  The micro sign, the
    sharp s and the y with diaeresis, whose upper-case forms are not a
    single code unit below 256, are outside the model: they are left as
    they are. *)
Definition upperChar (c : ascii) : ascii :=
  let n := Str.code c in
  if ((97 <=? n) && (n <=? 122))
     || ((224 <=? n) && (n <=? 254) && negb (n =? 247))
  then ascii_of_nat (nat_of_ascii c - 32)
  else c.

Definition decChar (v : Z) : ascii := ascii_of_nat (48 + Z.to_nat v).

Fixpoint decDigits (fuel : nat) (z : Z) (acc : string) : string :=
  match fuel with
  | O => acc
  | S f =>
      let acc' := String (decChar (z mod 10)) acc in
      if z / 10 =? 0 then acc' else decDigits f (z / 10) acc'
  end.

(** [String(n)] for an integral [n] of magnitude below 10^21, where the
    notation is the plain decimal one. *)
Definition toString10 (i : Num.jsint) : string :=
  match i with
  | Num.INaN => "NaN"
  | Num.IInf false => "Infinity"
  | Num.IInf true => "-Infinity"
  | Num.IInt z =>
      let a := Z.abs z in
      (if z <? 0 then "-" else EmptyString)
        ++ decDigits (S (Z.to_nat (Z.log2 a))) a EmptyString
  end.

(** [Math.ceil(x)] *)
Definition ceil (x : Num.number) : Num.jsint :=
  match x with
  | Num.NaN => Num.INaN
  | Num.Inf a => Num.IInf a
  | Num.Fin q => Num.IInt (Qceiling q)
  end.

(* ================================================================= *)
(** ** [utils/branding.ts]: industry and logo download *)

Definition industries : list (string * list string) :=
  [ ("tech", [ "software"; "app"; "platform"; "cloud"; "saas"; "api";
               "developer"; "documentation"; "framework"; "library";
               "tutorial" ]);
    ("finance", [ "bank"; "payment"; "finance"; "invest"; "trading";
                  "crypto" ]);
    ("healthcare", [ "health"; "medical"; "doctor"; "patient"; "clinic";
                     "hospital" ]);
    ("ecommerce", [ "shop"; "store"; "buy"; "product"; "marketplace";
                    "retail" ]);
    ("education", [ "learn"; "course"; "education"; "student"; "training";
                    "teach" ]);
    ("marketing", [ "marketing"; "advertising"; "campaign"; "brand";
                    "social media" ]);
    ("gaming", [ "game"; "play"; "gaming"; "esports"; "player" ]) ].

(** [keywords.some(keyword => text.includes(keyword))] *)
Definition mentions (text : string) (keywords : list string) : bool :=
  existsb (fun keyword => includes text keyword) keywords.

(** [inferIndustry(title, description)] *)
Definition inferIndustry (title description : string) : string :=
  let text := Str.toLowerCase (title ++ " " ++ description) in
  match find (fun entry => mentions text (snd entry)) industries with
  | Some (industry, _) => industry
  | None => "general"
  end.

(** The extension [downloadLogoToPublic] gives the file, from the
    [content-type] header and the URL. *)
Definition logoExtension (contentType logoUrl : string) : string :=
  if includes contentType "svg" then "svg"
  else if includes contentType "jpeg" || includes contentType "jpg" then "jpg"
  else if endsWith logoUrl ".svg" then "svg"
  else if endsWith logoUrl ".jpg" || endsWith logoUrl ".jpeg" then "jpg"
  else "png".

Definition logoFileName (domain ext : string) : string :=
  let cleanDomain := keepChars isDomainChar (Str.removeFirst "www." domain) in
  "logo-" ++ cleanDomain ++ "." ++ ext.

(** The collaborators of [downloadLogoToPublic]: [get u] is the
    [content-type] header of the response to [axios.get(u)], [None] when the
    response has none, or the rejection; [imagesDir] is the outcome of
    [getImagesDir]; [join] is [path.join]; [mkdir] and [writeFile] are the
    outcomes of the two file-system calls. *)
Record Files := mkFiles {
  get : string -> completion (option string);
  imagesDir : completion string;
  join : string -> string -> string;
  mkdir : string -> completion unit;
  writeFile : string -> completion unit
}.

(** [downloadLogoToPublic(logoUrl, domain, remotionProjectPath)] *)
Definition downloadLogoToPublic (fs : Files) (logoUrl domain : string) : string :=
  if Str.isEmpty logoUrl then EmptyString
  else
    match get fs logoUrl with
    | Throw _ => EmptyString
    | Normal header =>
        let contentType :=
          match header with
          | Some h => h
          | None => EmptyString
          end in
        let ext := logoExtension contentType logoUrl in
        match imagesDir fs with
        | Throw _ => EmptyString
        | Normal publicImagesDir =>
            match mkdir fs publicImagesDir with
            | Throw _ => EmptyString
            | Normal _ =>
                let fileName := logoFileName domain ext in
                match writeFile fs (join fs publicImagesDir fileName) with
                | Throw _ => EmptyString
                | Normal _ => "images/" ++ fileName
                end
            end
        end
    end.

(* ================================================================= *)
(** ** [tools/extract-docs.ts]: metadata inferred from the markdown *)

Module Meta.

Inductive DocType :=
  quickstart | tutorial | apiReference | guide | conceptual | howTo.

Inductive Difficulty := beginner | intermediate | advanced.

Record Section := mkSection {
  heading : string;
  type : string
}.

Record DocsMetadata := mkMetadata {
  title : string;
  technology : string;
  docType : DocType;
  difficulty : Difficulty;
  prerequisites : list string;
  estimatedReadTime : string;
  sections : list Section
}.

Definition techMap : list (string * list string) :=
  [ ("React", [ "react"; "jsx"; "usestate"; "useeffect"; "react.dev" ]);
    ("Next.js", [ "next.js"; "nextjs"; "next/" ]);
    ("Vue", [ "vue"; "vuejs"; "vue.js" ]);
    ("Python", [ "python"; "pip install"; "def "; "import " ]);
    ("Node.js", [ "node.js"; "nodejs"; "npm install"; "require(" ]);
    ("TypeScript", [ "typescript"; "tsc"; ".ts " ]);
    ("Stripe", [ "stripe"; "stripe.com" ]);
    ("AWS", [ "aws"; "amazon web services"; "ec2"; "s3" ]);
    ("Docker", [ "docker"; "dockerfile"; "docker-compose" ]);
    ("Terraform", [ "terraform"; "hcl"; "tf " ]) ].

(** [l.replace(/^#\s+/, '')] and [l.replace(/^##\s+/, '')]: the marker and
    the white space after it go, when the line begins with both. *)
Definition dropMarker (marker l : string) : string :=
  match Regex.expect marker l with
  | Some r => if headIs Str.isWhite r then Str.trimStart r else l
  | None => l
  end.

(** [inferMetadataFromMarkdown(markdown, url)]; [hostname] is
    [new URL(url).hostname], which the caller has evaluated before. *)
Definition inferMetadataFromMarkdown (markdown hostname : string)
  : DocsMetadata :=
  let lines := split (ascii_of_nat 10) markdown in
  let title :=
    match find (fun l => Str.startsWith l "# ") lines with
    | Some titleLine => Str.trim (dropMarker "#" titleLine)
    | None => hostname
    end in
  let domain := Str.toLowerCase hostname in
  let text := Str.toLowerCase markdown in
  let technology :=
    match find (fun entry =>
                  existsb (fun kw => includes text kw || includes domain kw)
                          (snd entry)) techMap with
    | Some (tech, _) => tech
    | None => "Unknown"
    end in
  let docType :=
    if includes text "quickstart" || includes text "getting started"
       || includes text "quick start" then quickstart
    else if includes text "tutorial" || includes text "step by step"
            || includes text "walkthrough" then tutorial
    else if includes text "api reference" || includes text "endpoints"
            || includes text "api/" then apiReference
    else if includes text "how to" || includes text "how-to" then howTo
    else guide in
  let difficulty :=
    if includes text "beginner" || includes text "introduction"
       || includes text "getting started" then beginner
    else if includes text "advanced" || includes text "optimization"
            || includes text "best practices" then advanced
    else intermediate in
  let sections :=
    map (fun l => mkSection (Str.trim (dropMarker "##" l)) "concept")
        (filter (fun l => Str.startsWith l "## ") lines) in
  let wordCount := Z.of_nat (List.length (splitWhite markdown)) in
  let readTimeMin :=
    ceil (Num.div (Num.of_int (Num.IInt wordCount)) (Num.lit 200 1)) in
  mkMetadata title technology docType difficulty []
             (toString10 readTimeMin ++ " min") sections.

End Meta.

(* ================================================================= *)
(** ** [tools/extract-url.ts]: the content read in the page *)

Module Content.

Record Section := mkSection {
  heading : string;
  text : string
}.

(** [el.textContent?.trim() || ''], [None] standing for a [null]
    [textContent]. *)
Definition trimmedText (textContent : option string) : string :=
  match textContent with
  | Some t => Str.trim t
  | None => EmptyString
  end.

Definition lengthBetween (lo hi : nat) (t : string) : bool :=
  (lo <? String.length t)%nat && (String.length t <? hi)%nat.

(** The callback of [page.$$eval('ul li, ol li', ...)] on the
    [textContent] of the elements, and the [catch] that answers a rejection
    ([None]) with the empty array. *)
Definition listItems (items : option (list (option string))) : list string :=
  match items with
  | Some items => filter (lengthBetween 5 120) (map trimmedText (firstn 8 items))
  | None => []
  end.

(** The callback of [page.$$eval('h2, h3', ...)] and its [catch]. *)
Definition headings (els : option (list (option string))) : list Section :=
  match els with
  | Some els =>
      filter (fun s => lengthBetween 2 100 (heading s))
             (map (fun el => mkSection (trimmedText el) EmptyString)
                  (firstn 6 els))
  | None => []
  end.

(** [listItems.length >= 2 ? listItems.slice(0, 5) : []] *)
Definition features (listItems : list string) : list string :=
  if (2 <=? List.length listItems)%nat then firstn 5 listItems else [].

(** [createPlaceholderContent(url)]: the title and the description;
    [hostname] is [new URL(url).hostname]. *)
Definition placeholderDomain (hostname : string) : string :=
  match split "." (Str.removeFirst "www." hostname) with
  | first :: _ => first
  | [] => EmptyString
  end.

Definition capitalize (domain : string) : string :=
  match domain with
  | String c r => String (upperChar c) r
  | EmptyString => EmptyString
  end.

Definition placeholderTitle (hostname : string) : string :=
  capitalize (placeholderDomain hostname).

Definition placeholderDescription (hostname : string) : string :=
  "Discover " ++ placeholderDomain hostname
    ++ " - Your solution for better productivity".

Definition placeholderFeatures : list string :=
  [ "Easy to use"; "Fast performance"; "Reliable support" ].

End Content.

(* ================================================================= *)
(** ** [utils/beats.ts]: the heuristic beats *)

(** [parseFloat(time.toFixed(2))] for a finite [time] from 0 up to, but not
    including, 10^21: [toFixed] writes the integer [n] nearest to
    [100 * time] (the larger one on a tie) with a point before its last two
    digits, and [parseFloat] reads that numeral back.  [None] outside this
    range. *)
Definition fixed2 (time : Num.number) : option string :=
  match time with
  | Num.Fin x =>
      if Qle_bool 0 x && negb (Qle_bool (inject_Z (10 ^ 21)) x) then
        let n := Qfloor (x * 100 + (1 # 2)) in
        Some (toString10 (Num.IInt (n / 100)) ++ "."
              ++ String (decChar ((n / 10) mod 10))
                   (String (decChar (n mod 10)) EmptyString))
      else None
  | _ => None
  end.

(** The loop of [generateHeuristicBeats] from the value [time] of its
    variable; [None] when the fuel runs out or [toFixed] leaves the range
    above. *)
Fixpoint beatsFrom (fuel : nat) (interval durationSeconds time : Num.number)
  : option (list Num.number) :=
  match fuel with
  | O => None
  | S fuel' =>
      if Num.ltb time durationSeconds then
        match fixed2 time with
        | Some digits =>
            match beatsFrom fuel' interval durationSeconds
                            (Num.add time interval) with
            | Some beats => Some (parseFloat digits :: beats)
            | None => None
            end
        | None => None
        end
      else Some []
  end.

(** [generateHeuristicBeats(bpm, durationSeconds)] *)
Definition generateHeuristicBeats (fuel : nat) (bpm durationSeconds : Num.number)
  : option (list Num.number) :=
  let interval := Num.div (Num.lit 60 1) bpm in
  beatsFrom fuel interval durationSeconds (Num.lit 0 1).

(* ================================================================= *)
(** ** [remotion-template/src/Root.tsx]: the length of the video *)

Definition FPS : Num.number := Num.lit 30 1.

Definition DEFAULT_DURATION_FRAMES : Num.jsint := Num.IInt 900.

(** The properties [calculateVideoMetadata] reads: the two static paths
    ([props.audio?.narration?.staticPath], [props.audio?.music?.staticPath])
    and [props.duration], [None] for a missing value. *)
Record VideoProps := mkVideoProps {
  narrationPath : value;
  musicPath : value;
  duration : option Num.number
}.

(** [durationInFrames === DEFAULT_DURATION_FRAMES] *)
Definition isDefault (durationInFrames : Num.jsint) : bool :=
  match durationInFrames with
  | Num.IInt z => z =? 900
  | _ => false
  end.

(** [Math.ceil(seconds * FPS)] *)
Definition framesOf (seconds : Num.number) : Num.jsint :=
  ceil (Num.mul seconds FPS).

(** [!!n] for a Number *)
Definition truthyNumber (n : Num.number) : bool :=
  match n with
  | Num.NaN => false
  | Num.Inf _ => true
  | Num.Fin q => negb (Qeq_bool q 0)
  end.

(** One [try] block of [calculateVideoMetadata]: [audioDuration p] is the
    outcome of [getAudioDurationInSeconds(staticFile(p))]. *)
Definition fromAudio (audioDuration : string -> completion Num.number)
                     (path : value) (durationInFrames : Num.jsint)
  : Num.jsint :=
  match path with
  | VStr p =>
      if Str.isEmpty p then durationInFrames
      else match audioDuration p with
           | Normal seconds => framesOf seconds
           | Throw _ => durationInFrames
           end
  | _ => durationInFrames
  end.

(** [calculateVideoMetadata({ props })]: the [durationInFrames] of its
    result. *)
Definition calculateVideoMetadata
    (audioDuration : string -> completion Num.number) (props : VideoProps)
  : Num.jsint :=
  let durationInFrames := DEFAULT_DURATION_FRAMES in
  let durationInFrames :=
    fromAudio audioDuration (narrationPath props) durationInFrames in
  let durationInFrames :=
    if isDefault durationInFrames
    then fromAudio audioDuration (musicPath props) durationInFrames
    else durationInFrames in
  if isDefault durationInFrames then
    match duration props with
    | Some d => if truthyNumber d then framesOf d else durationInFrames
    | None => durationInFrames
    end
  else durationInFrames.

(* ================================================================= *)
(** ** Vocabulary of the further properties *)

(** The weighted sum [299 r + 587 g + 114 b], a thousand times the
    luminance. *)
Definition luma (r g b : Z) : Z := 299 * r + 587 * g + 114 * b.

(** The theme of a colour with the given channels. *)
Definition themeOf (r g b : Z) : Theme :=
  if 128000 <? luma r g b then light else dark.

(** The bytes [r], [g] whose weighted sum reaches 128000 exactly with some
    byte [b] do not make the computed luminance exceed 128. *)
Definition tieOk (r g : Z) : bool :=
  let rest := 128000 - 299 * r - 587 * g in
  if (0 <=? rest) && (rest mod 114 =? 0) && (rest / 114 <? 256)
  then negb (Num.gtb (luminance r g (rest / 114)) (Num.lit 128 1))
  else true.

Definition bytes : list Z := map Z.of_nat (seq 0 256).

(** The labels [inferIndustry] can answer with. *)
Definition industryLabels : list string :=
  [ "tech"; "finance"; "healthcare"; "ecommerce"; "education"; "marketing";
    "gaming"; "general" ].

(** The keywords of the first industry of the table. *)
Definition techKeywords : list string :=
  [ "software"; "app"; "platform"; "cloud"; "saas"; "api"; "developer";
    "documentation"; "framework"; "library"; "tutorial" ].

(** The number [k / 2]. *)
Definition half (k : nat) : Num.number := Num.Fin (Qred (Z.of_nat k # 2)).

(** The sum of the time-outs of a list of probes, in milliseconds. *)
Definition totalTimeout (log : list (string * Z)) : Z :=
  fold_right (fun p acc => snd p + acc) 0 log.

(** A field that holds a canonical colour. *)
Definition isCanonicalValue (v : value) : bool :=
  match v with
  | VStr h => isCanonical h
  | _ => false
  end.

(** A palette whose four fields are canonical colours. *)
Definition canonicalPalette (c : BrandColors) : bool :=
  isCanonicalValue (primary c) && isCanonicalValue (secondary c)
  && isCanonicalValue (accent c) && isCanonicalValue (background c).

(** A CSS signal that is absent or the text of a valid colour. *)
Definition validSignal (v : value) : Prop :=
  truthy v = false \/ exists s, v = VStr s /\ validColor (Str.trim s).

(** The two digits [twoHex] writes read back as the byte. *)
Definition readsBack (n : Z) : bool :=
  match twoHex n with
  | String hi (String lo EmptyString) => byteOf hi lo =? n
  | _ => false
  end.

(* ================================================================= *)
(** ** The conversion from HSL in exact arithmetic *)

Open Scope Q_scope.

(** [a < b] on rationals. *)
Definition Qlt_bool (a b : Q) : bool := negb (Qle_bool b a).

(** The closure [hue2rgb] with its operations taken exactly. *)
Definition hue2rgbQ (p q t : Q) : Q :=
  let t := if Qlt_bool t 0 then t + 1 else t in
  let t := if Qlt_bool 1 t then t - 1 else t in
  if Qlt_bool t (1 # 6) then p + (q - p) * 6 * t
  else if Qlt_bool t (1 # 2) then q
  else if Qlt_bool t (2 # 3) then p + (q - p) * ((2 # 3) - t) * 6
  else p.

(** The three channels [hslToHex] scales to bytes, with its operations
    taken exactly. *)
Definition hslToRgbQ (h s l : Q) : Q * Q * Q :=
  if Qeq_bool s 0 then (l, l, l)
  else
    let q := if Qlt_bool l (1 # 2) then l * (1 + s) else l + s - l * s in
    let p := 2 * l - q in
    (hue2rgbQ p q (h + (1 # 3)), hue2rgbQ p q h, hue2rgbQ p q (h - (1 # 3))).

(** [q] of [hslToHex] with its operations taken exactly. *)
Definition qQ (s l : Q) : Q :=
  if Qlt_bool l (1 # 2) then l * (1 + s) else l + s - l * s.

(** [t] after the two adjustments of [hue2rgb]. *)
Definition wrapQ (t : Q) : Q :=
  let t := if Qlt_bool t 0 then t + 1 else t in
  if Qlt_bool 1 t then t - 1 else t.

(** The share of [q] in the result of [hue2rgb] at the adjusted [t]. *)
Definition ramp (u : Q) : Q :=
  if Qlt_bool u (1 # 6) then 6 * u
  else if Qlt_bool u (1 # 2) then 1
  else if Qlt_bool u (2 # 3) then ((2 # 3) - u) * 6
  else 0.

(** [n] is the byte of the channel [c]: the nearest integer to [255 c], up
    to 10^-7. *)
Definition byteOfChannel (c : Q) (n : Z) : Prop :=
  (0 <= n < 256)%Z
  /\ 255 * c - (1 # 2) - (1 # 10000000) <= inject_Z n
  /\ inject_Z n <= 255 * c + (1 # 2) + (1 # 10000000).

(** The bytes of three channels. *)
Definition bytesOfChannels (c : Q * Q * Q) (nr ng nb : Z) : Prop :=
  let '(r, g, b) := c in
  byteOfChannel r nr /\ byteOfChannel g ng /\ byteOfChannel b nb.

Close Scope Q_scope.

(** The keywords of the industries [inferIndustry] tries before
    [ecommerce]. *)
Definition earlierKeywords : list string :=
  flat_map snd (firstn 3 industries).

Definition notSpace (c : ascii) : bool := negb (Ascii.eqb c " ").

(** The words of the placeholder description around the domain. *)
Definition placeholderWords : list string :=
  [ "discover"; "-"; "your"; "solution"; "for"; "better"; "productivity" ].

(** A keyword that holds no space and occurs in none of the words. *)
Definition keywordApart (k : string) : bool :=
  allChars notSpace k
  && forallb (fun w => negb (includes w k)) placeholderWords.

(* ================================================================= *)
(** ** [tools/extract-docs.ts]: the markdown read in the page *)

(** An element of the page as [processNode] reads it: its [tagName], its
    [textContent], its [class] attribute ([None] without one) and its
    element children. *)
Unset Elimination Schemes.

Inductive Element :=
| mkElement (tagName textContent : string) (className : option string)
            (children : list Element).

Set Elimination Schemes.

Definition newline : ascii := ascii_of_nat 10.

Definition nl : string := String newline EmptyString.

(** [\w] *)
Definition isWordChar (c : ascii) : bool :=
  let n := Str.code c in
  ((97 <=? n) && (n <=? 122)) || ((65 <=? n) && (n <=? 90))
  || ((48 <=? n) && (n <=? 57)) || (n =? 95).

(** [/language-(\w+)/] at the head of [s]: the group. *)
Definition languageAt (s : string) : option string :=
  match Regex.expect "language-" s with
  | Some r =>
      match Regex.many1 isWordChar r with
      | Some (w, _) => Some w
      | None => None
      end
  | None => None
  end.

(** [node.getAttribute('class')?.match(/language-(\w+)/)?.[1] || ''] *)
Definition languageOf (className : option string) : string :=
  match className with
  | Some c =>
      match Regex.search languageAt c with
      | Some w => w
      | None => EmptyString
      end
  | None => EmptyString
  end.

Definition skipped : list string :=
  [ "nav"; "footer"; "aside"; "header"; "script"; "style" ].

Definition fence : string := "```".

(** The closure [processNode] of [extractMarkdownWithPlaywright], with the
    lines it pushes as its result; [parent] is the lower-cased [tagName] of
    [node.parentElement], [None] without a parent. *)
Fixpoint processNode (parent : option string) (node : Element) : list string :=
  match node with
  | mkElement tagName textContent className children =>
      let tag := Str.toLowerCase tagName in
      let text := Str.trim textContent in
      if existsb (String.eqb tag) skipped then []
      else if String.eqb tag "h1" then ["# " ++ text]
      else if String.eqb tag "h2" then [nl ++ "## " ++ text]
      else if String.eqb tag "h3" then [nl ++ "### " ++ text]
      else if String.eqb tag "h4" then [nl ++ "#### " ++ text]
      else if String.eqb tag "p" then [nl ++ text]
      else if (String.eqb tag "pre") || (String.eqb tag "code") then
        if negb (Str.isEmpty text) && (10 <? String.length text)%nat
        then [nl ++ fence ++ languageOf className ++ nl ++ text ++ nl ++ fence]
        else []
      else if String.eqb tag "li" then
        let prefix :=
          match parent with
          | Some p => if String.eqb p "ol" then "1." else "-"
          | None => "-"
          end in
        [prefix ++ " " ++ text]
      else if String.eqb tag "blockquote" then [nl ++ "> " ++ text]
      else flat_map (processNode (Some tag)) children
  end.

(** [lines.join(sep)] *)
Fixpoint joinWith (sep : string) (lines : list string) : string :=
  match lines with
  | [] => EmptyString
  | [l] => l
  | l :: rest => l ++ sep ++ joinWith sep rest
  end.

(** The callback of [page.evaluate] in [extractMarkdownWithPlaywright] on
    the element [mainContent]. *)
Definition pageMarkdown (parent : option string) (mainContent : Element)
  : string :=
  joinWith nl (processNode parent mainContent).

(** *** Vocabulary *)




Definition noNewline (t : string) : bool :=
  allChars (fun c => negb (Ascii.eqb c newline)) t.





(* ================================================================= *)
(** ** [tools/extract-docs.ts]: [extractDocsContent] *)

(** [branding.logo.url] *)
Definition logoUrl (branding : BrandingResult) : string := url (logo branding).

Module DocsTool.

Inductive ExtractionMethod :=
  tabstackMarkdown | tabstackJson | playwrightFallback.

(** The collaborators of [extractDocsContent] besides those of the
    branding: the outcome of [extractMarkdownWithTabstack]; the outcome of
    the browser steps of [extractMarkdownWithPlaywright] up to the choice of
    [mainContent], which give the lower-cased tag of the parent of that
    element and the element; the outcome of [extractMetadataWithTabstack]. *)
Record Sources := mkSources {
  tabstackMarkdownOf : completion string;
  mainContentOf : completion (option string * Element);
  tabstackMetadataOf : completion Meta.DocsMetadata
}.

(** The result; [staticPath] is [branding.logo.staticPath], [None] when the
    property is not set. *)
Record DocsExtractedContent := mkContent {
  markdown : string;
  metadata : Meta.DocsMetadata;
  branding : BrandingResult;
  staticPath : option string;
  domain : string;
  extractionMethod : ExtractionMethod
}.

(** [extractMarkdownWithPlaywright(url, warnings)] *)
Definition extractMarkdownWithPlaywright (src : Sources) : M string :=
  found <- lift (mainContentOf src);;
  _ <- warn ("Markdown extracted via Playwright DOM parsing. "
             ++ "Code block language hints may be missing.");;
  ret (pageMarkdown (fst found) (snd found)).

(** The markdown of the last resort. *)
Definition stubMarkdown (domain : string) : string :=
  "# " ++ domain ++ nl ++ nl
    ++ "Content could not be extracted. "
    ++ "Please provide the documentation content manually.".

(** Phase 1: the markdown and the extraction method. *)
Definition extractMarkdown (src : Sources) (domain : string)
  : M (string * ExtractionMethod) :=
  try_catch
    (markdown <- lift (tabstackMarkdownOf src);;
     ret (markdown, tabstackMarkdown))
    (fun error =>
       _ <- warn ("Tabstack markdown extraction failed: "
                  ++ errorMessage error);;
       try_catch
         (markdown <- extractMarkdownWithPlaywright src;;
          ret (markdown, playwrightFallback))
         (fun pwError =>
            _ <- warn ("Playwright markdown fallback failed: "
                       ++ errorMessage pwError);;
            ret (stubMarkdown domain, tabstackMarkdown))).

(** Phase 2: the metadata. *)
Definition extractMetadata (src : Sources) (markdown domain : string)
  : M Meta.DocsMetadata :=
  try_catch (lift (tabstackMetadataOf src))
    (fun error =>
       _ <- warn ("Tabstack metadata extraction failed: "
                  ++ errorMessage error ++ ". Using inferred metadata.");;
       ret (Meta.inferMetadataFromMarkdown markdown domain)).

(** [extractDocsContent(url, remotionProjectPath)]; [domain] is
    [new URL(url).hostname]. *)
Definition extractDocsContent (w : World) (src : Sources) (fs : Files)
                              (url domain : string)
  : M DocsExtractedContent :=
  phase1 <- extractMarkdown src domain;;
  metadata <- extractMetadata src (fst phase1) domain;;
  branding <- Docs.extractDocsBranding w url domain;;
  let logoStaticPath :=
    downloadLogoToPublic fs (logoUrl branding) domain in
  staticPath <-
    (if negb (Str.isEmpty logoStaticPath) then ret (Some logoStaticPath)
     else
       _ <- warn ("Logo download failed. "
                  ++ "Use branding.logo.url as fallback in Generated.tsx.");;
       ret None);;
  ret (mkContent (fst phase1) metadata branding staticPath domain
                 (snd phase1)).

End DocsTool.

(** *** Vocabulary *)

(** The words [inferMetadataFromMarkdown] looks for. *)
Definition metadataKeywords : list string :=
  (flat_map snd Meta.techMap
   ++ [ "quickstart"; "getting started"; "quick start"; "tutorial";
        "step by step"; "walkthrough"; "api reference"; "endpoints"; "api/";
        "how to"; "how-to"; "beginner"; "introduction"; "advanced";
        "optimization"; "best practices" ])%list.

(** The lower-cased stub after the host name. *)
Definition stubTail : string :=
  nl ++ "content could not be extracted. "
     ++ "please provide the documentation content manually.".

(** A word that holds no line break, does not begin with [#] or a space,
    and does not occur in the text of the stub. *)
Definition keywordFits (k : string) : bool :=
  noNewline k
  && negb (headIs (fun c => Ascii.eqb c "#" || Ascii.eqb c " ") k)
  && negb (Str.isEmpty k)
  && negb (includes stubTail k).

(* ================================================================= *)
(** ** [utils/beats.ts]: [detectBeats] *)

(** One [try] block of [detectBeats]: the beats of the tool when it
    returns some, else what follows the block. *)
Definition tryBeats (tool : completion (list Num.number))
                    (next : option (list Num.number))
  : option (list Num.number) :=
  match tool with
  | Normal beats => if (0 <? List.length beats)%nat then Some beats else next
  | Throw _ => next
  end.

(** [detectBeats(audioPath, duration = 60)]; [aubio] and [ffmpeg] are the
    outcomes of [detectBeatsWithAubio] and [detectBeatsWithFFmpeg], and
    [duration] is [None] when the argument is left out. *)
Definition detectBeats (aubio ffmpeg : completion (list Num.number))
                       (fuel : nat) (duration : option Num.number)
  : option (list Num.number) :=
  let duration :=
    match duration with
    | Some d => d
    | None => Num.lit 60 1
    end in
  tryBeats aubio
    (tryBeats ffmpeg (generateHeuristicBeats fuel (Num.lit 120 1) duration)).

(** A tool that gives no beat. *)
Definition silent (tool : completion (list Num.number)) : bool :=
  match tool with
  | Normal beats => negb (0 <? List.length beats)%nat
  | Throw _ => true
  end.

(* ================================================================= *)
(** * Properties *)

(** ** Strings *)

Lemma substring_firstChars (n : nat) (s : string) :
  String.substring 0 n s = firstChars n s.
Proof.
  revert s; induction n as [|n IH]; intros [|c r]; simpl; try reflexivity.
  now rewrite IH.
Qed.

Lemma slice_from_0 (s : string) (n : nat) : Str.slice s 0 n = firstChars n s.
Proof.
  unfold Str.slice. rewrite Nat.sub_0_r. apply substring_firstChars.
Qed.

Lemma trimStart_nonempty_input (s : string) :
  Str.trimStart s <> EmptyString -> s <> EmptyString.
Proof. intros H ->. now apply H. Qed.

Lemma startsWith_hash (s : string) :
  Str.startsWith s "#" = true -> exists r, s = String "#" r.
Proof.
  unfold Str.startsWith. intros H. apply String.prefix_correct in H.
  destruct s as [|c r]; simpl in H; [discriminate|].
  destruct r; injection H as ->; eexists; reflexivity.
Qed.

Lemma trim_hash_nonempty (color : string) :
  Str.startsWith (Str.trim color) "#" = true -> Str.isEmpty color = false.
Proof.
  destruct color; [discriminate | reflexivity].
Qed.

(** ** C10: strings that begin with [#] are passed through *)

(** C10.  When the trimmed input begins with [#], [rgbaToHex] returns its
    first seven characters if its length is not 4, and the [#] followed by
    each of the next three characters twice if its length is 4; no
    character is validated and no case is folded. *)
Theorem rgbaToHex_hash_passthrough (color : string) :
  Str.startsWith (Str.trim color) "#" = true ->
  (String.length (Str.trim color) <> 4%nat ->
   rgbaToHex (VStr color) = VStr (firstChars 7 (Str.trim color)))
  /\ (String.length (Str.trim color) = 4%nat ->
      rgbaToHex (VStr color) = VStr (doubled (Str.trim color))).
Proof.
  intros H. unfold rgbaToHex.
  rewrite (trim_hash_nonempty _ H), H. split; intros L.
  - apply Nat.eqb_neq in L. rewrite L. now rewrite slice_from_0.
  - rewrite L. simpl Nat.eqb. cbv iota.
    apply startsWith_hash in H. destruct H as [t E]. rewrite E in *.
    destruct t as [|r [|g [|b [|x t]]]]; try discriminate L.
    reflexivity.
Qed.

Lemma rgbaToHex_hash_passthrough_witness :
  rgbaToHex (VStr "#FF6600") = VStr "#FF6600"
  /\ rgbaToHex (VStr "#zzzzzz") = VStr "#zzzzzz"
  /\ rgbaToHex (VStr "  #FF6600AA ") = VStr "#FF6600"
  /\ rgbaToHex (VStr "#a!c") = VStr "#aa!!cc".
Proof.
  split; [|split; [|split]].
  - apply (proj1 (rgbaToHex_hash_passthrough "#FF6600" eq_refl)). discriminate.
  - apply (proj1 (rgbaToHex_hash_passthrough "#zzzzzz" eq_refl)). discriminate.
  - apply (proj1 (rgbaToHex_hash_passthrough "  #FF6600AA " eq_refl)).
    discriminate.
  - apply (proj2 (rgbaToHex_hash_passthrough "#a!c" eq_refl)). reflexivity.
Defined.

(** ** C2: the inputs without a branch map to the sentinel *)

Lemma lowerChar_not_upper (c : ascii) : isUpper (Str.lowerChar c) = false.
Proof.
  destruct c as [[] [] [] [] [] [] [] []]; reflexivity.
Qed.

Lemma toLowerCase_not_upper (s : string) :
  allChars (fun c => negb (isUpper c)) (Str.toLowerCase s) = true.
Proof.
  induction s as [|c r IH]; simpl; [reflexivity|].
  now rewrite lowerChar_not_upper, IH.
Qed.

Lemma assoc_absent (k : string) (l : list (string * string)) :
  existsb (String.eqb k) (map fst l) = false -> assoc k l = None.
Proof.
  induction l as [|[k' v] l IH]; simpl; [reflexivity|].
  destruct (String.eqb k k'); [discriminate|]. exact IH.
Qed.

Lemma inherited_lower (t : string) :
  existsb (String.eqb (Str.toLowerCase t)) objectPrototypeKeys = true ->
  String.eqb (Str.toLowerCase t) "constructor"
  || String.eqb (Str.toLowerCase t) "__proto__" = true.
Proof.
  pose proof (toLowerCase_not_upper t) as U.
  unfold objectPrototypeKeys, existsb.
  repeat match goal with
         | |- context [String.eqb (Str.toLowerCase t) ?k] =>
             destruct (String.eqb_spec (Str.toLowerCase t) k) as [E|_];
             [ try (rewrite E in U; discriminate U) | ]
         end;
    try reflexivity; try discriminate;
    simpl; intros; try reflexivity; try discriminate.
Qed.

Lemma named_lookup_absent (t : string) :
  isNamedOrInherited (Str.toLowerCase t) = false ->
  truthy (getProperty namedColors (Str.toLowerCase t)) = false.
Proof.
  unfold isNamedOrInherited. intros H.
  apply orb_false_iff in H. destruct H as [H P].
  apply orb_false_iff in H. destruct H as [N C].
  unfold getProperty. rewrite (assoc_absent _ _ N).
  destruct (existsb _ objectPrototypeKeys) eqn:E; [|reflexivity].
  apply inherited_lower in E. rewrite C, P in E. discriminate.
Qed.

(** C2, as amended.  [rgbaToHex] is total, and on every input it has no
    branch for (a missing value, the empty string, a string that neither
    begins with [#] nor matches the [rgb]/[hsl] patterns nor names a
    property of the table) it returns the sentinel [#0066FF]. *)
Theorem rgbaToHex_unsupported_default (v : value) :
  unsupported v = true -> rgbaToHex v = VStr "#0066FF".
Proof.
  destruct v as [| |s|n]; try reflexivity.
  unfold unsupported, rgbaToHex. intros H.
  destruct (Str.isEmpty s); [reflexivity|]. simpl in H.
  destruct (Str.startsWith (Str.trim s) "#"); [discriminate|].
  destruct (Regex.rgbMatch (Str.trim s)); [discriminate|].
  destruct (Regex.hslMatch (Str.trim s)); [discriminate|].
  simpl in H. apply negb_true_iff in H.
  now rewrite (named_lookup_absent _ H).
Qed.

Lemma rgbaToHex_unsupported_default_witness :
  rgbaToHex VUndefined = VStr "#0066FF"
  /\ rgbaToHex VNull = VStr "#0066FF"
  /\ rgbaToHex (VStr EmptyString) = VStr "#0066FF"
  /\ rgbaToHex (VStr "oklch(0.7 0.15 200)") = VStr "#0066FF"
  /\ rgbaToHex (VStr "lab(50% 40 60)") = VStr "#0066FF"
  /\ rgbaToHex (VStr "not-a-color") = VStr "#0066FF".
Proof.
  split; [|split; [|split; [|split; [|split]]]];
    apply rgbaToHex_unsupported_default; reflexivity.
Defined.

(** C2 as stated fails: a string that begins with [#] is returned as it
    is, whatever follows the [#]; and a name inherited from
    [Object.prototype] is answered with the inherited member. *)
Lemma rgbaToHex_garbage_counterexample :
  isHexColor "#zzzzzz" = false
  /\ rgbaToHex (VStr "#zzzzzz") = VStr "#zzzzzz"
  /\ rgbaToHex (VStr "#zzzzzz") <> VStr "#0066FF"
  /\ rgbaToHex (VStr "constructor") <> VStr "#0066FF".
Proof.
  repeat split; try reflexivity; discriminate.
Qed.

(** ** C5: [darkenHex] on malformed input *)

(** C5 fails on the code.  [parseInt] reads the longest valid prefix of each
    pair of characters, so a pair with a valid first digit passes the
    [isNaN] test: the malformed [#1g2h3i] is darkened as [#010203] instead
    of being answered with the sentinel [#003D99]. *)
Theorem darkenHex_partial_pair :
  isCanonical "#1g2h3i" = false
  /\ darkenHex (VStr "#1g2h3i") (Num.lit 1 1) = Normal "#010203"
  /\ darkenHex (VStr "#1g2h3i") (Num.lit 6 10) = Normal "#010102"
  /\ darkenHex (VStr "not-hex") (Num.lit 5 10) = Normal "#003D99"
  /\ darkenHex (VStr "#abc") (Num.lit 5 10) = Normal "#003D99"
  /\ "#003D99" <> "#0066FF".
Proof.
  repeat split; try (vm_compute; reflexivity). discriminate.
Qed.

(** ** C8: [detectTheme] on a malformed background *)

(** C8 fails on the code.  [parseInt] reads the valid prefix [00000] of the
    malformed background [#00000g]: the result is not NaN, the luminance is
    0 and the theme is dark, where the claim asks for light. *)
Theorem detectTheme_partial_hex :
  isCanonical "#00000g" = false
  /\ detectTheme (mkColors (VStr "#0066FF") (VStr "#003D99") (VStr "#66B3FF")
                           (VStr "#00000g")) = Normal dark
  /\ detectTheme (mkColors (VStr "#0066FF") (VStr "#003D99") (VStr "#66B3FF")
                           (VStr "not-a-color")) = Normal light
  /\ detectTheme (mkColors (VStr "#0066FF") (VStr "#003D99") (VStr "#66B3FF")
                           (VStr "#FFFFFF")) = Normal light
  /\ detectTheme (mkColors (VStr "#0066FF") (VStr "#003D99") (VStr "#66B3FF")
                           (VStr "#1A1A1A")) = Normal dark.
Proof.
  repeat split; vm_compute; reflexivity.
Qed.

(** ** C3: the logo resolver *)

Lemma tryPaths_miss (w : World) (paths : list string) :
  forall st,
    (forall k, (k < List.length paths)%nat ->
       is200 (head w (List.length (probes st) + k) (nth k paths EmptyString) 3000)
       = false) ->
    tryPaths w paths st
    = (Normal None,
       mkState (probes st ++ map (fun p => (p, 3000)) paths) (warnings st)).
Proof.
  induction paths as [|p rest IH]; intros st H; simpl.
  - unfold ret. rewrite app_nil_r. now destruct st.
  - unfold mbind, probe.
    pose proof (H 0%nat (Nat.lt_0_succ _)) as H0.
    rewrite Nat.add_0_r in H0. simpl in H0. rewrite H0.
    rewrite IH; simpl.
    + now rewrite <- app_assoc.
    + intros k Hk. rewrite length_app. simpl.
      specialize (H (S k) (proj1 (Nat.succ_lt_mono _ _) Hk)). simpl in H.
      now replace (List.length (probes st) + 1 + k)%nat
        with (List.length (probes st) + S k)%nat by lia.
Qed.

Lemma tryPaths_hit (w : World) (paths : list string) :
  forall st k,
    (k < List.length paths)%nat ->
    (forall j, (j < k)%nat ->
       is200 (head w (List.length (probes st) + j) (nth j paths EmptyString) 3000)
       = false) ->
    is200 (head w (List.length (probes st) + k) (nth k paths EmptyString) 3000)
    = true ->
    tryPaths w paths st
    = (Normal (Some (mkLogo (nth k paths EmptyString) medium)),
       mkState (probes st ++ map (fun p => (p, 3000)) (firstn (S k) paths))
               (warnings st)).
Proof.
  induction paths as [|p rest IH]; intros st k Hk Hmiss Hhit; simpl in Hk.
  - lia.
  - simpl tryPaths. unfold mbind, probe. destruct k as [|k].
    + rewrite Nat.add_0_r in Hhit. simpl in Hhit. rewrite Hhit. reflexivity.
    + pose proof (Hmiss 0%nat (Nat.lt_0_succ _)) as H0.
      rewrite Nat.add_0_r in H0. simpl in H0. rewrite H0.
      rewrite (IH _ k); simpl.
      * now rewrite <- app_assoc.
      * lia.
      * intros j Hj. rewrite length_app. simpl.
        specialize (Hmiss (S j) (proj1 (Nat.succ_lt_mono _ _) Hj)).
        simpl in Hmiss.
        now replace (List.length (probes st) + 1 + j)%nat
          with (List.length (probes st) + S j)%nat by lia.
      * rewrite length_app. simpl.
        now replace (List.length (probes st) + 1 + k)%nat
          with (List.length (probes st) + S k)%nat by lia.
Qed.

(** The tiers of the resolver in closed form. *)
Lemma extractLogoFromCloud_cases
    (w : World) (domain fullUrl : string) (st : state) :
  let n := List.length (probes st) in
  let brand := head w n (clearbitUrl domain) 5000 in
  (is200 brand = true ->
   extractLogoFromCloud w domain fullUrl st
   = (Normal (mkLogo (clearbitUrl domain) high),
      mkState (probes st ++ [(clearbitUrl domain, 5000)]) (warnings st)))
  /\ (forall org,
        is200 brand = false ->
        origin w fullUrl = Some org ->
        (exists r st',
           extractLogoFromCloud w domain fullUrl st = (Normal r, st'))
        /\ (forall k,
              (k < 6)%nat ->
              (forall j, (j < k)%nat -> is200 (pathOutcome w n org j) = false) ->
              is200 (pathOutcome w n org k) = true ->
              extractLogoFromCloud w domain fullUrl st
              = (Normal (mkLogo (nth k (commonPaths org) EmptyString) medium),
                 mkState (probesAfter st domain org (S k)) (warnings st)))
        /\ ((forall k, (k < 6)%nat -> is200 (pathOutcome w n org k) = false) ->
            extractLogoFromCloud w domain fullUrl st
            = (Normal (mkLogo (faviconUrl domain) favicon),
               mkState (probesAfter st domain org 6)
                       (warnings st ++ [faviconWarning domain])))).
Proof.
  intros n brand. unfold extractLogoFromCloud, mbind.
  unfold probe. cbv beta iota. fold n. fold brand. clearbody brand.
  split.
  - intros ->. reflexivity.
  - intros org -> ->.
    set (st1 := mkState (probes st ++ [(clearbitUrl domain, 5000)]) (warnings st)).
    assert (L : List.length (probes st1) = (n + 1)%nat).
    { unfold st1. simpl. rewrite length_app. reflexivity. }
    assert (Hit : forall k,
              (k < 6)%nat ->
              (forall j, (j < k)%nat -> is200 (pathOutcome w n org j) = false) ->
              is200 (pathOutcome w n org k) = true ->
              tryPaths w (commonPaths org) st1
              = (Normal (Some (mkLogo (nth k (commonPaths org) EmptyString) medium)),
                 mkState (probesAfter st domain org (S k)) (warnings st))).
    { intros k Hk Hmiss Hhit.
      rewrite (tryPaths_hit w (commonPaths org) st1 k).
      - unfold probesAfter, st1. cbn [probes warnings].
        now rewrite <- app_assoc.
      - exact Hk.
      - intros j Hj. rewrite L. now apply Hmiss.
      - rewrite L. exact Hhit. }
    assert (Miss : (forall k, (k < 6)%nat -> is200 (pathOutcome w n org k) = false) ->
              tryPaths w (commonPaths org) st1
              = (Normal None,
                 mkState (probesAfter st domain org 6) (warnings st))).
    { intros Hmiss.
      rewrite (tryPaths_miss w (commonPaths org) st1).
      - unfold probesAfter, st1. cbn [probes warnings].
        now rewrite <- app_assoc.
      - intros k Hk. rewrite L. now apply Hmiss. }
    split; [|split].
    + assert (D : (exists k, (k < 6)%nat
                     /\ (forall j, (j < k)%nat -> is200 (pathOutcome w n org j) = false)
                     /\ is200 (pathOutcome w n org k) = true)
                  \/ (forall k, (k < 6)%nat -> is200 (pathOutcome w n org k) = false)).
      { destruct (is200 (pathOutcome w n org 0)) eqn:E0;
          [left; exists 0%nat; repeat split; [lia | intros; lia | exact E0]|].
        destruct (is200 (pathOutcome w n org 1)) eqn:E1;
          [left; exists 1%nat; repeat split; [lia | | exact E1];
           intros j Hj; assert (j = 0)%nat as -> by lia; assumption|].
        destruct (is200 (pathOutcome w n org 2)) eqn:E2;
          [left; exists 2%nat; repeat split; [lia | | exact E2];
           intros [|[|j]] Hj; try assumption; lia|].
        destruct (is200 (pathOutcome w n org 3)) eqn:E3;
          [left; exists 3%nat; repeat split; [lia | | exact E3];
           intros [|[|[|j]]] Hj; try assumption; lia|].
        destruct (is200 (pathOutcome w n org 4)) eqn:E4;
          [left; exists 4%nat; repeat split; [lia | | exact E4];
           intros [|[|[|[|j]]]] Hj; try assumption; lia|].
        destruct (is200 (pathOutcome w n org 5)) eqn:E5;
          [left; exists 5%nat; repeat split; [lia | | exact E5];
           intros [|[|[|[|[|j]]]]] Hj; try assumption; lia|].
        right. intros [|[|[|[|[|[|k]]]]]] Hk; try assumption; lia. }
      destruct D as [(k & Hk & Hmiss & Hhit)|Hmiss].
      * rewrite (Hit k Hk Hmiss Hhit). eexists; eexists; reflexivity.
      * rewrite (Miss Hmiss). eexists; eexists; reflexivity.
    + intros k Hk Hmiss Hhit. now rewrite (Hit k Hk Hmiss Hhit).
    + intros Hmiss. now rewrite (Miss Hmiss).
Qed.

(** C3, as amended.  For a page URL that parses, the resolver ends with
    one [LogoResult] and does not fail.  A brand-API response 200 gives
    that URL with quality [high] after a single probe, whatever the page
    URL.  Otherwise the first of the six common paths (in list order)
    answered with 200 gives quality [medium], the later paths not being
    probed; and when all seven probes fail the favicon URL of the domain
    is returned with quality [favicon] and one warning is appended. *)
Theorem extractLogoFromCloud_tiers
    (w : World) (domain fullUrl : string) (st : state) :
  let n := List.length (probes st) in
  let brandUrl := "https://logo.clearbit.com/" ++ domain in
  let brand := head w n brandUrl 5000 in
  (is200 brand = true ->
   extractLogoFromCloud w domain fullUrl st
   = (Normal (mkLogo brandUrl high),
      mkState (probes st ++ [(brandUrl, 5000)]) (warnings st)))
  /\ (forall org,
        is200 brand = false ->
        origin w fullUrl = Some org ->
        let paths :=
          [ org ++ "/logo.svg"; org ++ "/logo.png";
            org ++ "/assets/logo.svg"; org ++ "/assets/logo.png";
            org ++ "/images/logo.svg"; org ++ "/images/logo.png" ] in
        let outcome k := head w (n + 1 + k) (nth k paths EmptyString) 3000 in
        let probed k :=
          (probes st
           ++ (brandUrl, 5000) :: map (fun p => (p, 3000)) (firstn k paths))%list in
        (exists r st',
           extractLogoFromCloud w domain fullUrl st = (Normal r, st'))
        /\ (forall k,
              (k < 6)%nat ->
              (forall j, (j < k)%nat -> is200 (outcome j) = false) ->
              is200 (outcome k) = true ->
              extractLogoFromCloud w domain fullUrl st
              = (Normal (mkLogo (nth k paths EmptyString) medium),
                 mkState (probed (S k)) (warnings st)))
        /\ ((forall k, (k < 6)%nat -> is200 (outcome k) = false) ->
            extractLogoFromCloud w domain fullUrl st
            = (Normal (mkLogo ("https://www.google.com/s2/favicons?domain="
                               ++ domain ++ "&sz=256") favicon),
               mkState (probed 6%nat)
                       (warnings st
                        ++ [ "No high-quality logo found for " ++ domain
                             ++ ". Using Google favicon (256px)." ])))).
Proof.
  cbv zeta.
  destruct (extractLogoFromCloud_cases w domain fullUrl st) as [Brand Paths].
  split; [exact Brand|].
  intros org B O. destruct (Paths org B O) as (Returns & Hit & Miss).
  split; [exact Returns|]. split; [exact Hit|exact Miss].
Qed.

Lemma extractLogoFromCloud_tiers_witness :
  let run w := extractLogoFromCloud w "example.com" "https://example.com/docs"
                 freshState in
  run (answering 0)
  = (Normal (mkLogo "https://logo.clearbit.com/example.com" high),
     mkState [("https://logo.clearbit.com/example.com", 5000)] [])
  /\ run (answering 2)
     = (Normal (mkLogo "https://example.com/logo.png" medium),
        mkState [("https://logo.clearbit.com/example.com", 5000);
                 ("https://example.com/logo.svg", 3000);
                 ("https://example.com/logo.png", 3000)] [])
  /\ run offline
     = (Normal (mkLogo "https://www.google.com/s2/favicons?domain=example.com&sz=256"
                       favicon),
        mkState [("https://logo.clearbit.com/example.com", 5000);
                 ("https://example.com/logo.svg", 3000);
                 ("https://example.com/logo.png", 3000);
                 ("https://example.com/assets/logo.svg", 3000);
                 ("https://example.com/assets/logo.png", 3000);
                 ("https://example.com/images/logo.svg", 3000);
                 ("https://example.com/images/logo.png", 3000)]
                [ "No high-quality logo found for example.com. Using Google favicon (256px)." ]).
Proof.
  split; [|split].
  - apply (proj1 (extractLogoFromCloud_tiers (answering 0) "example.com"
                    "https://example.com/docs" freshState)).
    reflexivity.
  - apply (proj1 (proj2 (proj2 (extractLogoFromCloud_tiers (answering 2)
                    "example.com" "https://example.com/docs" freshState)
                    "https://example.com" eq_refl eq_refl)) 1%nat).
    + lia.
    + intros [|j] Hj; [reflexivity | lia].
    + reflexivity.
  - apply (proj2 (proj2 (proj2 (extractLogoFromCloud_tiers offline
                    "example.com" "https://example.com/docs" freshState)
                    "https://example.com" eq_refl eq_refl))).
    intros k _. reflexivity.
Defined.

(** C3 as stated fails for a page URL that does not parse: [new
    URL(fullUrl)] stands outside every [try], so when the brand API gives
    no logo the resolver raises instead of ending with a [LogoResult]. *)
Lemma extractLogoFromCloud_unparsable_counterexample :
  extractLogoFromCloud unparsable "example.com" "example.com/docs" freshState
  = (Throw (TypeError "Invalid URL"),
     mkState [("https://logo.clearbit.com/example.com", 5000)] [])
  /\ ~ (exists r st',
          extractLogoFromCloud unparsable "example.com" "example.com/docs"
            freshState = (Normal r, st')).
Proof.
  split; [reflexivity|]. intros (r & st' & H). discriminate H.
Qed.

(** ** The refinement of the palette *)

Lemma rgbaToHex_shape (v : value) :
  (exists s, rgbaToHex v = VStr s) \/ (exists n, rgbaToHex v = VBuiltin n).
Proof.
  destruct v as [| |s|n]; try (left; eexists; reflexivity).
  unfold rgbaToHex.
  destruct (Str.isEmpty s); [left; eexists; reflexivity|].
  destruct (Str.startsWith _ _).
  { destruct (_ =? _)%nat; left; eexists; reflexivity. }
  destruct (Regex.rgbMatch _) as [[[r g] b]|]; [left; eexists; reflexivity|].
  destruct (Regex.hslMatch _) as [[[h sa] l]|]; [left; eexists; reflexivity|].
  unfold getProperty.
  destruct (assoc _ _); [destruct (truthy _); left; eexists; reflexivity|].
  destruct (existsb _ _); [right|left]; eexists; reflexivity.
Qed.

Lemma darkenHex_string (s : string) (k : Num.number) :
  exists h, darkenHex (VStr s) k = Normal h.
Proof.
  unfold darkenHex.
  destruct (_ || _); [eexists; reflexivity|].
  destruct (_ || _); eexists; reflexivity.
Qed.

(** [Docs.overrideColors] in closed form. *)
Lemma overrideColors_cases (colors : BrandColors) (css : CssColors) :
  let acc c := if truthy (cssAccent css)
               then setAccent c (rgbaToHex (cssAccent css)) else c in
  (truthy (cssPrimary css) = false /\
   Docs.overrideColors colors css = Normal (acc colors))
  \/ (truthy (cssPrimary css) = true /\
      exists p s, rgbaToHex (cssPrimary css) = VStr p
        /\ darkenHex (VStr p) (Num.lit 6 10) = Normal s
        /\ Docs.overrideColors colors css
           = Normal (acc (setPrimary colors (VStr p) (VStr s))))
  \/ (truthy (cssPrimary css) = true /\
      exists n e, rgbaToHex (cssPrimary css) = VBuiltin n
        /\ Docs.overrideColors colors css = Throw e).
Proof.
  intros acc. unfold Docs.overrideColors, acc.
  destruct (truthy (cssPrimary css)) eqn:T.
  - right. destruct (rgbaToHex_shape (cssPrimary css)) as [[p E]|[n E]];
      rewrite E.
    + left. split; [reflexivity|].
      destruct (darkenHex_string p (Num.lit 6 10)) as [s D].
      exists p, s. rewrite D. simpl.
      destruct (truthy (cssAccent css)); repeat split; reflexivity.
    + right. split; [reflexivity|]. exists n. eexists. split; reflexivity.
  - left. split; [reflexivity|]. simpl.
    destruct (truthy (cssAccent css)); reflexivity.
Qed.

(** [Url.improveColors] in closed form. *)
Lemma improveColors_cases (colors : BrandColors) (css : CssColors) :
  let acc c := if truthy (cssAccent css)
               then setAccent c (cssAccent css) else c in
  (truthy (cssPrimary css) = false /\
   Url.improveColors colors css = Normal (acc colors))
  \/ (truthy (cssPrimary css) = true /\
      exists p s, cssPrimary css = VStr p
        /\ darkenHex (VStr p) (Num.lit 6 10) = Normal s
        /\ Url.improveColors colors css
           = Normal (acc (setPrimary colors (VStr p) (VStr s))))
  \/ (exists n e, cssPrimary css = VBuiltin n
        /\ Url.improveColors colors css = Throw e).
Proof.
  intros acc. unfold Url.improveColors, acc.
  destruct (cssPrimary css) as [| |p|n] eqn:E; simpl truthy.
  - left. split; [reflexivity|]. simpl.
    destruct (truthy (cssAccent css)); reflexivity.
  - left. split; [reflexivity|]. simpl.
    destruct (truthy (cssAccent css)); reflexivity.
  - destruct (Str.isEmpty p) eqn:P; simpl negb.
    + left. split; [reflexivity|]. simpl.
      destruct (truthy (cssAccent css)); reflexivity.
    + right. left. split; [reflexivity|].
      destruct (darkenHex_string p (Num.lit 6 10)) as [s D].
      exists p, s. rewrite D. simpl.
      destruct (truthy (cssAccent css)); repeat split; reflexivity.
  - right. right. exists n. eexists. split; reflexivity.
Qed.



(** ** C1: [secondary] after the refinement *)

(** C1, as amended.  Whenever the refinement returns and a CSS primary
    signal was present, [primary] is that signal (normalised, in the docs
    orchestrator) and [secondary] is [darkenHex(primary, 0.6)]; without a
    primary signal both fields keep the values of the screenshot palette. *)
Theorem secondary_follows_overwritten_primary
    (colors : BrandColors) (css : CssColors) :
  (forall c',
     Docs.overrideColors colors css = Normal c' ->
     (truthy (cssPrimary css) = true ->
      primary c' = rgbaToHex (cssPrimary css)
      /\ exists s, secondary c' = VStr s
                   /\ darkenHex (primary c') (Num.lit 6 10) = Normal s)
     /\ (truthy (cssPrimary css) = false ->
         primary c' = primary colors /\ secondary c' = secondary colors))
  /\ (forall c',
        Url.improveColors colors css = Normal c' ->
        (truthy (cssPrimary css) = true ->
         primary c' = cssPrimary css
         /\ exists s, secondary c' = VStr s
                      /\ darkenHex (primary c') (Num.lit 6 10) = Normal s)
        /\ (truthy (cssPrimary css) = false ->
            primary c' = primary colors /\ secondary c' = secondary colors)).
Proof.
  split; intros c' R.
  - destruct (overrideColors_cases colors css)
      as [[T E]|[[T (p & s & P & D & E)]|[T (n & e & P & E)]]];
      rewrite E in R; try discriminate R; injection R as <-.
    + split; intros T'; [congruence|].
      destruct (truthy (cssAccent css)); simpl; split; reflexivity.
    + split; intros T'; [|congruence]. rewrite P.
      destruct (truthy (cssAccent css)); simpl;
        (split; [reflexivity | exists s; split; [reflexivity | exact D]]).
  - destruct (improveColors_cases colors css)
      as [[T E]|[[T (p & s & P & D & E)]|(n & e & P & E)]];
      rewrite E in R; try discriminate R; injection R as <-.
    + split; intros T'; [congruence|].
      destruct (truthy (cssAccent css)); simpl; split; reflexivity.
    + split; intros T'; [|congruence]. rewrite P.
      destruct (truthy (cssAccent css)); simpl;
        (split; [reflexivity | exists s; split; [reflexivity | exact D]]).
Qed.

Lemma secondary_follows_overwritten_primary_witness :
  let css := Docs.evaluateCss (primaryDom "rgb(10,20,30)") in
  let c' := mkColors (VStr "#0a141e") (VStr "#060c12") (accent samplePalette)
                     (background samplePalette) in
  primary c' = rgbaToHex (cssPrimary css)
  /\ exists s, secondary c' = VStr s
               /\ darkenHex (primary c') (Num.lit 6 10) = Normal s.
Proof.
  intros css c'.
  apply (proj1 (proj1 (secondary_follows_overwritten_primary samplePalette css)
                      c' eq_refl)).
  reflexivity.
Defined.

(** C1 as stated fails: without a CSS primary signal the palette returned
    by [extractBrandingWithCssColors] keeps the [secondary] of the
    screenshot, which need not be the darkening of its [primary]; and the
    palette [extractDocsContent] falls back to when the page cannot be
    opened carries the literal [#003D99], where [darkenHex] writes
    [#003d99]. *)
Lemma secondary_not_derived_counterexample :
  (exists r st',
     Docs.extractBrandingWithCssColors (serving (plainDom []))
       "https://example.com/docs" "example.com" freshState = (Normal r, st')
     /\ darkenHex (primary (colors r)) (Num.lit 6 10) = Normal "#993d00"
     /\ secondary (colors r) = VStr "#112233"
     /\ secondary (colors r) <> VStr "#993d00")
  /\ (exists r st',
        Docs.extractDocsBranding offline
          "https://example.com/docs" "example.com" freshState = (Normal r, st')
        /\ darkenHex (primary (colors r)) (Num.lit 6 10) = Normal "#003d99"
        /\ secondary (colors r) = VStr "#003D99"
        /\ secondary (colors r) <> VStr "#003d99").
Proof.
  split; eexists; eexists; (split; [vm_compute; reflexivity|]);
    (split; [vm_compute; reflexivity|]); (split; [reflexivity|discriminate]).
Qed.

(** ** C9: the background is not touched *)

(** C9.  The refinement of either orchestrator returns a palette whose
    [background] is the one it was given, and it returns one unless the
    primary signal resolves to a member inherited from [Object.prototype];
    so the [background] of every [BrandingResult] the orchestrators return
    is the [background] of the screenshot palette. *)
Theorem background_never_overwritten :
  (forall colors css,
     ((exists c', Docs.overrideColors colors css = Normal c')
      \/ (exists n, rgbaToHex (cssPrimary css) = VBuiltin n))
     /\ forall c', Docs.overrideColors colors css = Normal c' ->
                   background c' = background colors)
  /\ (forall colors css,
        ((exists c', Url.improveColors colors css = Normal c')
         \/ (exists n, cssPrimary css = VBuiltin n))
        /\ forall c', Url.improveColors colors css = Normal c' ->
                      background c' = background colors)
  /\ (forall w url domain st r st',
        Docs.extractBrandingWithCssColors w url domain st = (Normal r, st') ->
        exists page, openPage w url = Normal page
          /\ background (colors r) = background (screenshotColors page))
  /\ (forall domain branding css shot r,
        Url.improveBranding domain branding css shot = Normal r ->
        match branding with
        | Some b => background (colors r) = background (colors b)
        | None => exists c, shot = Normal c
                            /\ background (colors r) = background c
        end).
Proof.
  assert (D : forall colors css c',
             Docs.overrideColors colors css = Normal c' ->
             background c' = background colors).
  { intros colors css c' R.
    destruct (overrideColors_cases colors css)
      as [[T E]|[[T (p & s & P & D & E)]|[T (n & e & P & E)]]];
      rewrite E in R; try discriminate R; injection R as <-;
      destruct (truthy (cssAccent css)); reflexivity. }
  assert (U : forall colors css c',
             Url.improveColors colors css = Normal c' ->
             background c' = background colors).
  { intros colors css c' R.
    destruct (improveColors_cases colors css)
      as [[T E]|[[T (p & s & P & D' & E)]|(n & e & P & E)]];
      rewrite E in R; try discriminate R; injection R as <-;
      destruct (truthy (cssAccent css)); reflexivity. }
  split; [|split; [|split]].
  - intros colors css. split; [|apply D].
    destruct (overrideColors_cases colors css)
      as [[T E]|[[T (p & s & P & D' & E)]|[T (n & e & P & E)]]].
    + left. eexists. exact E.
    + left. eexists. exact E.
    + right. exists n. exact P.
  - intros colors css. split; [|apply U].
    destruct (improveColors_cases colors css)
      as [[T E]|[[T (p & s & P & D' & E)]|(n & e & P & E)]].
    + left. eexists. exact E.
    + left. eexists. exact E.
    + right. exists n. exact P.
  - intros w url domain st r st'.
    unfold Docs.extractBrandingWithCssColors, mbind, lift, ret.
    destruct (extractLogoFromCloud _ _ _ _) as [[lr|e] st1]; [|discriminate].
    destruct (openPage w url) as [page|e]; [|discriminate].
    destruct (Docs.overrideColors _ _) as [c|e] eqn:O; [|discriminate].
    destruct (detectTheme c) as [t|e]; [|discriminate].
    intros R. injection R as <- _. exists page. split; [reflexivity|].
    simpl. exact (D _ _ _ O).
  - assert (A : forall c css c1, Url.applyCss c css = Normal c1 ->
                                 background c1 = background c).
    { intros c [css|] c1 R; simpl in R.
      - exact (U _ _ _ R).
      - now injection R as <-. }
    intros domain [b|] css shot r; simpl.
    + destruct (Url.applyCss _ _) as [c|e] eqn:O; simpl; [|discriminate].
      intros R. injection R as <-. simpl. exact (A _ _ _ O).
    + destruct shot as [c|e]; simpl; [|discriminate].
      destruct (Url.applyCss _ _) as [c1|e] eqn:O; simpl; [|discriminate].
      destruct (detectTheme c1) as [t|e]; simpl; [|discriminate].
      intros R. injection R as <-. exists c. split; [reflexivity|].
      simpl. exact (A _ _ _ O).
Qed.

Lemma background_never_overwritten_witness :
  exists page,
    openPage (serving (primaryDom "rgb(10,20,30)")) "https://example.com/docs"
    = Normal page
    /\ VStr "#1A1A1A" = background (screenshotColors page).
Proof.
  apply (proj1 (proj2 (proj2 background_never_overwritten))
           (serving (primaryDom "rgb(10,20,30)")) "https://example.com/docs"
           "example.com" freshState
           (mkBranding (mkLogo (faviconUrl "example.com") favicon)
              (mkColors (VStr "#0a141e") (VStr "#060c12") (VStr "#445566")
                        (VStr "#1A1A1A"))
              "system-ui, -apple-system, sans-serif" dark)
           (mkState (probesAfter freshState "example.com"
                       "https://example.com" 6)
                    [faviconWarning "example.com"])).
  vm_compute. reflexivity.
Defined.

(** ** C4: which signal becomes [primary] *)



Lemma firstTruthy_falsy (l : list value) :
  truthy (firstTruthy l) = false -> forall v, In v l -> truthy v = false.
Proof.
  induction l as [|x l IH]; simpl; intros H v [].
  - subst x. destruct (truthy v) eqn:T; [congruence | reflexivity].
  - destruct (truthy x) eqn:T; [congruence|]. now apply IH.
Qed.







(** ** Binary64 rounding *)

Open Scope Q_scope.

Lemma pow2_Qpower (e : Z) : Num.pow2 e == 2 ^ e.
Proof.
  unfold Num.pow2. destruct (Z.leb_spec 0 e) as [H|H].
  - exact (Zpower_Qpower 2 e H).
  - replace e with (- (- e))%Z at 2 by lia.
    rewrite Qpower_opp.
    assert (E : inject_Z (2 ^ (- e)) == 2 ^ (- e))
      by (apply (Zpower_Qpower 2); lia).
    rewrite <- E.
    assert (P : (0 < 2 ^ (- e))%Z) by (apply Z.pow_pos_nonneg; lia).
    destruct (2 ^ (- e))%Z as [|p|p]; try lia.
    reflexivity.
Qed.

Lemma pow2_pos (e : Z) : 0 < Num.pow2 e.
Proof. rewrite pow2_Qpower. now apply Qpower_0_lt. Qed.

Lemma pow2_add (a b : Z) : Num.pow2 (a + b) == Num.pow2 a * Num.pow2 b.
Proof. rewrite !pow2_Qpower. now apply Qpower_plus. Qed.

Lemma pow2_le (a b : Z) : (a <= b)%Z -> Num.pow2 a <= Num.pow2 b.
Proof.
  intros H. rewrite !pow2_Qpower. apply Qpower_le_compat_l; [exact H|].
  discriminate.
Qed.

Lemma pow2_lt (a b : Z) : (a < b)%Z -> Num.pow2 a < Num.pow2 b.
Proof.
  intros H. rewrite !pow2_Qpower. apply Qpower_lt_compat_l; [exact H|].
  reflexivity.
Qed.

Lemma pow2_succ (a : Z) : Num.pow2 (a + 1) == 2 * Num.pow2 a.
Proof. rewrite pow2_add. change (Num.pow2 1) with 2. ring. Qed.

Lemma pow2_of_Z (k : Z) : (0 <= k)%Z -> Num.pow2 k == inject_Z (2 ^ k).
Proof. intros H. unfold Num.pow2. now apply Z.leb_le in H as ->. Qed.

Lemma log2_bounds (p : Z) :
  (0 < p)%Z ->
  Num.pow2 (Z.log2 p) <= inject_Z p /\ inject_Z p < Num.pow2 (Z.log2 p + 1).
Proof.
  intros H. destruct (Z.log2_spec p H) as [L U].
  pose proof (Z.log2_nonneg p) as N.
  rewrite !pow2_of_Z by lia. split.
  - now rewrite <- Zle_Qle.
  - rewrite <- Zlt_Qlt. now rewrite Z.add_1_r.
Qed.

Lemma ilog2_spec (a : Q) :
  0 < a -> Num.pow2 (Num.ilog2 a) <= a /\ a < Num.pow2 (Num.ilog2 a + 1).
Proof.
  intros H. unfold Num.ilog2.
  destruct a as [p q]. cbn [Qnum Qden].
  assert (Hp : (0 < p)%Z).
  { unfold Qlt in H. simpl in H. lia. }
  destruct (log2_bounds p Hp) as [Lp Up].
  destruct (log2_bounds (Zpos q) eq_refl) as [Lq Uq].
  set (lp := Z.log2 p) in *. set (lq := Z.log2 (Zpos q)) in *.
  assert (E : p # q == inject_Z p / inject_Z (Zpos q)) by apply Qmake_Qdiv.
  assert (Qpos : 0 < inject_Z (Zpos q)) by reflexivity.
  assert (A : (p # q) * inject_Z (Zpos q) == inject_Z p).
  { rewrite E. field. intros C. rewrite C in Qpos. discriminate. }
  pose proof (pow2_add (lp - lq) lq) as E1.
  replace (lp - lq + lq)%Z with lp in E1 by lia.
  pose proof (pow2_succ (lp - lq)) as E2.
  pose proof (pow2_succ (lp - lq - 1)) as E3.
  replace (lp - lq - 1 + 1)%Z with (lp - lq)%Z in E3 by lia.
  pose proof (pow2_succ lp) as E4. pose proof (pow2_succ lq) as E5.
  pose proof (pow2_pos (lp - lq)) as P1.
  pose proof (pow2_pos (lp - lq - 1)) as P2.
  pose proof (pow2_pos lq) as P3.
  destruct (Qle_bool (Num.pow2 (lp - lq)) (p # q)) eqn:B.
  - apply Qle_bool_iff in B. split; [exact B|].
    rewrite E2. nra.
  - assert (B' : p # q < Num.pow2 (lp - lq)).
    { apply Qnot_le_lt. intros C. apply Qle_bool_iff in C. congruence. }
    replace (lp - lq - 1 + 1)%Z with (lp - lq)%Z by lia.
    split; [|exact B']. nra.
Qed.

Lemma ilog2_ge (a : Q) (k : Z) : 0 < a -> Num.pow2 k <= a -> (k <= Num.ilog2 a)%Z.
Proof.
  intros H K. destruct (ilog2_spec a H) as [_ U].
  destruct (Z_lt_le_dec (Num.ilog2 a) k) as [C|C]; [|exact C].
  exfalso. assert (Num.pow2 (Num.ilog2 a + 1) <= Num.pow2 k) by (apply pow2_le; lia).
  lra.
Qed.

Lemma ilog2_lt (a : Q) (k : Z) : 0 < a -> a < Num.pow2 k -> (Num.ilog2 a < k)%Z.
Proof.
  intros H K. destruct (ilog2_spec a H) as [L _].
  destruct (Z_lt_le_dec (Num.ilog2 a) k) as [C|C]; [exact C|].
  exfalso. assert (Num.pow2 k <= Num.pow2 (Num.ilog2 a)) by (apply pow2_le; lia).
  lra.
Qed.

Lemma ilog2_le (a : Q) (k : Z) : 0 < a -> a <= Num.pow2 k -> (Num.ilog2 a <= k)%Z.
Proof.
  intros H K. assert (a < Num.pow2 (k + 1)).
  { pose proof (pow2_lt k (k + 1) ltac:(lia)). lra. }
  pose proof (ilog2_lt a (k + 1) H H0). lia.
Qed.

(** Nearest integer *)
Lemma rne_floor (x : Q) :
  (Num.rne x = Qfloor x \/ Num.rne x = Qfloor x + 1)%Z
  /\ Qabs (inject_Z (Num.rne x) - x) <= 1 # 2.
Proof.
  unfold Num.rne.
  pose proof (Qfloor_le x) as L. pose proof (Qlt_floor x) as U.
  rewrite inject_Z_plus in U. change (inject_Z 1) with 1 in U.
  set (f := Qfloor x) in *.
  destruct (Qcompare_spec (x - inject_Z f) (1 # 2)) as [E|E|E].
  - destruct (Z.even f); (split; [auto|]); try rewrite inject_Z_plus;
      change (inject_Z 1) with 1;
      apply Qabs_Qle_condition; split; lra.
  - split; [auto|]. apply Qabs_Qle_condition. split; lra.
  - split; [auto|]. rewrite inject_Z_plus. change (inject_Z 1) with 1.
    apply Qabs_Qle_condition. split; lra.
Qed.

Lemma rne_le_int (x : Q) (m : Z) : x <= inject_Z m -> (Num.rne x <= m)%Z.
Proof.
  intros H. pose proof (Qfloor_resp_le _ _ H) as F. rewrite Qfloor_Z in F.
  unfold Num.rne.
  pose proof (Qfloor_le x) as L. set (f := Qfloor x) in *.
  destruct (Z.eq_dec f m) as [->|N].
  - destruct (Qcompare_spec (x - inject_Z m) (1 # 2)) as [E|E|E]; try lra; lia.
  - destruct (Qcompare (x - inject_Z f) (1 # 2)); [destruct (Z.even f)| |]; lia.
Qed.

Lemma rne_ge_int (x : Q) (m : Z) : inject_Z m <= x -> (m <= Num.rne x)%Z.
Proof.
  intros H. pose proof (Qfloor_resp_le _ _ H) as F. rewrite Qfloor_Z in F.
  destruct (rne_floor x) as [[E|E] _]; lia.
Qed.

(** Rounding of a magnitude *)
Lemma round_mag_le (a c : Q) (m : Z) :
  c == inject_Z m * Num.pow2 (Num.ulp_exp a) -> a <= c -> Num.round_mag a <= c.
Proof.
  intros G H. unfold Num.round_mag.
  pose proof (pow2_pos (Num.ulp_exp a)) as P. set (u := Num.pow2 _) in *.
  assert (a / u <= inject_Z m).
  { apply Qle_shift_div_r; [exact P|]. lra. }
  apply rne_le_int in H0. rewrite Zle_Qle in H0. rewrite G. nra.
Qed.

Lemma round_mag_ge (a c : Q) (m : Z) :
  c == inject_Z m * Num.pow2 (Num.ulp_exp a) -> c <= a -> c <= Num.round_mag a.
Proof.
  intros G H. unfold Num.round_mag.
  pose proof (pow2_pos (Num.ulp_exp a)) as P. set (u := Num.pow2 _) in *.
  assert (inject_Z m <= a / u).
  { apply Qle_shift_div_l; [exact P|]. lra. }
  apply rne_ge_int in H0. rewrite Zle_Qle in H0. rewrite G. nra.
Qed.

Lemma round_mag_err (a : Q) :
  Qabs (Num.round_mag a - a) <= Num.pow2 (Num.ulp_exp a - 1).
Proof.
  unfold Num.round_mag.
  pose proof (pow2_pos (Num.ulp_exp a)) as P.
  pose proof (pow2_succ (Num.ulp_exp a - 1)) as S.
  replace (Num.ulp_exp a - 1 + 1)%Z with (Num.ulp_exp a) in S by lia.
  set (u := Num.pow2 (Num.ulp_exp a)) in *. set (h := Num.pow2 _) in *.
  destruct (rne_floor (a / u)) as [_ N].
  set (n := inject_Z (Num.rne (a / u))) in *.
  assert (E : a == (a / u) * u) by (field; lra).
  apply Qabs_Qle_condition in N. apply Qabs_Qle_condition.
  set (y := a / u) in *. split; nra.
Qed.

Lemma ulp_exp_le (a : Q) (k : Z) :
  0 < a -> a <= Num.pow2 k -> (Num.ulp_exp a <= Z.max (k - 52) (-1074))%Z.
Proof.
  intros H K. unfold Num.ulp_exp. pose proof (ilog2_le a k H K). lia.
Qed.

(** Rounding to binary64 *)
Lemma RN_zero (x : Q) : x == 0 -> Num.RN x = Num.Fin 0.
Proof.
  intros H. unfold Num.RN. now rewrite (proj1 (Qeq_alt x 0) H).
Qed.

Lemma RN_pos (x : Q) :
  0 < x ->
  (Num.RN x = Num.Inf false /\ Num.pow2 1024 <= Num.round_mag x)
  \/ (exists v, Num.RN x = Num.Fin v /\ v == Num.round_mag x
                /\ Num.round_mag x < Num.pow2 1024).
Proof.
  intros H. unfold Num.RN. rewrite (proj1 (Qgt_alt x 0) H).
  destruct (Qle_bool (Num.pow2 1024) (Num.round_mag x)) eqn:B.
  - left. split; [reflexivity|]. now apply Qle_bool_iff.
  - right. eexists. split; [reflexivity|]. split; [apply Qred_correct|].
    apply Qnot_le_lt. intros C. apply Qle_bool_iff in C. congruence.
Qed.

Lemma RN_neg (x : Q) :
  x < 0 ->
  (Num.RN x = Num.Inf true /\ Num.pow2 1024 <= Num.round_mag (- x))
  \/ (exists v, Num.RN x = Num.Fin v /\ v == - Num.round_mag (- x)
                /\ Num.round_mag (- x) < Num.pow2 1024).
Proof.
  intros H. unfold Num.RN. rewrite (proj1 (Qlt_alt x 0) H).
  destruct (Qle_bool (Num.pow2 1024) (Num.round_mag (- x))) eqn:B.
  - left. split; [reflexivity|]. now apply Qle_bool_iff.
  - right. eexists. split; [reflexivity|]. split; [apply Qred_correct|].
    apply Qnot_le_lt. intros C. apply Qle_bool_iff in C. congruence.
Qed.

Lemma round_mag_ge_0 (a : Q) : 0 <= a -> 0 <= Num.round_mag a.
Proof.
  intros H. apply (round_mag_ge a 0 0); [|exact H].
  change (inject_Z 0) with 0. ring.
Qed.

(** Below 2^53 every integer lies on the grid a magnitude is rounded to. *)
Lemma int_on_grid (a : Q) (c : Z) :
  0 < a -> a < Num.pow2 53 ->
  exists m, inject_Z c == inject_Z m * Num.pow2 (Num.ulp_exp a).
Proof.
  intros H K.
  assert (E : (Num.ulp_exp a <= 0)%Z).
  { pose proof (ilog2_lt a 53 H K). unfold Num.ulp_exp. lia. }
  set (e := Num.ulp_exp a) in *.
  exists (c * 2 ^ (- e))%Z.
  rewrite inject_Z_mult, <- pow2_of_Z by lia.
  pose proof (pow2_add (- e) e) as A.
  replace (- e + e)%Z with 0%Z in A by lia. change (Num.pow2 0) with 1 in A.
  rewrite <- Qmult_assoc, <- A. ring.
Qed.

Lemma int_below_pow2 (c k : Z) :
  (0 <= k)%Z -> (c < 2 ^ k)%Z -> inject_Z c < Num.pow2 k.
Proof.
  intros K H. rewrite pow2_of_Z by exact K. now rewrite <- Zlt_Qlt.
Qed.

(** A value between two integers below 2^53 rounds between them. *)
Lemma RN_between_ints (x : Q) (lo hi : Z) :
  (0 <= lo)%Z -> (hi < 2 ^ 53)%Z ->
  inject_Z lo <= x -> x <= inject_Z hi ->
  exists v, Num.RN x = Num.Fin v /\ inject_Z lo <= v /\ v <= inject_Z hi.
Proof.
  intros L B X0 X1.
  assert (I0 : 0 <= inject_Z lo)
    by (change 0 with (inject_Z 0); rewrite <- Zle_Qle; lia).
  pose proof (int_below_pow2 hi 53 ltac:(lia) B) as HB.
  destruct (Qlt_le_dec 0 x) as [P|Z].
  - assert (K : x < Num.pow2 53) by lra.
    destruct (int_on_grid x hi P K) as [m G].
    destruct (int_on_grid x lo P K) as [m' G'].
    pose proof (round_mag_le x _ m G X1) as U.
    pose proof (round_mag_ge x _ m' G' X0) as D.
    destruct (RN_pos x P) as [[_ O]|(v & E & V & _)].
    + exfalso. pose proof (pow2_lt 53 1024 ltac:(lia)). lra.
    + exists v. split; [exact E|]. rewrite V. split; assumption.
  - exists 0. split; [apply RN_zero; lra|]. split; lra.
Qed.

Lemma int_of_Z_exact (c : Z) :
  (0 <= c < 2 ^ 53)%Z -> Num.int_of_Z c = Num.IInt c.
Proof.
  intros [L B]. unfold Num.int_of_Z.
  destruct (RN_between_ints (inject_Z c) c c L B (Qle_refl _) (Qle_refl _))
    as (v & -> & V0 & V1).
  assert (E : v == inject_Z c) by lra.
  now rewrite E, Qfloor_Z.
Qed.

Lemma floor_half_int (c : Z) : Qfloor (inject_Z c + (1 # 2)) = c.
Proof.
  pose proof (Qfloor_le (inject_Z c + (1 # 2))) as L.
  pose proof (Qlt_floor (inject_Z c + (1 # 2))) as U.
  set (f := Qfloor _) in *. rewrite inject_Z_plus in U.
  change (inject_Z 1) with 1 in U.
  assert (H : inject_Z f < inject_Z c + 1) by lra.
  assert (H0 : inject_Z c < inject_Z f + 1) by lra.
  change 1 with (inject_Z 1) in H, H0.
  rewrite <- inject_Z_plus in H, H0.
  rewrite <- Zlt_Qlt in H, H0. lia.
Qed.

(** The error of rounding a magnitude below 2^k. *)
Lemma RN_error (x : Q) (k : Z) (v : Q) :
  (-1022 <= k)%Z -> Qabs x <= Num.pow2 k -> Num.RN x = Num.Fin v ->
  Qabs (v - x) <= Num.pow2 (k - 53).
Proof.
  intros K B E.
  assert (M : forall a, 0 < a -> a <= Num.pow2 k ->
              Qabs (Num.round_mag a - a) <= Num.pow2 (k - 53)).
  { intros a P A. pose proof (round_mag_err a) as R.
    pose proof (ulp_exp_le a k P A) as U.
    assert (Num.pow2 (Num.ulp_exp a - 1) <= Num.pow2 (k - 53))
      by (apply pow2_le; lia).
    lra. }
  apply Qabs_Qle_condition in B.
  destruct (Q_dec x 0) as [[N|P]|Z].
  - destruct (RN_neg x N) as [[C _]|(w & C & W & _)]; rewrite C in E;
      [discriminate E|]. injection E as <-.
    specialize (M (- x) ltac:(lra) ltac:(lra)).
    apply Qabs_Qle_condition in M. apply Qabs_Qle_condition.
    rewrite W. split; lra.
  - destruct (RN_pos x P) as [[C _]|(w & C & W & _)]; rewrite C in E;
      [discriminate E|]. injection E as <-.
    specialize (M x P ltac:(lra)).
    apply Qabs_Qle_condition in M. apply Qabs_Qle_condition.
    rewrite W. split; lra.
  - rewrite (RN_zero x Z) in E. injection E as <-.
    pose proof (pow2_pos (k - 53)). apply Qabs_Qle_condition. split; lra.
Qed.

(** [c * k] for an integer [c]: when the exact product lies between the
    integers [lo] and [hi], so does the binary64 product. *)
Lemma mul_between (c : Z) (k : Q) (lo hi : Z) :
  (0 <= lo)%Z -> (hi < 256)%Z ->
  inject_Z lo <= inject_Z c * k -> inject_Z c * k <= inject_Z hi ->
  exists v,
    Num.mul (Num.of_int (Num.IInt c)) (Num.Fin k) = Num.Fin v
    /\ inject_Z lo <= v /\ v <= inject_Z hi
    /\ Qabs (v - inject_Z c * k) <= 1 # (2 ^ 45).
Proof.
  intros L H X0 X1. unfold Num.mul, Num.of_int.
  destruct (RN_between_ints (inject_Z c * k) lo hi L ltac:(lia) X0 X1)
    as (v & E & V0 & V1).
  exists v. split; [exact E|]. split; [exact V0|]. split; [exact V1|].
  change (1 # 2 ^ 45) with (Num.pow2 (8 - 53)).
  apply (RN_error _ 8 v); [lia| |exact E].
  assert (I0 : 0 <= inject_Z lo)
    by (change 0 with (inject_Z 0); rewrite <- Zle_Qle; lia).
  pose proof (int_below_pow2 hi 8 ltac:(lia) H).
  apply Qabs_Qle_condition. split; lra.
Qed.

(** [Math.round] of a finite value: the nearest integer, the upper one on
    a tie; it stays between the integers that bound its argument. *)
Lemma round_nearest (v : Q) :
  exists n,
    Num.round (Num.Fin v) = Num.IInt n
    /\ n = Qfloor (v + (1 # 2))
    /\ inject_Z n - (1 # 2) <= v /\ v < inject_Z n + (1 # 2).
Proof.
  exists (Qfloor (v + (1 # 2))). split; [reflexivity|]. split; [reflexivity|].
  pose proof (Qfloor_le (v + (1 # 2))) as F0.
  pose proof (Qlt_floor (v + (1 # 2))) as F1.
  rewrite inject_Z_plus in F1. change (inject_Z 1) with 1 in F1.
  split; lra.
Qed.

Lemma round_between (v : Q) (lo hi : Z) :
  inject_Z lo <= v -> v <= inject_Z hi ->
  (lo <= Qfloor (v + (1 # 2)) <= hi)%Z.
Proof.
  intros V0 V1. split.
  - assert (F : (Qfloor (inject_Z lo + (1 # 2)) <= Qfloor (v + (1 # 2)))%Z)
      by (apply Qfloor_resp_le; lra).
    now rewrite floor_half_int in F.
  - assert (F : (Qfloor (v + (1 # 2)) <= Qfloor (inject_Z hi + (1 # 2)))%Z)
      by (apply Qfloor_resp_le; lra).
    now rewrite floor_half_int in F.
Qed.

Close Scope Q_scope.

(** ** C7: [darkenHex] on a canonical colour *)

Lemma hexDigit_in (c : ascii) : Str.isHexDigit c = true -> In c hexChars.
Proof.
  destruct c as [[] [] [] [] [] [] [] []]; intros H;
    try discriminate H; simpl; tauto.
Qed.

Lemma all_pairs_ok :
  forallb (fun hi => forallb (pairOk hi) hexChars) hexChars = true.
Proof. vm_compute. reflexivity. Qed.

Lemma jsint_eqb_eq (a b : Num.jsint) : jsint_eqb a b = true -> a = b.
Proof.
  destruct a, b; simpl; try discriminate; intros H.
  - reflexivity.
  - now apply Bool.eqb_prop in H as ->.
  - now apply Z.eqb_eq in H as ->.
Qed.

Lemma hex_pair (hi lo : ascii) :
  Str.isHexDigit hi = true -> Str.isHexDigit lo = true ->
  parseInt (String hi (String lo EmptyString)) 16 = Num.IInt (byteOf hi lo)
  /\ twoHex (byteOf hi lo)
     = String (Str.lowerChar hi) (String (Str.lowerChar lo) EmptyString)
  /\ 0 <= byteOf hi lo < 256.
Proof.
  intros H L. apply hexDigit_in in H, L.
  pose proof all_pairs_ok as A.
  rewrite forallb_forall in A. specialize (A hi H).
  rewrite forallb_forall in A. specialize (A lo L).
  unfold pairOk in A.
  apply andb_true_iff in A. destruct A as [A A4].
  apply andb_true_iff in A. destruct A as [A A3].
  apply andb_true_iff in A. destruct A as [A1 A2].
  split; [now apply jsint_eqb_eq|].
  split; [now apply String.eqb_eq|]. lia.
Qed.

Lemma all_bytes_ok : forallb byteOk (map Z.of_nat (seq 0 256)) = true.
Proof. vm_compute. reflexivity. Qed.

Lemma byte_hex (n : Z) :
  0 <= n < 256 -> Str.padStart (toString16 (Num.IInt n)) 2 "0" = twoHex n.
Proof.
  intros H. pose proof all_bytes_ok as A. rewrite forallb_forall in A.
  apply String.eqb_eq, A. apply in_map_iff. exists (Z.to_nat n).
  split; [lia|]. apply in_seq. lia.
Qed.

Lemma canonical_shape (hex : string) :
  isCanonical hex = true ->
  exists a b c d e f,
    hex = String "#" (String a (String b (String c (String d (String e
            (String f EmptyString))))))
    /\ Str.isHexDigit a = true /\ Str.isHexDigit b = true
    /\ Str.isHexDigit c = true /\ Str.isHexDigit d = true
    /\ Str.isHexDigit e = true /\ Str.isHexDigit f = true.
Proof.
  unfold isCanonical, isHexOfLength.
  destruct hex as [|h r]; [discriminate|].
  destruct (Ascii.eqb_spec h "#") as [->|N].
  2:{ destruct h as [[] [] [] [] [] [] [] []]; try discriminate; now destruct N. }
  intros H. apply andb_true_iff in H. destruct H as [A L].
  destruct r as [|a [|b [|c [|d [|e [|f [|x r]]]]]]]; try discriminate L.
  simpl in A. repeat (apply andb_true_iff in A; destruct A as [? A]).
  exists a, b, c, d, e, f. repeat split; assumption.
Qed.

Lemma darkenHex_six (a b c d e f : ascii) (k : Num.number) :
  darkenHex (VStr (String "#" (String a (String b (String c (String d
               (String e (String f EmptyString)))))))) k
  = (let r := parseInt (String a (String b EmptyString)) 16 in
     let g := parseInt (String c (String d EmptyString)) 16 in
     let b := parseInt (String e (String f EmptyString)) 16 in
     if Num.isNaN r || Num.isNaN g || Num.isNaN b then Normal darkenDefault
     else Normal (hexTriple (Num.mul (Num.of_int r) k)
                            (Num.mul (Num.of_int g) k)
                            (Num.mul (Num.of_int b) k))).
Proof. reflexivity. Qed.

(** One channel of [darkenHex] for a factor between 0 and 1. *)
Lemma hexByte_scaled (c : Z) (k : Q) :
  0 <= c < 256 -> (0 <= k)%Q -> (k <= 1)%Q ->
  exists n, hexByte (Num.mul (Num.of_int (Num.IInt c)) (Num.Fin k)) = twoHex n
            /\ scaledTo c k n
            /\ ((k == 0)%Q -> n = 0) /\ ((k == 1)%Q -> n = c).
Proof.
  intros C K0 K1.
  assert (IC : (0 <= inject_Z c)%Q)
    by (change 0%Q with (inject_Z 0); rewrite <- Zle_Qle; lia).
  assert (X0 : (inject_Z 0 <= inject_Z c * k)%Q)
    by (change (inject_Z 0) with 0%Q; nra).
  assert (X1 : (inject_Z c * k <= inject_Z c)%Q) by nra.
  destruct (mul_between c k 0 c ltac:(lia) ltac:(lia) X0 X1)
    as (v & M & V0 & V1 & E).
  destruct (round_nearest v) as (n & R & En & N0 & N1).
  pose proof (round_between v 0 c V0 V1) as B. rewrite <- En in B.
  exists n. split; [|split; [|split]].
  - unfold hexByte. rewrite M, R. apply byte_hex. lia.
  - split; [exact B|]. exists v.
    split; [exact M|split; [exact N0|split; [exact N1|exact E]]].
  - intros Z.
    assert (Y1 : (inject_Z c * k <= inject_Z 0)%Q)
      by (rewrite Z; change (inject_Z 0) with 0%Q; lra).
    destruct (mul_between c k 0 0 ltac:(lia) ltac:(lia) X0 Y1)
      as (v' & M' & V0' & V1' & _).
    rewrite M in M'. injection M' as <-.
    pose proof (round_between v 0 0 V0' V1') as B'. rewrite <- En in B'. lia.
  - intros O.
    assert (Y0 : (inject_Z c <= inject_Z c * k)%Q) by (rewrite O; lra).
    destruct (mul_between c k c c ltac:(lia) ltac:(lia) Y0 X1)
      as (v' & M' & V0' & V1' & _).
    rewrite M in M'. injection M' as <-.
    pose proof (round_between v c c V0' V1') as B'. rewrite <- En in B'. lia.
Qed.

(** C7.  On a canonical colour and a factor between 0 and 1, [darkenHex]
    returns [#] followed by the two lower-case hexadecimal digits of each
    channel multiplied by the factor and rounded to the nearest integer.
    The factor 0 gives black; the factor 1 gives the colour back, written
    in lower case; and [darkenHex('#FF6600', 0.5)] is [#803300]. *)
Theorem darkenHex_scales (hex : string) (k : Q) :
  isCanonical hex = true -> (0 <= k)%Q -> (k <= 1)%Q ->
  let '(r, g, b) := channelsOf hex in
  (exists nr ng nb,
     darkenHex (VStr hex) (Num.Fin k)
     = Normal ("#" ++ twoHex nr ++ twoHex ng ++ twoHex nb)
     /\ scaledTo r k nr /\ scaledTo g k ng /\ scaledTo b k nb)
  /\ ((k == 0)%Q -> darkenHex (VStr hex) (Num.Fin k) = Normal "#000000")
  /\ ((k == 1)%Q ->
      darkenHex (VStr hex) (Num.Fin k) = Normal (Str.toLowerCase hex))
  /\ darkenHex (VStr "#FF6600") (Num.lit 5 10) = Normal "#803300".
Proof.
  intros H K0 K1.
  destruct (canonical_shape hex H)
    as (a & b & c & d & e & f & -> & Ha & Hb & Hc & Hd & He & Hf).
  cbn [channelsOf].
  destruct (hex_pair a b Ha Hb) as (Pr & Lr & Br).
  destruct (hex_pair c d Hc Hd) as (Pg & Lg & Bg).
  destruct (hex_pair e f He Hf) as (Pb & Lb & Bb).
  rewrite darkenHex_six, Pr, Pg, Pb. cbv zeta. cbn [Num.isNaN orb].
  unfold hexTriple.
  destruct (hexByte_scaled _ k Br K0 K1) as (nr & -> & Sr & Zr & Or).
  destruct (hexByte_scaled _ k Bg K0 K1) as (ng & -> & Sg & Zg & Og).
  destruct (hexByte_scaled _ k Bb K0 K1) as (nb & -> & Sb & Zb & Ob).
  split; [|split; [|split]].
  - exists nr, ng, nb.
    split; [reflexivity|split; [exact Sr|split; [exact Sg|exact Sb]]].
  - intros Z. now rewrite (Zr Z), (Zg Z), (Zb Z).
  - intros O. rewrite (Or O), (Og O), (Ob O), Lr, Lg, Lb. reflexivity.
  - vm_compute. reflexivity.
Qed.

Lemma darkenHex_scales_witness :
  let '(r, g, b) := channelsOf "#FF6600" in
  (exists nr ng nb,
     darkenHex (VStr "#FF6600") (Num.Fin (1 # 2))
     = Normal ("#" ++ twoHex nr ++ twoHex ng ++ twoHex nb)
     /\ scaledTo r (1 # 2) nr /\ scaledTo g (1 # 2) ng
     /\ scaledTo b (1 # 2) nb)
  /\ ((1 # 2 == 0)%Q ->
      darkenHex (VStr "#FF6600") (Num.Fin (1 # 2)) = Normal "#000000")
  /\ ((1 # 2 == 1)%Q ->
      darkenHex (VStr "#FF6600") (Num.Fin (1 # 2))
      = Normal (Str.toLowerCase "#FF6600"))
  /\ darkenHex (VStr "#FF6600") (Num.lit 5 10) = Normal "#803300".
Proof.
  apply (darkenHex_scales "#FF6600" (1 # 2)).
  - reflexivity.
  - discriminate.
  - discriminate.
Defined.


(** ** Rounding errors in [hslToHex] *)

Open Scope Q_scope.

Lemma pow2_on_grid (a : Q) (k : Z) :
  0 < a -> a <= Num.pow2 k -> (-1074 <= k)%Z ->
  exists m, Num.pow2 k == inject_Z m * Num.pow2 (Num.ulp_exp a).
Proof.
  intros H A K. pose proof (ulp_exp_le a k H A) as U.
  set (e := Num.ulp_exp a) in *.
  exists (2 ^ (k - e))%Z. rewrite <- pow2_of_Z by lia.
  rewrite <- pow2_add. now replace (k - e + e)%Z with k by lia.
Qed.

(** A magnitude below 2^k, k < 1024, rounds to a finite value within
    2^(k-53) of it. *)
Lemma RN_approx (x : Q) (k : Z) :
  (-1022 <= k <= 1023)%Z -> Qabs x <= Num.pow2 k ->
  exists v, Num.RN x = Num.Fin v /\ Qabs (v - x) <= Num.pow2 (k - 53).
Proof.
  intros K B.
  assert (F : exists v, Num.RN x = Num.Fin v).
  { assert (M : forall a, 0 < a -> a <= Num.pow2 k ->
                Num.round_mag a < Num.pow2 1024).
    { intros a P A. destruct (pow2_on_grid a k P A ltac:(lia)) as [m G].
      pose proof (round_mag_le a _ m G A).
      pose proof (pow2_lt k 1024 ltac:(lia)). lra. }
    apply Qabs_Qle_condition in B.
    destruct (Q_dec x 0) as [[N|P]|Z].
    - destruct (RN_neg x N) as [[_ O]|(w & C & _)]; [|now exists w].
      specialize (M (- x) ltac:(lra) ltac:(lra)). lra.
    - destruct (RN_pos x P) as [[_ O]|(w & C & _)]; [|now exists w].
      specialize (M x P ltac:(lra)). lra.
    - exists 0. now apply RN_zero. }
  destruct F as [v E]. exists v. split; [exact E|].
  apply (RN_error x k v); [lia|exact B|exact E].
Qed.

Lemma RN_nonneg (x : Q) :
  0 <= x -> Num.RN x = Num.Inf false \/ exists v, Num.RN x = Num.Fin v /\ 0 <= v.
Proof.
  intros H. destruct (Qlt_le_dec 0 x) as [P|Z].
  - destruct (RN_pos x P) as [[O _]|(w & C & W & _)]; [now left|].
    right. exists w. split; [exact C|]. rewrite W. apply round_mag_ge_0. lra.
  - right. exists 0. split; [apply RN_zero; lra|lra].
Qed.


Lemma RN_16 (x : Q) :
  Qabs x <= 16 -> exists v, Num.RN x = Num.Fin v /\ Qabs (v - x) <= eps.
Proof.
  intros H. apply (RN_approx x 4); [lia|exact H].
Qed.

Lemma RN_16' (x : Q) :
  -16 <= x -> x <= 16 ->
  exists v, Num.RN x = Num.Fin v /\ x - eps <= v /\ v <= x + eps.
Proof.
  intros L U. destruct (RN_16 x) as (v & E & B).
  { apply Qabs_Qle_condition. split; lra. }
  exists v. split; [exact E|]. apply Qabs_Qle_condition in B. split; lra.
Qed.

Lemma eps_bounds : 0 < eps /\ eps <= 1 # 1000000000.
Proof. split; reflexivity || discriminate. Qed.


Lemma c6_bounds : (1 # 7) <= c6 /\ c6 <= 1667 # 10000.
Proof. split; discriminate. Qed.
Lemma c23_bounds : (6666 # 10000) <= c23 /\ c23 <= 6667 # 10000.
Proof. split; discriminate. Qed.
Lemma c13_bounds : (3333 # 10000) <= c13 /\ c13 <= 3334 # 10000.
Proof. split; discriminate. Qed.

Lemma sixth_eq : Num.div (Num.lit 1 1) (Num.lit 6 1) = Num.Fin c6.
Proof. vm_compute. reflexivity. Qed.
Lemma half_eq : Num.div (Num.lit 1 1) (Num.lit 2 1) = Num.Fin (1 # 2).
Proof. vm_compute. reflexivity. Qed.
Lemma two_thirds_eq : Num.div (Num.lit 2 1) (Num.lit 3 1) = Num.Fin c23.
Proof. vm_compute. reflexivity. Qed.
Lemma third_eq : Num.div (Num.lit 1 1) (Num.lit 3 1) = Num.Fin c13.
Proof. vm_compute. reflexivity. Qed.
Lemma lit_int (n : Z) :
  (0 <= n < 2 ^ 53)%Z -> exists v, Num.lit n 1 = Num.Fin v /\ v == inject_Z n.
Proof.
  intros H. unfold Num.lit.
  destruct (RN_between_ints (inject_Z n) n n ltac:(lia) ltac:(lia)
              (Qle_refl _) (Qle_refl _)) as (v & E & V0 & V1).
  exists v. split; [exact E|lra].
Qed.
Lemma lit0 : Num.lit 0 1 = Num.Fin 0. Proof. reflexivity. Qed.
Lemma lit1 : Num.lit 1 1 = Num.Fin 1. Proof. vm_compute. reflexivity. Qed.
Lemma lit2 : Num.lit 2 1 = Num.Fin 2. Proof. vm_compute. reflexivity. Qed.
Lemma lit6 : Num.lit 6 1 = Num.Fin 6. Proof. vm_compute. reflexivity. Qed.
Lemma lit255 : Num.lit 255 1 = Num.Fin 255. Proof. vm_compute. reflexivity. Qed.
Lemma lit360 : Num.lit 360 1 = Num.Fin 360. Proof. vm_compute. reflexivity. Qed.
Lemma lit100 : Num.lit 100 1 = Num.Fin 100. Proof. vm_compute. reflexivity. Qed.
Lemma lit_half : Num.lit 5 10 = Num.Fin (1 # 2). Proof. vm_compute. reflexivity. Qed.



Lemma ltb_Fin (a b : Q) : Num.ltb (Num.Fin a) (Num.Fin b) = true <-> a < b.
Proof.
  unfold Num.ltb. rewrite negb_true_iff. split; intros H.
  - apply Qnot_le_lt. intros C. apply Qle_bool_iff in C. congruence.
  - destruct (Qle_bool b a) eqn:E; [|reflexivity].
    apply Qle_bool_iff in E. lra.
Qed.

Lemma ltb_Fin_false (a b : Q) : Num.ltb (Num.Fin a) (Num.Fin b) = false <-> b <= a.
Proof.
  unfold Num.ltb. rewrite negb_false_iff. apply Qle_bool_iff.
Qed.

(** After its two adjustments [t] is +infinity or a non-negative value. *)
Lemma hue_adjust (t : Num.number) :
  hueArg t ->
  let t1 := if Num.ltb t (Num.Fin 0) then Num.add t (Num.Fin 1) else t in
  let t2 := if Num.gtb t1 (Num.Fin 1) then Num.sub t1 (Num.Fin 1) else t1 in
  t2 = Num.Inf false \/ exists u, t2 = Num.Fin u /\ 0 <= u.
Proof.
  intros [->|(t0 & -> & T)]; cbv zeta.
  - left. reflexivity.
  - assert (S1 : exists u, (if Num.ltb (Num.Fin t0) (Num.Fin 0)
                            then Num.add (Num.Fin t0) (Num.Fin 1)
                            else Num.Fin t0) = Num.Fin u /\ 0 <= u).
    { destruct (Num.ltb (Num.Fin t0) (Num.Fin 0)) eqn:L.
      - apply ltb_Fin in L. unfold Num.add.
        destruct (RN_between_ints (t0 + 1) 0 1 ltac:(lia) ltac:(lia))
          as (u & E & U0 & U1).
        + change (inject_Z 0) with 0. lra.
        + change (inject_Z 1) with 1. lra.
        + exists u. split; [exact E|]. exact U0.
      - apply ltb_Fin_false in L. now exists t0. }
    destruct S1 as (u & -> & U).
    unfold Num.gtb.
    destruct (Num.ltb (Num.Fin 1) (Num.Fin u)) eqn:G.
    + apply ltb_Fin in G. unfold Num.sub, Num.neg, Num.add.
      destruct (RN_nonneg (u + - 1)) as [E|(w & E & W)].
      * lra.
      * left. exact E.
      * right. exists w. split; assumption.
    + right. now exists u.
Qed.


Ltac round16 x v E L U :=
  destruct (RN_16' x) as (v & E & L & U); [ | | rewrite E ].

Lemma hue2rgb_bounds (p q : Q) (t : Num.number) :
  nearUnit p tiny -> nearUnit q tiny -> hueArg t ->
  exists r, hue2rgb (Num.Fin p) (Num.Fin q) t = Num.Fin r
            /\ nearUnit r (1 # 1000).
Proof.
  intros [P0 P1] [Q0 Q1] T. unfold tiny in *.
  destruct eps_bounds as [e0 e1].
  destruct c6_bounds as [s0 s1]. destruct c23_bounds as [w0 w1].
  unfold hue2rgb.
  rewrite sixth_eq, half_eq, two_thirds_eq, lit0, lit1, lit6.
  pose proof (hue_adjust t T) as A. cbv zeta in A |- *.
  assert (Rp : nearUnit p (1 # 1000)) by (unfold nearUnit; split; lra).
  assert (Rq : nearUnit q (1 # 1000)) by (unfold nearUnit; split; lra).
  destruct A as [E|(u & E & U)]; rewrite E.
  - cbn [Num.ltb]. now exists p.
  - destruct (Num.ltb (Num.Fin u) (Num.Fin c6)) eqn:L1.
    + apply ltb_Fin in L1.
      unfold Num.sub, Num.neg, Num.add, Num.mul.
      round16 (q + - p) d Ed Ld Ud; try lra.
      round16 (d * 6) a Ea La Ua; try lra.
      round16 (a * u) b Eb Lb Ub; try nra.
      round16 (p + b) r Er Lr Ur; try nra.
      exists r. split; [reflexivity|].
      unfold nearUnit. split; nra.
    + destruct (Num.ltb (Num.Fin u) (Num.Fin (1 # 2))) eqn:L2;
        [now exists q|].
      destruct (Num.ltb (Num.Fin u) (Num.Fin c23)) eqn:L3; [|now exists p].
      apply ltb_Fin_false in L2. apply ltb_Fin in L3.
      unfold Num.sub, Num.neg, Num.add, Num.mul.
      round16 (q + - p) d Ed Ld Ud; try lra.
      round16 (c23 + - u) x Ex Lx Ux; try lra.
      round16 (d * x) a Ea La Ua; try nra.
      round16 (a * 6) b Eb Lb Ub; try nra.
      round16 (p + b) r Er Lr Ur; try nra.
      exists r. split; [reflexivity|].
      unfold nearUnit. split; nra.
Qed.

Lemma Qfloor_range (x : Q) (lo hi : Z) :
  inject_Z lo <= x -> x < inject_Z hi -> (lo <= Qfloor x < hi)%Z.
Proof.
  intros L U. split.
  - pose proof (Qfloor_resp_le _ _ L) as F. now rewrite Qfloor_Z in F.
  - pose proof (Qfloor_le x) as F. rewrite Zlt_Qlt. lra.
Qed.

(** One channel of [hslToHex]. *)
Lemma channel_byte (r : Q) :
  nearUnit r (1 # 1000) ->
  exists n, hexByte (Num.mul (Num.Fin r) (Num.Fin 255)) = twoHex n
            /\ (0 <= n < 256)%Z.
Proof.
  intros [R0 R1]. unfold Num.mul.
  destruct (RN_approx (r * 255) 8 ltac:(lia)) as (v & E & B).
  { change (Num.pow2 8) with 256. apply Qabs_Qle_condition. split; lra. }
  change (Num.pow2 (8 - 53)) with (1 # 2 ^ 45) in B.
  assert (B' : (1 # 2 ^ 45) <= 1 # 1000) by discriminate.
  apply Qabs_Qle_condition in B.
  assert (N : (0 <= Qfloor (v + (1 # 2)) < 256)%Z).
  { apply Qfloor_range.
    - change (inject_Z 0) with 0. lra.
    - change (inject_Z 256) with 256. lra. }
  exists (Qfloor (v + (1 # 2))). split; [|exact N].
  unfold hexByte. rewrite E. cbn [Num.round]. now apply byte_hex.
Qed.


Lemma hue_args (h : Num.number) :
  hueValue h ->
  hueArg (Num.add h (Num.Fin c13)) /\ hueArg h
  /\ hueArg (Num.sub h (Num.Fin c13)).
Proof.
  destruct c13_bounds as [t0 t1]. destruct eps_bounds as [e0 e1].
  intros [->|(h0 & -> & H)].
  - repeat split; left; reflexivity.
  - split; [|split].
    + unfold Num.add. destruct (RN_nonneg (h0 + c13)) as [E|(v & E & V)].
      * lra.
      * left. exact E.
      * right. exists v. split; [exact E|lra].
    + right. exists h0. split; [reflexivity|lra].
    + unfold Num.sub, Num.neg, Num.add.
      destruct (Qlt_le_dec (h0 + - c13) 0) as [N|P].
      * destruct (RN_16' (h0 + - c13)) as (v & E & L & U); try lra.
        right. exists v. split; [exact E|lra].
      * destruct (RN_nonneg (h0 + - c13) P) as [E|(v & E & V)].
        -- left. exact E.
        -- right. exists v. split; [exact E|lra].
Qed.

(** [p] and [q] of [hslToHex] stay in the unit interval up to rounding. *)
Lemma hsl_pq (s l : Q) :
  0 <= s -> s <= 1 -> 0 <= l -> l <= 1 ->
  exists q,
    (if Num.ltb (Num.Fin l) (Num.Fin (1 # 2))
     then Num.mul (Num.Fin l) (Num.add (Num.Fin 1) (Num.Fin s))
     else Num.sub (Num.add (Num.Fin l) (Num.Fin s))
                  (Num.mul (Num.Fin l) (Num.Fin s))) = Num.Fin q
    /\ nearUnit q tiny
    /\ exists p,
         Num.sub (Num.mul (Num.Fin 2) (Num.Fin l)) (Num.Fin q) = Num.Fin p
         /\ nearUnit p tiny.
Proof.
  intros S0 S1 L0 L1. destruct eps_bounds as [e0 e1]. unfold tiny, nearUnit.
  destruct (Num.ltb (Num.Fin l) (Num.Fin (1 # 2))) eqn:B.
  - apply ltb_Fin in B. unfold Num.sub, Num.neg, Num.add, Num.mul.
    round16 (1 + s) a Ea La Ua; try lra.
    round16 (l * a) q Eqq Lq Uq; try nra.
    exists q. split; [reflexivity|]. split; [split; nra|].
    round16 (2 * l) m Em Lm Um; try lra.
    round16 (m + - q) p Ep Lp Up; try nra.
    exists p. split; [reflexivity|]. split; nra.
  - apply ltb_Fin_false in B. unfold Num.sub, Num.neg, Num.add, Num.mul.
    round16 (l + s) b Eb Lb Ub; try lra.
    round16 (l * s) c Ec Lc Uc; try nra.
    round16 (b + - c) q Eqq Lq Uq; try nra.
    exists q. split; [reflexivity|]. split; [split; nra|].
    round16 (2 * l) m Em Lm Um; try lra.
    round16 (m + - q) p Ep Lp Up; try nra.
    exists p. split; [reflexivity|]. split; nra.
Qed.

(** [hslToHex] on a hue from 0 upwards and a saturation and a lightness
    between 0 and 1 writes three bytes. *)
Lemma hslToHex_bytes (h : Num.number) (s l : Q) :
  hueValue h -> 0 <= s -> s <= 1 -> 0 <= l -> l <= 1 ->
  exists nr ng nb,
    hslToHex h (Num.Fin s) (Num.Fin l)
    = ("#" ++ twoHex nr ++ twoHex ng ++ twoHex nb)%string
    /\ (0 <= nr < 256)%Z /\ (0 <= ng < 256)%Z /\ (0 <= nb < 256)%Z.
Proof.
  intros H S0 S1 L0 L1. unfold hslToHex.
  rewrite third_eq, lit_half, lit1, lit2, lit255.
  destruct (Num.is_zero (Num.Fin s)).
  - destruct (channel_byte l) as (n & E & N).
    { unfold nearUnit. split; lra. }
    unfold hexTriple. rewrite E. exists n, n, n. repeat split; lia.
  - destruct (hsl_pq s l S0 S1 L0 L1) as (q & -> & Q & p & -> & P).
    destruct (hue_args h H) as (A1 & A2 & A3).
    destruct (hue2rgb_bounds p q _ P Q A1) as (r & -> & R).
    destruct (hue2rgb_bounds p q _ P Q A2) as (g & -> & G).
    destruct (hue2rgb_bounds p q _ P Q A3) as (b & -> & B).
    destruct (channel_byte r R) as (nr & Er & Nr).
    destruct (channel_byte g G) as (ng & Eg & Ng).
    destruct (channel_byte b B) as (nb & Eb & Nb).
    unfold hexTriple. rewrite Er, Eg, Eb.
    exists nr, ng, nb. repeat split; lia.
Qed.

Close Scope Q_scope.

(** ** C6: valid colours are normalised to canonical ones *)

Lemma white_not_digit (c : ascii) : Str.isWhite c = true -> Str.isDigit c = false.
Proof. destruct c as [[] [] [] [] [] [] [] []]; intros H; try discriminate H; reflexivity. Qed.

Lemma white_not_num (c : ascii) : Str.isWhite c = true -> Regex.isNumChar c = false.
Proof. destruct c as [[] [] [] [] [] [] [] []]; intros H; try discriminate H; reflexivity. Qed.

Lemma digit_not_white (c : ascii) : Str.isDigit c = true -> Str.isWhite c = false.
Proof. destruct c as [[] [] [] [] [] [] [] []]; intros H; try discriminate H; reflexivity. Qed.

Lemma digit_is_num (c : ascii) : Str.isDigit c = true -> Regex.isNumChar c = true.
Proof. unfold Regex.isNumChar. now intros ->. Qed.

Lemma digit_radix10 (c : ascii) : Str.isDigit c = true -> isRadixDigit 10 c = true.
Proof. destruct c as [[] [] [] [] [] [] [] []]; intros H; try discriminate H; reflexivity. Qed.

Lemma hex_not_white (c : ascii) : Str.isHexDigit c = true -> Str.isWhite c = false.
Proof. destruct c as [[] [] [] [] [] [] [] []]; intros H; try discriminate H; reflexivity. Qed.

Lemma allChars_app (p : ascii -> bool) (a b : string) :
  allChars p (a ++ b) = allChars p a && allChars p b.
Proof.
  induction a as [|c a IH]; simpl; [reflexivity|].
  now rewrite IH, andb_assoc.
Qed.

Lemma allChars_impl (p q : ascii -> bool) (s : string) :
  (forall c, p c = true -> q c = true) -> allChars p s = true -> allChars q s = true.
Proof.
  intros I. induction s as [|c s IH]; simpl; [reflexivity|].
  intros H. apply andb_true_iff in H. destruct H as [H1 H2].
  now rewrite (I c H1), IH.
Qed.

Lemma trimStart_spaces (w z : string) :
  isSpaces w = true -> Str.trimStart (w ++ z) = Str.trimStart z.
Proof.
  unfold isSpaces. induction w as [|c w IH]; simpl; [reflexivity|].
  intros H. apply andb_true_iff in H. destruct H as [-> H]. now apply IH.
Qed.

Lemma trimStart_head (z : string) :
  headIs Str.isWhite z = false -> Str.trimStart z = z.
Proof. destruct z as [|c z]; simpl; [reflexivity|]. now intros ->. Qed.

Lemma span_app (p : ascii -> bool) (d z : string) :
  allChars p d = true -> headIs p z = false -> Str.span p (d ++ z) = (d, z).
Proof.
  intros D Z. induction d as [|c d IH].
  - destruct z as [|c z]; [reflexivity|]. simpl in *. now rewrite Z.
  - cbn [allChars] in D. apply andb_true_iff in D. destruct D as [C D].
    cbn [append Str.span]. now rewrite C, (IH D).
Qed.

Lemma many1_app (p : ascii -> bool) (d z : string) :
  Str.isEmpty d = false -> allChars p d = true -> headIs p z = false ->
  Regex.many1 p (d ++ z) = Some (d, z).
Proof.
  intros N D Z. unfold Regex.many1. rewrite (span_app p d z D Z).
  now rewrite N.
Qed.

Lemma head_app (p q : ascii -> bool) (w : string) (c : ascii) (z : string) :
  (forall a, q a = true -> p a = false) ->
  allChars q w = true -> p c = false -> headIs p (w ++ String c z) = false.
Proof.
  intros I W C. destruct w as [|a w]; simpl; [exact C|].
  simpl in W. apply andb_true_iff in W. destruct W as [W _]. now apply I.
Qed.

Lemma isDigits_spec (s : string) :
  isDigits s = true -> Str.isEmpty s = false /\ allChars Str.isDigit s = true.
Proof.
  unfold isDigits. intros H. apply andb_true_iff in H.
  destruct H as [H1 H2]. now apply negb_true_iff in H1.
Qed.

Lemma expect_app (p z : string) : Regex.expect p (p ++ z) = Some z.
Proof.
  unfold Regex.expect.
  assert (P : String.prefix p (p ++ z) = true /\ Str.drop (String.length p) (p ++ z) = z).
  { induction p as [|c p [IH1 IH2]]; simpl.
    - split; [now destruct z | now destruct z].
    - destruct (ascii_dec c c) as [_|N]; [|now destruct N]. split; assumption. }
  destruct P as [-> ->]. reflexivity.
Qed.

Lemma search_head {A : Type} (at_ : string -> option A) (s : string) (m : A) :
  at_ s = Some m -> Regex.search at_ s = Some m.
Proof. intros H. destruct s; simpl; now rewrite H. Qed.

Lemma optional_alpha (a : bool) (z : string) :
  Regex.optional "a" ((if a then "a" else EmptyString) ++ "(" ++ z) = "(" ++ z.
Proof. destruct a; reflexivity. Qed.

(** A run of spaces, then a run of characters of class [p], then a
    character outside both. *)
Lemma field_app (p : ascii -> bool) (w d z : string) :
  (forall a, Str.isWhite a = true -> p a = false) ->
  (forall a, p a = true -> Str.isWhite a = false) ->
  isSpaces w = true -> Str.isEmpty d = false -> allChars p d = true ->
  headIs p z = false ->
  Regex.many1 p (Str.trimStart (w ++ d ++ z)) = Some (d, z).
Proof.
  intros I J W N D Z. rewrite (trimStart_spaces _ _ W).
  rewrite trimStart_head.
  - now apply many1_app.
  - destruct d as [|a d]; [discriminate N|]. simpl in *.
    apply andb_true_iff in D. destruct D as [D _]. now apply J.
Qed.

Lemma sep_app (w : string) (c : ascii) (z : string) :
  isSpaces w = true -> Str.isWhite c = false ->
  Str.trimStart (w ++ String c z) = String c z.
Proof.
  intros W C. rewrite (trimStart_spaces _ _ W). simpl. now rewrite C.
Qed.

Lemma validRgb_spec (x : RgbText) :
  validRgb x = true ->
  (isSpaces (rgbSp1 x) = true /\ isSpaces (rgbSp2 x) = true
   /\ isSpaces (rgbSp3 x) = true /\ isSpaces (rgbSp4 x) = true
   /\ isSpaces (rgbSp5 x) = true)
  /\ (isByteText (red x) = true /\ isByteText (green x) = true
      /\ isByteText (blue x) = true)
  /\ headIs Str.isDigit (rgbTail x) = false.
Proof.
  unfold validRgb. intros V.
  repeat (apply andb_true_iff in V; destruct V as [V ?]).
  repeat split; try assumption. now apply negb_true_iff.
Qed.

Lemma rgbMatch_write (x : RgbText) :
  validRgb x = true ->
  Regex.rgbMatch (writeRgb x) = Some (red x, green x, blue x).
Proof.
  intros V. apply validRgb_spec in V.
  destruct V as ((W1 & W2 & W3 & W4 & W5) & (R & G & B) & T).
  unfold isByteText in R, G, B.
  apply andb_true_iff in R, G, B.
  destruct R as [R _], G as [G _], B as [B _].
  apply isDigits_spec in R, G, B.
  destruct R as [R0 R1], G as [G0 G1], B as [B0 B1].
  assert (S2 : forall z, headIs Str.isDigit (rgbSp2 x ++ "," ++ z) = false).
  { intros z. apply (head_app _ Str.isWhite _ ","%char);
      [exact white_not_digit|assumption|reflexivity]. }
  assert (S4 : forall z, headIs Str.isDigit (rgbSp4 x ++ "," ++ z) = false).
  { intros z. apply (head_app _ Str.isWhite _ ","%char);
      [exact white_not_digit|assumption|reflexivity]. }
  assert (C2 : forall z, Str.trimStart (rgbSp2 x ++ "," ++ z) = "," ++ z).
  { intros z. now apply (sep_app _ ","%char). }
  assert (C4 : forall z, Str.trimStart (rgbSp4 x ++ "," ++ z) = "," ++ z).
  { intros z. now apply (sep_app _ ","%char). }
  apply search_head. unfold Regex.rgbAt, writeRgb.
  rewrite expect_app. cbn [Regex.obind].
  rewrite optional_alpha, expect_app. cbn [Regex.obind].
  rewrite (field_app Str.isDigit _ _ _ white_not_digit digit_not_white
             W1 R0 R1 (S2 _)).
  cbn [Regex.obind].
  rewrite C2, expect_app. cbn [Regex.obind].
  rewrite (field_app Str.isDigit _ _ _ white_not_digit digit_not_white
             W3 G0 G1 (S4 _)).
  cbn [Regex.obind].
  rewrite C4, expect_app. cbn [Regex.obind].
  rewrite (field_app Str.isDigit _ _ _ white_not_digit digit_not_white
             W5 B0 B1 T).
  reflexivity.
Qed.

Lemma splitSign_digit (s : string) :
  headIs Str.isDigit s = true -> splitSign s = (false, s).
Proof.
  destruct s as [|c r]; [discriminate|]. simpl.
  destruct c as [[] [] [] [] [] [] [] []]; intros H;
    try discriminate H; reflexivity.
Qed.

Lemma prefix_second (a b : ascii) (s : string) :
  String.prefix (String a (String b EmptyString)) s = true ->
  exists r, s = String a (String b r).
Proof.
  intros H. apply String.prefix_correct in H.
  destruct s as [|a' [|b' r]]; simpl in H; try discriminate H.
  exists r. injection H as -> -> _. reflexivity.
Qed.

Lemma digits_no_prefix (s : string) :
  allChars Str.isDigit s = true ->
  String.prefix "0x" s || String.prefix "0X" s = false.
Proof.
  intros D. apply orb_false_iff. split.
  - destruct (String.prefix "0x" s) eqn:E; [|reflexivity].
    apply prefix_second in E. destruct E as [r ->]. discriminate D.
  - destruct (String.prefix "0X" s) eqn:E; [|reflexivity].
    apply prefix_second in E. destruct E as [r ->]. discriminate D.
Qed.

Lemma span_all (p : ascii -> bool) (s : string) :
  allChars p s = true -> Str.span p s = (s, EmptyString).
Proof.
  induction s as [|c s IH]; simpl; [reflexivity|].
  intros H. apply andb_true_iff in H. destruct H as [-> H].
  now rewrite (IH H).
Qed.

Lemma digitValue_range (c : ascii) (v : Z) :
  Str.digitValue c = Some v -> 0 <= v < 36.
Proof.
  unfold Str.digitValue.
  repeat match goal with
         | |- context [if ?b then _ else _] => destruct b eqn:?
         end; intros H; inversion H; subst; lia.
Qed.

Lemma digitsValue_nonneg (R : Z) (s : string) :
  0 <= R -> forall acc, 0 <= acc -> 0 <= digitsValue R acc s.
Proof.
  intros HR. induction s as [|c s IH]; intros acc A; simpl; [exact A|].
  destruct (Str.digitValue c) as [v|] eqn:E; [|exact A].
  apply digitValue_range in E. apply IH. nia.
Qed.

Lemma digits_head (s : string) :
  isDigits s = true -> headIs Str.isDigit s = true.
Proof.
  intros H. apply isDigits_spec in H. destruct H as [N D].
  destruct s as [|c s]; [discriminate N|]. simpl in *.
  now apply andb_true_iff in D.
Qed.

Lemma parseInt_digits (c : string) :
  isDigits c = true -> digitsValue 10 0 c < 2 ^ 53 ->
  parseInt c 0 = Num.IInt (digitsValue 10 0 c).
Proof.
  intros D B. pose proof (digits_head c D) as Hd.
  apply isDigits_spec in D. destruct D as [N D].
  unfold parseInt.
  rewrite trimStart_head.
  2:{ destruct c as [|a c]; [discriminate N|]. simpl in *.
      now apply digit_not_white. }
  rewrite (splitSign_digit c Hd). cbn [Z.eqb Z.ltb Z.compare orb].
  cbv iota. cbn [andb orb Z.eqb].
  rewrite (digits_no_prefix c D).
  rewrite (span_all (isRadixDigit 10) c).
  2:{ apply (allChars_impl Str.isDigit); [exact digit_radix10|exact D]. }
  cbn [fst]. rewrite N.
  apply int_of_Z_exact. split; [|exact B].
  apply digitsValue_nonneg; lia.
Qed.

Lemma rgbByte_text (c : string) :
  isByteText c = true ->
  rgbByte c = twoHex (digitsValue 10 0 c) /\ 0 <= digitsValue 10 0 c < 256.
Proof.
  unfold isByteText. intros H. apply andb_true_iff in H. destruct H as [D B].
  apply Z.leb_le in B.
  assert (N : 0 <= digitsValue 10 0 c) by (apply digitsValue_nonneg; lia).
  unfold rgbByte. rewrite (parseInt_digits c D) by lia.
  split; [apply byte_hex|]; lia.
Qed.

(** *** Canonical results *)


Lemma all_bytes_canonical :
  forallb byteCanonical (map Z.of_nat (seq 0 256)) = true.
Proof. vm_compute. reflexivity. Qed.

Lemma twoHex_hex (n : Z) :
  0 <= n < 256 -> allChars Str.isHexDigit (twoHex n) = true.
Proof.
  intros H. pose proof all_bytes_canonical as A. rewrite forallb_forall in A.
  apply A. apply in_map_iff. exists (Z.to_nat n).
  split; [lia|]. apply in_seq. lia.
Qed.

Lemma triple_canonical (a b c : Z) :
  0 <= a < 256 -> 0 <= b < 256 -> 0 <= c < 256 ->
  isCanonical ("#" ++ twoHex a ++ twoHex b ++ twoHex c) = true.
Proof.
  intros A B C.
  pose proof (twoHex_hex a A) as Ha. pose proof (twoHex_hex b B) as Hb.
  pose proof (twoHex_hex c C) as Hc.
  unfold twoHex in *. cbn [append allChars] in *.
  unfold isCanonical, isHexOfLength. cbn [allChars String.length Nat.eqb].
  apply andb_true_iff in Ha, Hb, Hc.
  destruct Ha as [-> Ha], Hb as [-> Hb], Hc as [-> Hc].
  apply andb_true_iff in Ha, Hb, Hc.
  destruct Ha as [-> _], Hb as [-> _], Hc as [-> _]. reflexivity.
Qed.

Lemma trimEnd_id (s : string) :
  allChars (fun c => negb (Str.isWhite c)) s = true -> Str.trimEnd s = s.
Proof.
  induction s as [|c s IH]; simpl; [reflexivity|].
  intros H. apply andb_true_iff in H. destruct H as [C H].
  rewrite (IH H). apply negb_true_iff in C. rewrite C.
  now destruct s.
Qed.

Lemma trim_id (s : string) :
  allChars (fun c => negb (Str.isWhite c)) s = true -> Str.trim s = s.
Proof.
  intros H. unfold Str.trim. rewrite trimStart_head.
  - now apply trimEnd_id.
  - destruct s as [|c s]; [reflexivity|]. simpl in *.
    apply andb_true_iff in H. destruct H as [C _]. now apply negb_true_iff.
Qed.

Lemma hexOfLength_shape (n : nat) (s : string) :
  isHexOfLength n s = true ->
  exists r, s = String "#" r /\ allChars Str.isHexDigit r = true
            /\ String.length r = n.
Proof.
  unfold isHexOfLength. destruct s as [|h r]; [discriminate|].
  destruct (Ascii.eqb_spec h "#") as [->|N].
  2:{ destruct h as [[] [] [] [] [] [] [] []]; try discriminate; now destruct N. }
  intros H. apply andb_true_iff in H. destruct H as [A L].
  exists r. repeat split; [exact A|]. now apply Nat.eqb_eq.
Qed.

Lemma hex_no_space (s : string) :
  allChars Str.isHexDigit s = true ->
  allChars (fun c => negb (Str.isWhite c)) s = true.
Proof.
  apply allChars_impl. intros c H. now rewrite (hex_not_white c H).
Qed.

(** The [#] branch on a string that needs no trimming. *)
Lemma hash_branch (color : string) (r : string) :
  Str.trim color = String "#" r ->
  rgbaToHex (VStr color)
  = VStr (if (String.length r =? 3)%nat then doubled (String "#" r)
          else firstChars 7 (String "#" r)).
Proof.
  intros T. unfold rgbaToHex.
  assert (N : Str.isEmpty color = false).
  { destruct color; [discriminate T|reflexivity]. }
  assert (P : Str.startsWith (String "#" r) "#" = true).
  { unfold Str.startsWith. apply String.prefix_correct. now destruct r. }
  rewrite N, T, P.
  change (String.length (String "#" r) =? 4)%nat
    with (String.length r =? 3)%nat.
  destruct (String.length r =? 3)%nat eqn:L.
  - apply Nat.eqb_eq in L.
    destruct r as [|a [|b [|c [|d r]]]]; try discriminate L. reflexivity.
  - now rewrite slice_from_0.
Qed.

(** A canonical colour is a fixed point of [rgbaToHex]. *)
Lemma canonical_fixed (h : string) :
  isCanonical h = true -> rgbaToHex (VStr h) = VStr h.
Proof.
  intros H. apply hexOfLength_shape in H. destruct H as (r & -> & A & L).
  rewrite (hash_branch _ r).
  - destruct r as [|a [|b [|c [|d [|e [|f [|g r]]]]]]]; try discriminate L.
    reflexivity.
  - apply trim_id. cbn [allChars]. rewrite (hex_no_space r A). reflexivity.
Qed.

(** The three hexadecimal notations. *)
Lemma hex_input (color : string) :
  isHexColor (Str.trim color) = true ->
  exists h, rgbaToHex (VStr color) = VStr h /\ isCanonical h = true.
Proof.
  unfold isHexColor. intros H.
  apply orb_true_iff in H. destruct H as [H|H];
    [apply orb_true_iff in H; destruct H as [H|H]|];
    apply hexOfLength_shape in H; destruct H as (r & T & A & L);
    rewrite (hash_branch color r T);
    destruct r as [|a [|b [|c [|d [|e [|f [|g [|i [|j r]]]]]]]]];
    try discriminate L; cbn [String.length Nat.eqb doubled firstChars];
    eexists; (split; [reflexivity|]);
    unfold isCanonical, isHexOfLength; cbn [allChars String.length Nat.eqb] in *;
    repeat (apply andb_true_iff in A; destruct A as [? A]);
    repeat match goal with E : Str.isHexDigit _ = true |- _ => rewrite E; clear E end;
    reflexivity.
Qed.

(** *** Strings without the characters the patterns need *)

Lemma expect_inv (p s z : string) : Regex.expect p s = Some z -> s = p ++ z.
Proof.
  unfold Regex.expect. destruct (String.prefix p s) eqn:E; [|discriminate].
  intros H. injection H as <-. revert s E.
  induction p as [|c p IH]; intros s E.
  - now destruct s.
  - destruct s as [|c' s]; [discriminate E|]. simpl in E.
    destruct (ascii_dec c c') as [<-|]; [|discriminate E].
    simpl. f_equal. now apply IH.
Qed.

Lemma allChars_suffix (p : ascii -> bool) (a b : string) :
  allChars p (a ++ b) = true -> allChars p b = true.
Proof.
  rewrite allChars_app. intros H. now apply andb_true_iff in H.
Qed.

Lemma optional_suffix (p : ascii -> bool) (c : ascii) (s : string) :
  allChars p s = true -> allChars p (Regex.optional c s) = true.
Proof.
  destruct s as [|c' s]; simpl; [reflexivity|].
  intros H. destruct (Ascii.eqb c c'); [|exact H].
  now apply andb_true_iff in H.
Qed.

Lemma search_none {A : Type} (at_ : string -> option A) (p : ascii -> bool) :
  (forall s, allChars p s = true -> at_ s = None) ->
  forall s, allChars p s = true -> Regex.search at_ s = None.
Proof.
  intros F. induction s as [|c s IH]; intros H; simpl;
    rewrite (F _ H); [reflexivity|].
  simpl in H. apply andb_true_iff in H. now apply IH.
Qed.


Lemma no_paren_no_match (s : string) :
  allChars notParen s = true ->
  Regex.rgbMatch s = None /\ Regex.hslMatch s = None.
Proof.
  intros H. split.
  - apply (search_none _ notParen); [|exact H]. clear s H. intros s H.
    unfold Regex.rgbAt.
    destruct (Regex.expect "rgb" s) as [s1|] eqn:E1; [|reflexivity].
    cbn [Regex.obind]. apply expect_inv in E1. subst s.
    apply allChars_suffix in H.
    apply (optional_suffix _ "a") in H.
    destruct (Regex.expect "(" _) as [s2|] eqn:E2; [|reflexivity].
    apply expect_inv in E2. rewrite E2 in H. discriminate H.
  - apply (search_none _ notParen); [|exact H]. clear s H. intros s H.
    unfold Regex.hslAt.
    destruct (Regex.expect "hsl" s) as [s1|] eqn:E1; [|reflexivity].
    cbn [Regex.obind]. apply expect_inv in E1. subst s.
    apply allChars_suffix in H.
    apply (optional_suffix _ "a") in H.
    destruct (Regex.expect "(" _) as [s2|] eqn:E2; [|reflexivity].
    apply expect_inv in E2. rewrite E2 in H. discriminate H.
Qed.

Lemma no_r_no_rgb (s : string) :
  allChars notR s = true -> Regex.rgbMatch s = None.
Proof.
  apply (search_none _ notR). clear s. intros s H.
  unfold Regex.rgbAt.
  destruct (Regex.expect "rgb" s) as [s1|] eqn:E1; [|reflexivity].
  apply expect_inv in E1. subst s. discriminate H.
Qed.

(** *** Named colours *)


Lemma lower_plain (c : ascii) :
  isPlain (Str.lowerChar c) = true -> isPlain c = true.
Proof.
  destruct c as [[] [] [] [] [] [] [] []]; intros H;
    try discriminate H; reflexivity.
Qed.

Lemma toLowerCase_plain (t : string) :
  allChars isPlain (Str.toLowerCase t) = true -> allChars isPlain t = true.
Proof.
  induction t as [|c t IH]; simpl; [reflexivity|].
  intros H. apply andb_true_iff in H. destruct H as [C H].
  now rewrite (lower_plain c C), IH.
Qed.


Lemma table_ok : forallb entryOk namedColors = true.
Proof. vm_compute. reflexivity. Qed.

Lemma assoc_present (k : string) (l : list (string * string)) :
  existsb (String.eqb k) (map fst l) = true ->
  exists v, assoc k l = Some v /\ In (k, v) l.
Proof.
  induction l as [|[k' v] l IH]; simpl; [discriminate|].
  destruct (String.eqb_spec k k') as [->|N]; simpl.
  - intros _. exists v. split; [reflexivity|now left].
  - intros H. destruct (IH H) as (w & E & I). exists w. split; [exact E|now right].
Qed.

Lemma named_input (color : string) :
  isNamed (Str.trim color) = true ->
  exists h, rgbaToHex (VStr color) = VStr h /\ isCanonical h = true.
Proof.
  unfold isNamed. intros H.
  destruct (assoc_present _ _ H) as (v & E & I).
  pose proof table_ok as T. rewrite forallb_forall in T.
  specialize (T _ I). unfold entryOk in T. cbn [fst snd] in T.
  apply andb_true_iff in T. destruct T as [T C].
  apply andb_true_iff in T. destruct T as [P N].
  apply toLowerCase_plain in P. apply negb_true_iff in N.
  assert (NE : Str.isEmpty (Str.trim color) = false).
  { destruct (Str.trim color); [discriminate N|reflexivity]. }
  assert (NC : Str.isEmpty color = false).
  { destruct color; [discriminate NE|reflexivity]. }
  assert (S : Str.startsWith (Str.trim color) "#" = false).
  { destruct (Str.startsWith (Str.trim color) "#") eqn:S; [|reflexivity].
    apply startsWith_hash in S. destruct S as [r S]. rewrite S in P.
    discriminate P. }
  destruct (no_paren_no_match (Str.trim color)) as [R Hs].
  { revert P. apply allChars_impl. intros c Hc. unfold isPlain in Hc.
    now apply andb_true_iff in Hc. }
  exists v. split; [|exact C].
  unfold rgbaToHex. rewrite NC, S, R, Hs.
  unfold getProperty. rewrite E. cbn [truthy].
  destruct (hexOfLength_shape _ _ C) as (r & -> & _). reflexivity.
Qed.

(** *** [rgb()] and [rgba()] *)

Lemma rgb_input (color : string) (x : RgbText) :
  validRgb x = true -> Str.trim color = writeRgb x ->
  exists h, rgbaToHex (VStr color) = VStr h /\ isCanonical h = true.
Proof.
  intros V T. pose proof (rgbMatch_write x V) as M.
  apply validRgb_spec in V. destruct V as (_ & (R & G & B) & _).
  destruct (rgbByte_text _ R) as [Er Br].
  destruct (rgbByte_text _ G) as [Eg Bg].
  destruct (rgbByte_text _ B) as [Eb Bb].
  assert (NC : Str.isEmpty color = false).
  { destruct color; [discriminate T|reflexivity]. }
  assert (S : Str.startsWith (Str.trim color) "#" = false).
  { destruct (Str.startsWith (Str.trim color) "#") eqn:S; [|reflexivity].
    apply startsWith_hash in S. destruct S as [r S]. rewrite S in T.
    discriminate T. }
  unfold rgbaToHex. rewrite NC, S, T, M, Er, Eg, Eb.
  eexists. split; [reflexivity|]. now apply triple_canonical.
Qed.

(** *** [hsl()] and [hsla()] *)

Lemma num_facts (n : Numeral) :
  validNum n = true ->
  Str.isEmpty (writeNum n) = false
  /\ allChars Regex.isNumChar (writeNum n) = true
  /\ allChars notR (writeNum n) = true.
Proof.
  unfold validNum, writeNum. intros V.
  apply andb_true_iff in V. destruct V as [I F].
  apply isDigits_spec in I. destruct I as [N I].
  assert (DN : forall s, allChars Str.isDigit s = true ->
                         allChars Regex.isNumChar s = true).
  { intros s. apply allChars_impl. exact digit_is_num. }
  assert (DR : forall s, allChars Str.isDigit s = true ->
                         allChars notR s = true).
  { intros s. apply allChars_impl.
    intros c. destruct c as [[] [] [] [] [] [] [] []]; intros H;
      try discriminate H; reflexivity. }
  split; [|split].
  - destruct (intPart n); [discriminate N|reflexivity].
  - rewrite allChars_app, (DN _ I).
    destruct (Str.isEmpty (fracPart n)); [reflexivity|].
    cbn [append allChars]. now rewrite (DN _ F).
  - rewrite allChars_app, (DR _ I).
    destruct (Str.isEmpty (fracPart n)); [reflexivity|].
    cbn [append allChars]. now rewrite (DR _ F).
Qed.

Lemma parseFloat_num (n : Numeral) :
  validNum n = true -> parseFloat (writeNum n) = Num.RN (numValue n).
Proof.
  unfold validNum. intros V.
  apply andb_true_iff in V. destruct V as [I F].
  pose proof (digits_head _ I) as Hd.
  apply isDigits_spec in I. destruct I as [N I].
  unfold parseFloat, writeNum, numValue.
  rewrite trimStart_head.
  2:{ destruct (intPart n) as [|a r]; [discriminate N|]. simpl in *.
      now apply digit_not_white. }
  rewrite (span_app Str.isDigit (intPart n) _ I).
  2:{ now destruct (Str.isEmpty (fracPart n)). }
  rewrite N. cbn [andb].
  destruct (fracPart n) as [|c f] eqn:E.
  - reflexivity.
  - cbn [Str.isEmpty append]. rewrite (span_all _ _ F). reflexivity.
Qed.

Lemma numValue_nonneg (n : Numeral) : (0 <= numValue n)%Q.
Proof.
  unfold numValue, Qle. cbn [Qnum Qden].
  assert (0 <= digitsValue 10 (digitsValue 10 0 (intPart n)) (fracPart n)).
  { apply digitsValue_nonneg; [lia|]. apply digitsValue_nonneg; lia. }
  lia.
Qed.

Lemma hue_of_text (n : Numeral) :
  validNum n = true ->
  hueValue (Num.div (parseFloat (writeNum n)) (Num.lit 360 1)).
Proof.
  intros V. rewrite (parseFloat_num n V), lit360.
  destruct (RN_nonneg _ (numValue_nonneg n)) as [->|(v & -> & P)].
  - left. reflexivity.
  - unfold Num.div. change (Num.iszero 360) with false. cbv iota.
    destruct (RN_nonneg (v / 360)) as [E|(w & E & W)].
    + apply Qle_shift_div_l; [reflexivity|]. lra.
    + left. exact E.
    + right. exists w. split; assumption.
Qed.

Lemma percent_of_text (n : Numeral) :
  validNum n = true -> Qle_bool (numValue n) 100 = true ->
  exists s, Num.div (parseFloat (writeNum n)) (Num.lit 100 1) = Num.Fin s
            /\ (0 <= s)%Q /\ (s <= 1)%Q.
Proof.
  intros V B. apply Qle_bool_iff in B.
  rewrite (parseFloat_num n V), lit100.
  destruct (RN_between_ints (numValue n) 0 100 ltac:(lia) ltac:(lia))
    as (v & -> & V0 & V1).
  { apply numValue_nonneg. }
  { exact B. }
  unfold Num.div. change (Num.iszero 100) with false. cbv iota.
  change (inject_Z 0) with 0%Q in V0. change (inject_Z 100) with 100%Q in V1.
  destruct (RN_between_ints (v / 100) 0 1 ltac:(lia) ltac:(lia))
    as (s & -> & S0 & S1).
  { apply Qle_shift_div_l; [reflexivity|]. change (inject_Z 0) with 0%Q. lra. }
  { apply Qle_shift_div_r; [reflexivity|]. change (inject_Z 1) with 1%Q. lra. }
  exists s. split; [reflexivity|]. split; assumption.
Qed.

Lemma white_notR (c : ascii) : Str.isWhite c = true -> notR c = true.
Proof.
  destruct c as [[] [] [] [] [] [] [] []]; intros H;
    try discriminate H; reflexivity.
Qed.

Lemma validHsl_spec (x : HslText) :
  validHsl x = true ->
  (isSpaces (hslSp1 x) = true /\ isSpaces (hslSp2 x) = true
   /\ isSpaces (hslSp3 x) = true /\ isSpaces (hslSp4 x) = true
   /\ isSpaces (hslSp5 x) = true)
  /\ (validNum (hue x) = true /\ validNum (saturation x) = true
      /\ validNum (lightness x) = true)
  /\ (Qle_bool (numValue (saturation x)) 100 = true
      /\ Qle_bool (numValue (lightness x)) 100 = true)
  /\ allChars notR (hslTail x) = true.
Proof.
  unfold validHsl. intros V.
  repeat (apply andb_true_iff in V; destruct V as [V ?]).
  repeat split; assumption.
Qed.

Lemma hslMatch_write (x : HslText) :
  validHsl x = true ->
  Regex.hslMatch (writeHsl x)
  = Some (writeNum (hue x), writeNum (saturation x), writeNum (lightness x))
  /\ Regex.rgbMatch (writeHsl x) = None.
Proof.
  intros V. apply validHsl_spec in V.
  destruct V as ((W1 & W2 & W3 & W4 & W5) & (NH & NS & NL) & _ & T).
  destruct (num_facts _ NL) as (L0 & L1 & L2).
  destruct (num_facts _ NS) as (S0 & S1 & S2).
  destruct (num_facts _ NH) as (U0 & U1 & U2).
  assert (WR : forall s, isSpaces s = true -> allChars notR s = true).
  { intros s. apply allChars_impl. exact white_notR. }
  split.
  - assert (A2 : forall z, headIs Regex.isNumChar (hslSp2 x ++ "," ++ z) = false).
    { intros z. apply (head_app _ Str.isWhite _ ","%char);
        [exact white_not_num|assumption|reflexivity]. }
    assert (C2 : forall z, Str.trimStart (hslSp2 x ++ "," ++ z) = "," ++ z).
    { intros z. now apply (sep_app _ ","%char). }
    assert (C4 : forall z, Str.trimStart (hslSp4 x ++ "," ++ z) = "," ++ z).
    { intros z. now apply (sep_app _ ","%char). }
    assert (J : forall a, Regex.isNumChar a = true -> Str.isWhite a = false).
    { intros a. destruct a as [[] [] [] [] [] [] [] []]; intros Ha;
        try discriminate Ha; reflexivity. }
    assert (P : forall z, headIs Regex.isNumChar ("%" ++ z) = false)
      by reflexivity.
    apply search_head. unfold Regex.hslAt, writeHsl.
    rewrite expect_app. cbn [Regex.obind].
    rewrite optional_alpha, expect_app. cbn [Regex.obind].
    rewrite (field_app Regex.isNumChar _ _ _ white_not_num J W1 U0 U1 (A2 _)).
    cbn [Regex.obind].
    rewrite C2, expect_app. cbn [Regex.obind].
    rewrite (field_app Regex.isNumChar _ _ _ white_not_num J W3 S0 S1 (P _)).
    cbn [Regex.obind].
    rewrite expect_app. cbn [Regex.obind].
    rewrite C4, expect_app. cbn [Regex.obind].
    rewrite (field_app Regex.isNumChar _ _ _ white_not_num J W5 L0 L1 (P _)).
    cbn [Regex.obind].
    rewrite expect_app. reflexivity.
  - apply no_r_no_rgb. unfold writeHsl.
    repeat rewrite allChars_app.
    rewrite (WR _ W1), (WR _ W2), (WR _ W3), (WR _ W4), (WR _ W5).
    rewrite U2, S2, L2, T.
    destruct (hslAlpha x); reflexivity.
Qed.

Lemma hsl_input (color : string) (x : HslText) :
  validHsl x = true -> Str.trim color = writeHsl x ->
  exists h, rgbaToHex (VStr color) = VStr h /\ isCanonical h = true.
Proof.
  intros V T. destruct (hslMatch_write x V) as [M R].
  apply validHsl_spec in V.
  destruct V as (_ & (NH & NS & NL) & (BS & BL) & _).
  assert (NC : Str.isEmpty color = false).
  { destruct color; [discriminate T|reflexivity]. }
  assert (S : Str.startsWith (Str.trim color) "#" = false).
  { destruct (Str.startsWith (Str.trim color) "#") eqn:S; [|reflexivity].
    apply startsWith_hash in S. destruct S as [r S]. rewrite S in T.
    discriminate T. }
  pose proof (hue_of_text _ NH) as Hh.
  destruct (percent_of_text _ NS BS) as (s & Es & S0 & S1).
  destruct (percent_of_text _ NL BL) as (l & El & L0 & L1).
  unfold rgbaToHex. rewrite NC, S, T, R, M, Es, El.
  destruct (hslToHex_bytes _ s l Hh S0 S1 L0 L1)
    as (nr & ng & nb & -> & Br & Bg & Bb).
  eexists. split; [reflexivity|]. now apply triple_canonical.
Qed.

(** C6.  For every input whose trimmed text is a valid hexadecimal
    ([#RGB], [#RRGGBB], [#RRGGBBAA]), [rgb()]/[rgba()], [hsl()]/[hsla()] or
    named colour, [rgbaToHex] returns a canonical [#RRGGBB] string, and
    normalising that string again returns it unchanged; in particular
    [#abc] gives [#aabbcc] and [#FF6600AA] gives [#FF6600]. *)
Theorem rgbaToHex_canonical :
  (forall color,
     validColor (Str.trim color) ->
     exists h, rgbaToHex (VStr color) = VStr h
               /\ isCanonical h = true
               /\ rgbaToHex (VStr h) = VStr h
               /\ rgbaToHex (rgbaToHex (VStr color)) = rgbaToHex (VStr color))
  /\ rgbaToHex (VStr "#abc") = VStr "#aabbcc"
  /\ rgbaToHex (VStr "#FF6600AA") = VStr "#FF6600".
Proof.
  split; [|split; reflexivity].
  intros color V.
  assert (E : exists h, rgbaToHex (VStr color) = VStr h /\ isCanonical h = true).
  { destruct V as [H|[(x & V & T)|[(x & V & T)|N]]].
    - now apply hex_input.
    - now apply (rgb_input color x).
    - now apply (hsl_input color x).
    - now apply named_input. }
  destruct E as (h & E & C). exists h.
  pose proof (canonical_fixed h C) as F.
  split; [exact E|]. split; [exact C|]. split; [exact F|]. now rewrite E.
Qed.

Lemma rgbaToHex_canonical_witness :
  (exists h, rgbaToHex (VStr "  hsl(210, 65.5%, 43%) ") = VStr h
             /\ isCanonical h = true
             /\ rgbaToHex (VStr h) = VStr h
             /\ rgbaToHex (rgbaToHex (VStr "  hsl(210, 65.5%, 43%) "))
                = rgbaToHex (VStr "  hsl(210, 65.5%, 43%) "))
  /\ (exists h, rgbaToHex (VStr "rgba(255, 102, 0, 0.5)") = VStr h
                /\ isCanonical h = true
                /\ rgbaToHex (VStr h) = VStr h
                /\ rgbaToHex (rgbaToHex (VStr "rgba(255, 102, 0, 0.5)"))
                   = rgbaToHex (VStr "rgba(255, 102, 0, 0.5)")).
Proof.
  split.
  - apply (proj1 rgbaToHex_canonical). right. right. left.
    exists (mkHslText false EmptyString (mkNumeral "210" EmptyString) EmptyString " "
              (mkNumeral "65" "5") EmptyString " " (mkNumeral "43" EmptyString) ")").
    split; reflexivity.
  - apply (proj1 rgbaToHex_canonical). right. left.
    exists (mkRgbText true EmptyString "255" EmptyString " " "102" EmptyString " " "0" ", 0.5)").
    split; reflexivity.
Defined.

(** The range conditions of [validRgb] and [validHsl] are needed: a
    component above 255 is written with three hexadecimal digits, and a
    saturation above 100% yields channels outside 0..255. *)
Example rgbaToHex_out_of_range :
  rgbaToHex (VStr "rgb(300, 0, 0)") = VStr "#12c0000"
  /\ rgbaToHex (VStr "hsl(0, 200%, 50%)") = VStr "#17f-7f-7f".
Proof. split; vm_compute; reflexivity. Qed.

(* ================================================================= *)
(** * Further properties *)

Lemma splitSign_hex (s : string) :
  headIs Str.isHexDigit s = true -> splitSign s = (false, s).
Proof.
  destruct s as [|c r]; [discriminate|]. simpl.
  destruct c as [[] [] [] [] [] [] [] []]; intros H;
    try discriminate H; reflexivity.
Qed.

Lemma hex_no_prefix (s : string) :
  allChars Str.isHexDigit s = true ->
  String.prefix "0x" s || String.prefix "0X" s = false.
Proof.
  intros D. apply orb_false_iff. split.
  - destruct (String.prefix "0x" s) eqn:E; [|reflexivity].
    apply prefix_second in E. destruct E as [r ->]. discriminate D.
  - destruct (String.prefix "0X" s) eqn:E; [|reflexivity].
    apply prefix_second in E. destruct E as [r ->]. discriminate D.
Qed.

Lemma parseInt_hex (s : string) :
  Str.isEmpty s = false -> allChars Str.isHexDigit s = true ->
  digitsValue 16 0 s < 2 ^ 53 ->
  parseInt s 16 = Num.IInt (digitsValue 16 0 s).
Proof.
  intros N D B.
  assert (Hd : headIs Str.isHexDigit s = true).
  { destruct s as [|a s]; [discriminate N|]. simpl in *.
    now apply andb_true_iff in D. }
  unfold parseInt.
  rewrite trimStart_head.
  2:{ destruct s as [|a s]; [discriminate N|]. simpl in *.
      now apply hex_not_white. }
  rewrite (splitSign_hex s Hd).
  change (16 =? 0) with false. change (16 =? 16) with true.
  change ((16 <? 2) || (36 <? 16)) with false.
  cbv iota. cbn [andb orb].
  rewrite (hex_no_prefix s D). cbv iota beta.
  rewrite (span_all (isRadixDigit 16) s D).
  cbn [fst]. rewrite N.
  apply int_of_Z_exact. split; [|exact B].
  apply digitsValue_nonneg; lia.
Qed.


Lemma in_bytes (n : Z) : 0 <= n < 256 -> In n bytes.
Proof.
  intros H. apply in_map_iff. exists (Z.to_nat n).
  split; [lia|]. apply in_seq. lia.
Qed.

Lemma all_ties_ok : forallb (fun r => forallb (tieOk r) bytes) bytes = true.
Proof. vm_compute. reflexivity. Qed.

Open Scope Q_scope.

Lemma RN_256 (x : Q) :
  -256 <= x -> x <= 256 ->
  exists v, Num.RN x = Num.Fin v
            /\ x - (1 # 2 ^ 45) <= v /\ v <= x + (1 # 2 ^ 45).
Proof.
  intros L U. destruct (RN_approx x 8 ltac:(lia)) as (v & E & B).
  { change (Num.pow2 8) with 256. apply Qabs_Qle_condition. split; lra. }
  change (Num.pow2 (8 - 53)) with (1 # 2 ^ 45) in B.
  apply Qabs_Qle_condition in B.
  exists v. split; [exact E|]. split; lra.
Qed.

Lemma lit_thousandth (n : Z) :
  (0 <= n <= 1000)%Z ->
  exists c, Num.lit n 1000 = Num.Fin c
            /\ (n # 1000) - (1 # 2 ^ 53) <= c /\ c <= (n # 1000) + (1 # 2 ^ 53).
Proof.
  intros H. unfold Num.lit.
  assert (B0 : 0 <= n # 1000).
  { unfold Qle. simpl. lia. }
  assert (B1 : n # 1000 <= 1).
  { unfold Qle. simpl. lia. }
  destruct (RN_approx (n # 1000) 0 ltac:(lia)) as (v & E & B).
  { change (Num.pow2 0) with 1. apply Qabs_Qle_condition. split; lra. }
  change (Num.pow2 (0 - 53)) with (1 # 2 ^ 53) in B.
  apply Qabs_Qle_condition in B.
  exists v. split; [exact E|]. split; lra.
Qed.

(** The computed luminance is within 10^-9 of the exact one. *)
Lemma luminance_error (r g b : Z) :
  (0 <= r < 256)%Z -> (0 <= g < 256)%Z -> (0 <= b < 256)%Z ->
  exists v, luminance r g b = Num.Fin v
            /\ inject_Z (luma r g b) / 1000 - (1 # 1000000000) <= v
            /\ v <= inject_Z (luma r g b) / 1000 + (1 # 1000000000).
Proof.
  intros Hr Hg Hb. unfold luminance, luma.
  destruct (lit_thousandth 299 ltac:(lia)) as (c1 & -> & L1 & U1).
  destruct (lit_thousandth 587 ltac:(lia)) as (c2 & -> & L2 & U2).
  destruct (lit_thousandth 114 ltac:(lia)) as (c3 & -> & L3 & U3).
  assert (R0 : 0 <= inject_Z r <= 255).
  { split; [change 0 with (inject_Z 0)|change 255 with (inject_Z 255)];
      rewrite <- Zle_Qle; lia. }
  assert (G0 : 0 <= inject_Z g <= 255).
  { split; [change 0 with (inject_Z 0)|change 255 with (inject_Z 255)];
      rewrite <- Zle_Qle; lia. }
  assert (B0 : 0 <= inject_Z b <= 255).
  { split; [change 0 with (inject_Z 0)|change 255 with (inject_Z 255)];
      rewrite <- Zle_Qle; lia. }
  assert (D53 : (1 # 2 ^ 53) <= 1 # 1000000000000000) by discriminate.
  assert (D45 : (1 # 2 ^ 45) <= 1 # 10000000000000) by discriminate.
  assert (P53 : 0 < 1 # 2 ^ 53) by reflexivity.
  assert (P45 : 0 < 1 # 2 ^ 45) by reflexivity.
  cbn [Num.of_int Num.mul].
  set (R := inject_Z r) in *. set (G := inject_Z g) in *.
  set (B := inject_Z b) in *.
  assert (A1 : (299 # 1000) * R - (1 # 1000000000000) <= c1 * R
               /\ c1 * R <= (299 # 1000) * R + (1 # 1000000000000)) by (split; nra).
  assert (A2 : (587 # 1000) * G - (1 # 1000000000000) <= c2 * G
               /\ c2 * G <= (587 # 1000) * G + (1 # 1000000000000)) by (split; nra).
  assert (A3 : (114 # 1000) * B - (1 # 1000000000000) <= c3 * B
               /\ c3 * B <= (114 # 1000) * B + (1 # 1000000000000)) by (split; nra).
  destruct A1 as [A1 A1']. destruct A2 as [A2 A2']. destruct A3 as [A3 A3'].
  destruct (RN_256 (c1 * R)) as (p1 & -> & Lp1 & Up1); try lra.
  destruct (RN_256 (c2 * G)) as (p2 & -> & Lp2 & Up2); try lra.
  destruct (RN_256 (c3 * B)) as (p3 & -> & Lp3 & Up3); try lra.
  cbn [Num.add].
  destruct (RN_256 (p1 + p2)) as (s1 & -> & Ls1 & Us1); try lra.
  cbn [Num.add].
  destruct (RN_256 (s1 + p3)) as (v & -> & Lv & Uv); try lra.
  exists v. split; [reflexivity|].
  rewrite !inject_Z_plus, !inject_Z_mult. fold R G B.
  change (inject_Z 299) with 299. change (inject_Z 587) with 587.
  change (inject_Z 114) with 114.
  unfold Qdiv. change (/ 1000) with (1 # 1000).
  split; lra.
Qed.

Close Scope Q_scope.

Lemma lit128 : Num.lit 128 1 = Num.Fin 128.
Proof. vm_compute. reflexivity. Qed.

(** The comparison of [detectTheme] decides as the exact sum does. *)
Lemma luminance_exact (r g b : Z) :
  0 <= r < 256 -> 0 <= g < 256 -> 0 <= b < 256 ->
  Num.gtb (luminance r g b) (Num.lit 128 1) = (128000 <? luma r g b).
Proof.
  intros Hr Hg Hb.
  destruct (Z.lt_trichotomy (luma r g b) 128000) as [L|[E|G]].
  - destruct (luminance_error r g b Hr Hg Hb) as (v & Ev & _ & U).
    rewrite Ev, lit128. unfold Num.gtb.
    replace (128000 <? luma r g b) with false by (symmetry; apply Z.ltb_ge; lia).
    apply ltb_Fin_false.
    assert (I : (inject_Z (luma r g b) <= inject_Z 127999)%Q)
      by (rewrite <- Zle_Qle; lia).
    change (inject_Z 127999) with (127999 # 1)%Q in I.
    unfold Qdiv in U. change (/ 1000)%Q with (1 # 1000)%Q in U. lra.
  - pose proof all_ties_ok as A. rewrite forallb_forall in A.
    specialize (A r (in_bytes r Hr)). rewrite forallb_forall in A.
    specialize (A g (in_bytes g Hg)). unfold tieOk in A. unfold luma in E.
    replace (128000 - 299 * r - 587 * g) with (b * 114) in A by lia.
    rewrite Z.mod_mul, Z.div_mul in A by lia.
    replace (0 <=? b * 114) with true in A by (symmetry; apply Z.leb_le; lia).
    replace (b <? 256) with true in A by (symmetry; apply Z.ltb_lt; lia).
    cbn [andb Z.eqb] in A. apply negb_true_iff in A. rewrite A.
    symmetry. apply Z.ltb_ge. unfold luma. lia.
  - destruct (luminance_error r g b Hr Hg Hb) as (v & Ev & Lv & _).
    rewrite Ev, lit128. unfold Num.gtb.
    replace (128000 <? luma r g b) with true by (symmetry; apply Z.ltb_lt; lia).
    apply ltb_Fin.
    assert (I : (inject_Z 128001 <= inject_Z (luma r g b))%Q)
      by (rewrite <- Zle_Qle; lia).
    change (inject_Z 128001) with (128001 # 1)%Q in I.
    unfold Qdiv in Lv. change (/ 1000)%Q with (1 # 1000)%Q in Lv. lra.
Qed.

Lemma toInt32_wrap (v : Z) :
  exists k, Num.toInt32 (Num.IInt v) = v + k * 4294967296.
Proof.
  unfold Num.toInt32.
  change (2 ^ 31) with 2147483648. change (2 ^ 32) with 4294967296.
  exists (- ((v + 2147483648) / 4294967296)).
  pose proof (Z.div_mod (v + 2147483648) 4294967296 ltac:(lia)). lia.
Qed.

Lemma channel_bits (v : Z) :
  channel (Num.toInt32 (Num.IInt v)) 16 = (v / 65536) mod 256
  /\ channel (Num.toInt32 (Num.IInt v)) 8 = (v / 256) mod 256
  /\ channel (Num.toInt32 (Num.IInt v)) 0 = v mod 256.
Proof.
  destruct (toInt32_wrap v) as [k ->]. unfold channel.
  change 255 with (Z.ones 8).
  rewrite !Z.land_ones, !Z.shiftr_div_pow2 by lia.
  change (2 ^ 8) with 256. change (2 ^ 16) with 65536.
  change (2 ^ 0) with 1. rewrite Z.div_1_r.
  split; [|split].
  - replace (v + k * 4294967296) with (v + (k * 65536) * 65536) by lia.
    rewrite Z.div_add by lia.
    replace (v / 65536 + k * 65536) with (v / 65536 + (k * 256) * 256) by lia.
    now rewrite Z.mod_add by lia.
  - replace (v + k * 4294967296) with (v + (k * 16777216) * 256) by lia.
    rewrite Z.div_add by lia.
    replace (v / 256 + k * 16777216) with (v / 256 + (k * 65536) * 256) by lia.
    now rewrite Z.mod_add by lia.
  - replace (v + k * 4294967296) with (v + (k * 16777216) * 256) by lia.
    now rewrite Z.mod_add by lia.
Qed.

Lemma hexDigit_value (c : ascii) :
  Str.isHexDigit c = true -> exists v, Str.digitValue c = Some v /\ 0 <= v < 16.
Proof.
  unfold Str.isHexDigit. destruct (Str.digitValue c) as [v|] eqn:E;
    [|discriminate].
  intros H. apply Z.ltb_lt in H. apply digitValue_range in E.
  exists v. split; [reflexivity|lia].
Qed.

Lemma hash_startsWith (s : string) : Str.startsWith (String "#" s) "#" = true.
Proof.
  unfold Str.startsWith. apply String.prefix_correct. simpl. now destruct s.
Qed.

(** [detectTheme] on [#] followed by six or more hexadecimal digits: the
    channels are the three low bytes of the number the digits write. *)
Lemma detectTheme_hex (c : BrandColors) (s : string) :
  background c = VStr (String "#" s) ->
  allChars Str.isHexDigit s = true -> (6 <= String.length s)%nat ->
  digitsValue 16 0 s < 2 ^ 53 ->
  detectTheme c
  = Normal (let v := digitsValue 16 0 s in
            themeOf ((v / 65536) mod 256) ((v / 256) mod 256) (v mod 256)).
Proof.
  intros E D L B. unfold detectTheme. rewrite E.
  cbn [Str.isEmpty orb].
  rewrite hash_startsWith.
  replace (Z.of_nat (String.length (String "#" s)) <? 7) with false
    by (symmetry; apply Z.ltb_ge; cbn [String.length]; lia).
  cbn [negb orb Str.sliceFrom Str.drop].
  rewrite parseInt_hex; [|now destruct s|exact D|exact B].
  cbn [Num.isNaN].
  destruct (channel_bits (digitsValue 16 0 s)) as (-> & -> & ->).
  cbv zeta. rewrite luminance_exact by (apply Z.mod_pos_bound; lia).
  unfold themeOf. now destruct (128000 <? _).
Qed.

Lemma byteOf_value (hi lo : ascii) (a b : Z) :
  Str.digitValue hi = Some a -> Str.digitValue lo = Some b ->
  byteOf hi lo = 16 * a + b.
Proof. intros H L. unfold byteOf. now rewrite H, L. Qed.

Lemma low_bytes (h r g b : Z) :
  0 <= h -> 0 <= r < 256 -> 0 <= g < 256 -> 0 <= b < 256 ->
  let v := 16777216 * h + 65536 * r + 256 * g + b in
  (v / 65536) mod 256 = r /\ (v / 256) mod 256 = g /\ v mod 256 = b.
Proof.
  intros H R G B v. subst v.
  assert (D1 : (16777216 * h + 65536 * r + 256 * g + b) / 65536 = 256 * h + r).
  { symmetry. apply (Z.div_unique_pos _ 65536 _ (256 * g + b)); lia. }
  assert (D2 : (16777216 * h + 65536 * r + 256 * g + b) / 256
               = 65536 * h + 256 * r + g).
  { symmetry. apply (Z.div_unique_pos _ 256 _ b); lia. }
  rewrite D1, D2. split; [|split]; symmetry.
  - apply (Z.mod_unique_pos _ 256 h); lia.
  - apply (Z.mod_unique_pos _ 256 (256 * h + r)); lia.
  - apply (Z.mod_unique_pos _ 256 (65536 * h + 256 * r + g)); lia.
Qed.

(** [detectTheme] on a canonical background decides by the exact weighted
    sum of its channels: light when [299 r + 587 g + 114 b > 128000], dark
    otherwise; rounding never changes the verdict. *)
Theorem detectTheme_exact (c : BrandColors) (bg : string) :
  background c = VStr bg -> isCanonical bg = true ->
  detectTheme c = Normal (let '(r, g, b) := channelsOf bg in themeOf r g b).
Proof.
  intros E H.
  destruct (canonical_shape bg H)
    as (a1 & a2 & a3 & a4 & a5 & a6 & -> & H1 & H2 & H3 & H4 & H5 & H6).
  destruct (hexDigit_value _ H1) as (v1 & E1 & B1).
  destruct (hexDigit_value _ H2) as (v2 & E2 & B2).
  destruct (hexDigit_value _ H3) as (v3 & E3 & B3).
  destruct (hexDigit_value _ H4) as (v4 & E4 & B4).
  destruct (hexDigit_value _ H5) as (v5 & E5 & B5).
  destruct (hexDigit_value _ H6) as (v6 & E6 & B6).
  assert (V : digitsValue 16 0
                (String a1 (String a2 (String a3 (String a4 (String a5
                   (String a6 EmptyString))))))
              = 16777216 * 0 + 65536 * (16 * v1 + v2) + 256 * (16 * v3 + v4)
                + (16 * v5 + v6)).
  { cbn [digitsValue]. rewrite E1, E2, E3, E4, E5, E6. lia. }
  rewrite (detectTheme_hex c _ E).
  - rewrite V. cbn [channelsOf].
    rewrite (byteOf_value _ _ _ _ E1 E2), (byteOf_value _ _ _ _ E3 E4),
      (byteOf_value _ _ _ _ E5 E6).
    destruct (low_bytes 0 (16 * v1 + v2) (16 * v3 + v4) (16 * v5 + v6))
      as (-> & -> & ->); try lia.
    reflexivity.
  - cbn [allChars]. now rewrite H1, H2, H3, H4, H5, H6.
  - cbn [String.length]. lia.
  - rewrite V. lia.
Qed.

Lemma detectTheme_exact_witness :
  detectTheme (mkColors (VStr "#0066FF") (VStr "#003D99") (VStr "#66B3FF")
                        (VStr "#808080")) = Normal dark.
Proof.
  apply (detectTheme_exact
           (mkColors (VStr "#0066FF") (VStr "#003D99") (VStr "#66B3FF")
                     (VStr "#808080")) "#808080"); reflexivity.
Defined.

(** An alpha suffix shifts the channels [detectTheme] reads: on
    [#RRGGBBAA] the 32-bit arithmetic keeps the three low bytes, so the
    verdict is the one of the colour [#GGBBAA]. *)
Theorem detectTheme_alpha_shift (c : BrandColors) (bg : string) :
  background c = VStr bg -> isHexOfLength 8 bg = true ->
  detectTheme c
  = Normal (let '(r, g, b) := channelsOf (String "#" (Str.drop 3 bg)) in
            themeOf r g b).
Proof.
  intros E H.
  destruct (hexOfLength_shape 8 bg H) as (s & -> & D & L).
  destruct s as [|a1 [|a2 [|a3 [|a4 [|a5 [|a6 [|a7 [|a8 [|x s]]]]]]]]];
    try discriminate L.
  cbn [allChars] in D.
  repeat match type of D with
         | _ && _ = true => apply andb_true_iff in D; destruct D as [? D]
         end.
  destruct (hexDigit_value a1) as (v1 & E1 & B1); [assumption|].
  destruct (hexDigit_value a2) as (v2 & E2 & B2); [assumption|].
  destruct (hexDigit_value a3) as (v3 & E3 & B3); [assumption|].
  destruct (hexDigit_value a4) as (v4 & E4 & B4); [assumption|].
  destruct (hexDigit_value a5) as (v5 & E5 & B5); [assumption|].
  destruct (hexDigit_value a6) as (v6 & E6 & B6); [assumption|].
  destruct (hexDigit_value a7) as (v7 & E7 & B7); [assumption|].
  destruct (hexDigit_value a8) as (v8 & E8 & B8); [assumption|].
  assert (V : digitsValue 16 0
                (String a1 (String a2 (String a3 (String a4 (String a5
                   (String a6 (String a7 (String a8 EmptyString))))))))
              = 16777216 * (16 * v1 + v2) + 65536 * (16 * v3 + v4)
                + 256 * (16 * v5 + v6) + (16 * v7 + v8)).
  { cbn [digitsValue]. rewrite E1, E2, E3, E4, E5, E6, E7, E8. lia. }
  rewrite (detectTheme_hex c _ E).
  - rewrite V. cbn [Str.drop channelsOf].
    rewrite (byteOf_value _ _ _ _ E3 E4), (byteOf_value _ _ _ _ E5 E6),
      (byteOf_value _ _ _ _ E7 E8).
    destruct (low_bytes (16 * v1 + v2) (16 * v3 + v4) (16 * v5 + v6)
                (16 * v7 + v8)) as (-> & -> & ->); try lia.
    reflexivity.
  - cbn [allChars].
    repeat match goal with
           | H : Str.isHexDigit _ = true |- _ => rewrite H; clear H
           end.
    reflexivity.
  - cbn [String.length]. lia.
  - rewrite V. lia.
Qed.

Lemma detectTheme_alpha_shift_witness :
  detectTheme (mkColors (VStr "#0066FF") (VStr "#003D99") (VStr "#66B3FF")
                        (VStr "#FFFF0000")) = Normal dark
  /\ detectTheme (mkColors (VStr "#0066FF") (VStr "#003D99") (VStr "#66B3FF")
                           (VStr "#FFFF00")) = Normal light.
Proof.
  split.
  - apply (detectTheme_alpha_shift
             (mkColors (VStr "#0066FF") (VStr "#003D99") (VStr "#66B3FF")
                       (VStr "#FFFF0000")) "#FFFF0000"); reflexivity.
  - vm_compute. reflexivity.
Defined.

Lemma removeFirst_hash (s : string) : Str.removeFirst "#" (String "#" s) = s.
Proof.
  unfold Str.removeFirst.
  change (String.prefix "#" (String "#" s)) with (Str.startsWith (String "#" s) "#").
  now rewrite hash_startsWith.
Qed.

Lemma hex_lower (c : ascii) :
  Str.isHexDigit c = true ->
  Str.isHexDigit (Str.lowerChar c) = true
  /\ Str.digitValue (Str.lowerChar c) = Str.digitValue c.
Proof.
  destruct c as [[] [] [] [] [] [] [] []]; intros H;
    try discriminate H; split; reflexivity.
Qed.

(** [darkenHex] on a string that begins with a canonical colour. *)
Lemma darkenHex_prefix (a b c d e f : ascii) (rest : string) (k : Num.number) :
  darkenHex (VStr (String "#" (String a (String b (String c (String d
               (String e (String f rest)))))))) k
  = (let r := parseInt (String a (String b EmptyString)) 16 in
     let g := parseInt (String c (String d EmptyString)) 16 in
     let b := parseInt (String e (String f EmptyString)) 16 in
     if Num.isNaN r || Num.isNaN g || Num.isNaN b then Normal darkenDefault
     else Normal (hexTriple (Num.mul (Num.of_int r) k)
                            (Num.mul (Num.of_int g) k)
                            (Num.mul (Num.of_int b) k))).
Proof.
  unfold darkenHex. rewrite hash_startsWith, removeFirst_hash.
  replace (Z.of_nat (String.length _) <? 7) with false
    by (symmetry; apply Z.ltb_ge; cbn [String.length]; lia).
  cbn [negb orb]. unfold Str.slice. cbn [Nat.sub String.substring].
  replace (String.substring 0 0 rest) with EmptyString by now destruct rest.
  reflexivity.
Qed.

(** [darkenHex] reads the six digits after the [#] and nothing else: what
    follows them (an alpha component) is ignored, and so is the case of the
    digits. *)
Theorem darkenHex_reads_six_digits (hex rest : string) (k : Num.number) :
  isCanonical hex = true ->
  darkenHex (VStr (hex ++ rest)) k = darkenHex (VStr hex) k
  /\ darkenHex (VStr (Str.toLowerCase hex)) k = darkenHex (VStr hex) k.
Proof.
  intros H.
  destruct (canonical_shape hex H)
    as (a & b & c & d & e & f & -> & Ha & Hb & Hc & Hd & He & Hf).
  split.
  - cbn [append]. now rewrite !darkenHex_prefix.
  - cbn [Str.toLowerCase].
    change (Str.lowerChar "#") with "#"%char.
    rewrite !darkenHex_prefix.
    destruct (hex_lower a Ha) as [La Va]. destruct (hex_lower b Hb) as [Lb Vb].
    destruct (hex_lower c Hc) as [Lc Vc]. destruct (hex_lower d Hd) as [Ld Vd].
    destruct (hex_lower e He) as [Le Ve]. destruct (hex_lower f Hf) as [Lf Vf].
    destruct (hex_pair _ _ La Lb) as (-> & _). destruct (hex_pair _ _ Lc Ld) as (-> & _).
    destruct (hex_pair _ _ Le Lf) as (-> & _).
    destruct (hex_pair _ _ Ha Hb) as (-> & _). destruct (hex_pair _ _ Hc Hd) as (-> & _).
    destruct (hex_pair _ _ He Hf) as (-> & _).
    unfold byteOf. now rewrite Va, Vb, Vc, Vd, Ve, Vf.
Qed.

Lemma darkenHex_reads_six_digits_witness :
  darkenHex (VStr "#FF6600AA") (Num.lit 6 10) = darkenHex (VStr "#FF6600") (Num.lit 6 10)
  /\ darkenHex (VStr "#ff6600") (Num.lit 6 10) = darkenHex (VStr "#FF6600") (Num.lit 6 10).
Proof.
  apply (darkenHex_reads_six_digits "#FF6600" "AA" (Num.lit 6 10)). reflexivity.
Defined.

(** On the text of an [rgb()] or [rgba()] colour [rgbaToHex] writes the
    three components, each as two lower-case hexadecimal digits; the spacing
    and whatever follows the third component (an alpha value) play no
    part. *)
Theorem rgbaToHex_rgb_components (color : string) (x : RgbText) :
  validRgb x = true -> Str.trim color = writeRgb x ->
  rgbaToHex (VStr color)
  = VStr ("#" ++ twoHex (digitsValue 10 0 (red x))
              ++ twoHex (digitsValue 10 0 (green x))
              ++ twoHex (digitsValue 10 0 (blue x))).
Proof.
  intros V T. pose proof (rgbMatch_write x V) as M.
  apply validRgb_spec in V. destruct V as (_ & (R & G & B) & _).
  destruct (rgbByte_text _ R) as [Er _].
  destruct (rgbByte_text _ G) as [Eg _].
  destruct (rgbByte_text _ B) as [Eb _].
  assert (NC : Str.isEmpty color = false).
  { destruct color; [discriminate T|reflexivity]. }
  assert (S : Str.startsWith (Str.trim color) "#" = false).
  { destruct (Str.startsWith (Str.trim color) "#") eqn:S; [|reflexivity].
    apply startsWith_hash in S. destruct S as [r S]. rewrite S in T.
    discriminate T. }
  unfold rgbaToHex. now rewrite NC, S, T, M, Er, Eg, Eb.
Qed.

Lemma rgbaToHex_rgb_components_witness :
  rgbaToHex (VStr " rgba( 18 ,52,  86 , 0.25) ") = VStr "#123456".
Proof.
  apply (rgbaToHex_rgb_components " rgba( 18 ,52,  86 , 0.25) "
           (mkRgbText true " " "18" " " EmptyString "52" EmptyString "  " "86"
                      " , 0.25)")); reflexivity.
Defined.

Open Scope Q_scope.

(** ** Rounding is monotone *)

Lemma rne_comp (x y : Q) : x == y -> Num.rne x = Num.rne y.
Proof.
  intros E. unfold Num.rne. rewrite (Qfloor_comp _ _ E).
  assert (C : Qcompare (x - inject_Z (Qfloor y)) (1 # 2)
              = Qcompare (y - inject_Z (Qfloor y)) (1 # 2)).
  { apply Qcompare_comp; [now rewrite E|reflexivity]. }
  now rewrite C.
Qed.

Lemma rne_mono (x y : Q) : x <= y -> (Num.rne x <= Num.rne y)%Z.
Proof.
  intros H. destruct (Qeq_dec x y) as [E|N].
  - rewrite (rne_comp _ _ E). lia.
  - assert (L : x < y).
    { destruct (Q_dec x y) as [[?|?]|?]; [assumption|lra|contradiction]. }
    destruct (Z_le_gt_dec (Num.rne x) (Num.rne y)) as [C|C]; [exact C|].
    exfalso.
    destruct (rne_floor x) as [_ Ex]. destruct (rne_floor y) as [_ Ey].
    apply Qabs_Qle_condition in Ex, Ey.
    assert (I : inject_Z (Num.rne y) + 1 <= inject_Z (Num.rne x)).
    { change 1 with (inject_Z 1). rewrite <- inject_Z_plus, <- Zle_Qle. lia. }
    lra.
Qed.

Lemma ulp_exp_mono (a b : Q) : 0 < a -> a <= b -> (Num.ulp_exp a <= Num.ulp_exp b)%Z.
Proof.
  intros P H. destruct (ilog2_spec a P) as [L _].
  pose proof (ilog2_ge b (Num.ilog2 a) ltac:(lra) ltac:(lra)).
  unfold Num.ulp_exp. lia.
Qed.

Lemma round_mag_mono (a b : Q) :
  0 < a -> a <= b -> Num.round_mag a <= Num.round_mag b.
Proof.
  intros P H. assert (Pb : 0 < b) by lra.
  pose proof (ulp_exp_mono a b P H) as U.
  destruct (Z.eq_dec (Num.ulp_exp a) (Num.ulp_exp b)) as [E|N].
  - unfold Num.round_mag. rewrite E.
    pose proof (pow2_pos (Num.ulp_exp b)) as Pu.
    set (u := Num.pow2 (Num.ulp_exp b)) in *.
    assert (D : a / u <= b / u).
    { apply Qle_shift_div_l; [exact Pu|].
      assert (X : a / u * u == a) by (field; lra). lra. }
    apply rne_mono in D. rewrite Zle_Qle in D. nra.
  - set (k := Num.ilog2 b).
    assert (Eb : Num.ulp_exp b = (k - 52)%Z) by (unfold Num.ulp_exp in *; fold k; lia).
    assert (Ka : (Num.ilog2 a < k)%Z) by (unfold Num.ulp_exp in *; fold k in U, N; lia).
    destruct (ilog2_spec a P) as [_ Ua]. destruct (ilog2_spec b Pb) as [Lb _].
    fold k in Lb.
    assert (A : a <= Num.pow2 k).
    { pose proof (pow2_le (Num.ilog2 a + 1) k ltac:(lia)). lra. }
    assert (K : (-1074 <= k)%Z) by (unfold Num.ulp_exp in *; fold k in U, N; lia).
    destruct (pow2_on_grid a k P A K) as [m G].
    pose proof (round_mag_le a _ m G A) as R1.
    assert (G' : Num.pow2 k == inject_Z (2 ^ 52) * Num.pow2 (Num.ulp_exp b)).
    { rewrite Eb, <- pow2_of_Z, <- pow2_add by lia.
      now replace (52 + (k - 52))%Z with k by lia. }
    pose proof (round_mag_ge b _ _ G' Lb) as R2. lra.
Qed.

(** Rounding preserves the order of finite results. *)
Lemma RN_mono (x y vx vy : Q) :
  x <= y -> Num.RN x = Num.Fin vx -> Num.RN y = Num.Fin vy -> vx <= vy.
Proof.
  intros H Ex Ey.
  destruct (Q_dec x 0) as [[Nx|Px]|Zx].
  - destruct (RN_neg x Nx) as [[C _]|(w & C & W & _)]; rewrite C in Ex;
      [discriminate Ex|]. injection Ex as <-.
    pose proof (round_mag_ge_0 (- x) ltac:(lra)) as R0.
    destruct (Q_dec y 0) as [[Ny|Py]|Zy].
    + destruct (RN_neg y Ny) as [[C' _]|(w' & C' & W' & _)]; rewrite C' in Ey;
        [discriminate Ey|]. injection Ey as <-.
      pose proof (round_mag_mono (- y) (- x) ltac:(lra) ltac:(lra)). lra.
    + destruct (RN_pos y Py) as [[C' _]|(w' & C' & W' & _)]; rewrite C' in Ey;
        [discriminate Ey|]. injection Ey as <-.
      pose proof (round_mag_ge_0 y ltac:(lra)). lra.
    + rewrite (RN_zero y Zy) in Ey. injection Ey as <-. lra.
  - assert (Py : 0 < y) by lra.
    destruct (RN_pos x Px) as [[C _]|(w & C & W & _)]; rewrite C in Ex;
      [discriminate Ex|]. injection Ex as <-.
    destruct (RN_pos y Py) as [[C' _]|(w' & C' & W' & _)]; rewrite C' in Ey;
      [discriminate Ey|]. injection Ey as <-.
    pose proof (round_mag_mono x y Px H). lra.
  - rewrite (RN_zero x Zx) in Ex. injection Ex as <-.
    destruct (Q_dec y 0) as [[Ny|Py]|Zy]; [lra| |].
    + destruct (RN_pos y Py) as [[C' _]|(w' & C' & W' & _)]; rewrite C' in Ey;
        [discriminate Ey|]. injection Ey as <-.
      pose proof (round_mag_ge_0 y ltac:(lra)). lra.
    + rewrite (RN_zero y Zy) in Ey. injection Ey as <-. lra.
Qed.

(** Above a value that rounds to [v0] the result is +infinity or at least
    [v0]. *)
Lemma RN_above (x0 x v0 : Q) :
  0 <= x0 -> x0 <= x -> Num.RN x0 = Num.Fin v0 ->
  Num.RN x = Num.Inf false \/ exists v, Num.RN x = Num.Fin v /\ v0 <= v.
Proof.
  intros P H E0. destruct (RN_nonneg x ltac:(lra)) as [I|(v & E & _)];
    [now left|].
  right. exists v. split; [exact E|]. exact (RN_mono x0 x v0 v H E0 E).
Qed.

Close Scope Q_scope.

Lemma all_bytes_read_back : forallb readsBack bytes = true.
Proof. vm_compute. reflexivity. Qed.

Lemma channelsOf_triple (r g b : Z) :
  0 <= r < 256 -> 0 <= g < 256 -> 0 <= b < 256 ->
  channelsOf ("#" ++ twoHex r ++ twoHex g ++ twoHex b) = (r, g, b).
Proof.
  intros R G B. pose proof all_bytes_read_back as A.
  rewrite forallb_forall in A.
  pose proof (A r (in_bytes r R)) as Hr. pose proof (A g (in_bytes g G)) as Hg.
  pose proof (A b (in_bytes b B)) as Hb.
  unfold readsBack in Hr, Hg, Hb. unfold twoHex in *.
  apply Z.eqb_eq in Hr, Hg, Hb. cbn [append channelsOf].
  now rewrite Hr, Hg, Hb.
Qed.

(** One channel under two factors. *)
Lemma hexByte_monotone (c : Z) (k1 k2 : Q) :
  0 <= c < 256 -> (0 <= k1)%Q -> (k1 <= k2)%Q -> (k2 <= 1)%Q ->
  exists n1 n2,
    hexByte (Num.mul (Num.of_int (Num.IInt c)) (Num.Fin k1)) = twoHex n1
    /\ hexByte (Num.mul (Num.of_int (Num.IInt c)) (Num.Fin k2)) = twoHex n2
    /\ 0 <= n1 /\ n1 <= n2 /\ n2 <= c.
Proof.
  intros C K0 K12 K1.
  destruct (hexByte_scaled c k1 C K0 ltac:(lra))
    as (n1 & E1 & (B1 & v1 & M1 & L1 & U1 & _) & _).
  destruct (hexByte_scaled c k2 C ltac:(lra) K1)
    as (n2 & E2 & (B2 & v2 & M2 & L2 & U2 & _) & _).
  exists n1, n2. split; [exact E1|]. split; [exact E2|].
  split; [lia|]. split; [|lia].
  cbn [Num.of_int Num.mul] in M1, M2.
  assert (I : (0 <= inject_Z c)%Q).
  { change 0%Q with (inject_Z 0). rewrite <- Zle_Qle. lia. }
  assert (P : (inject_Z c * k1 <= inject_Z c * k2)%Q) by nra.
  pose proof (RN_mono _ _ _ _ P M1 M2) as V.
  assert (X : (inject_Z n1 < inject_Z n2 + 1)%Q) by lra.
  change 1%Q with (inject_Z 1) in X. rewrite <- inject_Z_plus, <- Zlt_Qlt in X.
  lia.
Qed.

(** Darkening is monotone in the factor and never brightens: for factors
    [k1 <= k2] between 0 and 1, each channel of [darkenHex(hex, k1)] is at
    most the same channel of [darkenHex(hex, k2)], which is at most the
    channel of [hex]. *)
Theorem darkenHex_monotone (hex : string) (k1 k2 : Q) :
  isCanonical hex = true -> (0 <= k1)%Q -> (k1 <= k2)%Q -> (k2 <= 1)%Q ->
  exists s1 s2,
    darkenHex (VStr hex) (Num.Fin k1) = Normal s1
    /\ darkenHex (VStr hex) (Num.Fin k2) = Normal s2
    /\ isCanonical s1 = true /\ isCanonical s2 = true
    /\ let '(r1, g1, b1) := channelsOf s1 in
       let '(r2, g2, b2) := channelsOf s2 in
       let '(r, g, b) := channelsOf hex in
       (0 <= r1 /\ r1 <= r2 /\ r2 <= r) /\ (0 <= g1 /\ g1 <= g2 /\ g2 <= g)
       /\ (0 <= b1 /\ b1 <= b2 /\ b2 <= b).
Proof.
  intros H K0 K12 K1.
  destruct (canonical_shape hex H)
    as (a & b & c & d & e & f & -> & Ha & Hb & Hc & Hd & He & Hf).
  destruct (hex_pair a b Ha Hb) as (Pr & _ & Br).
  destruct (hex_pair c d Hc Hd) as (Pg & _ & Bg).
  destruct (hex_pair e f He Hf) as (Pb & _ & Bb).
  rewrite !darkenHex_six, Pr, Pg, Pb. cbv zeta. cbn [Num.isNaN orb].
  unfold hexTriple.
  destruct (hexByte_monotone _ k1 k2 Br K0 K12 K1) as (r1 & r2 & -> & -> & Rr).
  destruct (hexByte_monotone _ k1 k2 Bg K0 K12 K1) as (g1 & g2 & -> & -> & Rg).
  destruct (hexByte_monotone _ k1 k2 Bb K0 K12 K1) as (b1 & b2 & -> & -> & Rb).
  do 2 eexists. split; [reflexivity|]. split; [reflexivity|].
  split; [apply triple_canonical; lia|]. split; [apply triple_canonical; lia|].
  rewrite !channelsOf_triple by lia. cbn [channelsOf]. tauto.
Qed.

Lemma darkenHex_monotone_witness :
  exists s1 s2,
    darkenHex (VStr "#FF6600") (Num.Fin (3 # 10)) = Normal s1
    /\ darkenHex (VStr "#FF6600") (Num.Fin (6 # 10)) = Normal s2
    /\ isCanonical s1 = true /\ isCanonical s2 = true
    /\ let '(r1, g1, b1) := channelsOf s1 in
       let '(r2, g2, b2) := channelsOf s2 in
       (0 <= r1 /\ r1 <= r2 /\ r2 <= 255) /\ (0 <= g1 /\ g1 <= g2 /\ g2 <= 102)
       /\ (0 <= b1 /\ b1 <= b2 /\ b2 <= 0).
Proof.
  apply (darkenHex_monotone "#FF6600" (3 # 10) (6 # 10));
    [reflexivity|discriminate|discriminate|discriminate].
Defined.

(** ** Canonical palettes *)

Lemma valid_input (color : string) :
  validColor (Str.trim color) ->
  exists h, rgbaToHex (VStr color) = VStr h /\ isCanonical h = true.
Proof.
  intros [H|[(x & V & T)|[(x & V & T)|N]]].
  - now apply hex_input.
  - now apply (rgb_input color x).
  - now apply (hsl_input color x).
  - now apply named_input.
Qed.

Lemma darkenHex_canonical (h : string) (k : Q) :
  isCanonical h = true -> (0 <= k)%Q -> (k <= 1)%Q ->
  exists s, darkenHex (VStr h) (Num.Fin k) = Normal s /\ isCanonical s = true.
Proof.
  intros H K0 K1.
  destruct (canonical_shape h H)
    as (a & b & c & d & e & f & -> & Ha & Hb & Hc & Hd & He & Hf).
  destruct (hex_pair a b Ha Hb) as (Pr & _ & Br).
  destruct (hex_pair c d Hc Hd) as (Pg & _ & Bg).
  destruct (hex_pair e f He Hf) as (Pb & _ & Bb).
  rewrite darkenHex_six, Pr, Pg, Pb. cbv zeta. cbn [Num.isNaN orb].
  unfold hexTriple.
  destruct (hexByte_scaled _ k Br K0 K1) as (nr & -> & (Sr & _) & _).
  destruct (hexByte_scaled _ k Bg K0 K1) as (ng & -> & (Sg & _) & _).
  destruct (hexByte_scaled _ k Bb K0 K1) as (nb & -> & (Sb & _) & _).
  eexists. split; [reflexivity|]. apply triple_canonical; lia.
Qed.

Lemma lit_06 : exists k, Num.lit 6 10 = Num.Fin k /\ (0 <= k)%Q /\ (k <= 1)%Q.
Proof.
  unfold Num.lit.
  destruct (RN_between_ints (6 # 10) 0 1) as (v & E & V0 & V1); try lia.
  - discriminate.
  - discriminate.
  - exists v. split; [exact E|]. split; [exact V0|exact V1].
Qed.

Lemma digitsValue_bound (s : string) :
  allChars Str.isHexDigit s = true ->
  forall acc, 0 <= acc ->
    digitsValue 16 acc s < (acc + 1) * 16 ^ Z.of_nat (String.length s).
Proof.
  induction s as [|c s IH]; intros H acc A.
  - cbn [digitsValue String.length]. change (16 ^ Z.of_nat 0) with 1. lia.
  - cbn [allChars] in H. apply andb_true_iff in H. destruct H as [C H].
    destruct (hexDigit_value c C) as (v & E & V).
    cbn [digitsValue String.length]. rewrite E.
    specialize (IH H (acc * 16 + v) ltac:(lia)).
    rewrite Nat2Z.inj_succ, Z.pow_succ_r by lia.
    assert (P : 0 < 16 ^ Z.of_nat (String.length s)) by (apply Z.pow_pos_nonneg; lia).
    nia.
Qed.

(** [detectTheme] answers on a canonical background. *)
Lemma detectTheme_defined (c : BrandColors) :
  isCanonicalValue (background c) = true -> exists t, detectTheme c = Normal t.
Proof.
  unfold isCanonicalValue. destruct (background c) as [| |bg|] eqn:E;
    try discriminate.
  intros H. destruct (hexOfLength_shape 6 bg H) as (s & -> & D & L).
  pose proof (digitsValue_bound s D 0 ltac:(lia)) as B. rewrite L in B.
  eexists. apply (detectTheme_hex c s E D); [lia|].
  change (16 ^ Z.of_nat 6) with 16777216 in B. lia.
Qed.

Lemma validSignal_cases (v : value) :
  validSignal v ->
  truthy v = false
  \/ (truthy v = true /\ exists h, rgbaToHex v = VStr h /\ isCanonical h = true).
Proof.
  intros [F|(s & -> & V)]; [now left|].
  destruct s as [|c s]; [now left|].
  destruct (valid_input _ V) as (h & E & C).
  right. split; [reflexivity|now exists h].
Qed.

Lemma canonicalPalette_fields (c : BrandColors) :
  canonicalPalette c = true ->
  isCanonicalValue (primary c) = true /\ isCanonicalValue (secondary c) = true
  /\ isCanonicalValue (accent c) = true /\ isCanonicalValue (background c) = true.
Proof.
  unfold canonicalPalette. intros H.
  apply andb_true_iff in H. destruct H as [H B].
  apply andb_true_iff in H. destruct H as [H A].
  apply andb_true_iff in H. destruct H as [P S]. now repeat split.
Qed.

Lemma overrideColors_valid (colors : BrandColors) (css : CssColors) :
  canonicalPalette colors = true ->
  validSignal (cssPrimary css) -> validSignal (cssAccent css) ->
  exists c', Docs.overrideColors colors css = Normal c'
             /\ canonicalPalette c' = true.
Proof.
  intros C P A.
  destruct (canonicalPalette_fields colors C) as (Cp & Cs & Ca & Cb).
  destruct lit_06 as (k & K & K0 & K1).
  destruct (validSignal_cases _ P) as [Tp|(Tp & p & Ep & Hp)];
    destruct (validSignal_cases _ A) as [Ta|(Ta & a & Ea & Ha)];
    unfold Docs.overrideColors; rewrite Tp, Ta.
  - exists colors. split; [reflexivity|exact C].
  - eexists. split; [reflexivity|]. rewrite Ea.
    unfold canonicalPalette, setAccent. cbn [primary secondary accent background].
    cbn [isCanonicalValue]. now rewrite Cp, Cs, Ha, Cb.
  - rewrite Ep, K.
    destruct (darkenHex_canonical p k Hp K0 K1) as (s & -> & Hs).
    eexists. split; [reflexivity|].
    unfold canonicalPalette, setPrimary. cbn [primary secondary accent background].
    cbn [isCanonicalValue]. now rewrite Hp, Hs, Ca, Cb.
  - rewrite Ep, K.
    destruct (darkenHex_canonical p k Hp K0 K1) as (s & -> & Hs).
    eexists. split; [reflexivity|]. rewrite Ea.
    unfold canonicalPalette, setAccent, setPrimary.
    cbn [primary secondary accent background bind].
    cbn [isCanonicalValue]. now rewrite Hp, Hs, Ha, Cb.
Qed.

(** What [resolveColors] keeps of valid signals is canonical. *)
Lemma resolveColors_valid (sig : Url.Signals) :
  validSignal (Url.sigPrimary sig) -> validSignal (Url.sigButtonBg sig) ->
  validSignal (Url.sigLinkColor sig) -> validSignal (Url.sigAccent sig) ->
  Url.resolveColors sig = None
  \/ exists p a,
       Url.resolveColors sig = Some (mkCss p a)
       /\ (p = VNull \/ isCanonicalValue p = true)
       /\ (a = VNull \/ isCanonicalValue a = true).
Proof.
  intros P B L A. unfold Url.resolveColors.
  assert (RP : exists p,
             (if truthy (Url.sigPrimary sig) then rgbaToHex (Url.sigPrimary sig)
              else if truthy (Url.sigButtonBg sig)
                   then rgbaToHex (Url.sigButtonBg sig)
                   else if truthy (Url.sigLinkColor sig)
                        then rgbaToHex (Url.sigLinkColor sig) else VNull) = p
             /\ (p = VNull \/ isCanonicalValue p = true)).
  { destruct (validSignal_cases _ P) as [->|(-> & h & -> & H)];
      [|exists (VStr h); split; [reflexivity|now right]].
    destruct (validSignal_cases _ B) as [->|(-> & h & -> & H)];
      [|exists (VStr h); split; [reflexivity|now right]].
    destruct (validSignal_cases _ L) as [->|(-> & h & -> & H)];
      [|exists (VStr h); split; [reflexivity|now right]].
    exists VNull. split; [reflexivity|now left]. }
  assert (RA : exists a,
             (if truthy (Url.sigAccent sig) then rgbaToHex (Url.sigAccent sig)
              else VNull) = a
             /\ (a = VNull \/ isCanonicalValue a = true)).
  { destruct (validSignal_cases _ A) as [->|(-> & h & -> & H)];
      [|exists (VStr h); split; [reflexivity|now right]].
    exists VNull. split; [reflexivity|now left]. }
  destruct RP as (p & -> & Hp). destruct RA as (a & -> & Ha).
  destruct (truthy p || truthy a); [right|now left].
  now exists p, a.
Qed.

Lemma canonicalValue_truthy (v : value) :
  isCanonicalValue v = true -> exists h, v = VStr h /\ isCanonical h = true
                                         /\ truthy v = true.
Proof.
  destruct v as [| |h|]; try discriminate. intros H. exists h.
  split; [reflexivity|]. split; [exact H|].
  destruct h; [discriminate H|reflexivity].
Qed.

Lemma improveColors_valid (colors : BrandColors) (p a : value) :
  canonicalPalette colors = true ->
  p = VNull \/ isCanonicalValue p = true ->
  a = VNull \/ isCanonicalValue a = true ->
  exists c', Url.improveColors colors (mkCss p a) = Normal c'
             /\ canonicalPalette c' = true.
Proof.
  intros C P A.
  destruct (canonicalPalette_fields colors C) as (Cp & Cs & Ca & Cb).
  destruct lit_06 as (k & K & K0 & K1).
  unfold Url.improveColors. cbn [cssPrimary cssAccent].
  destruct P as [->|P]; destruct A as [->|A]; cbn [truthy bind].
  - exists colors. now split.
  - destruct (canonicalValue_truthy a A) as (ha & -> & Ha & ->).
    eexists. split; [reflexivity|].
    unfold canonicalPalette, setAccent. cbn [primary secondary accent background].
    cbn [isCanonicalValue]. now rewrite Cp, Cs, Ha, Cb.
  - destruct (canonicalValue_truthy p P) as (hp & -> & Hp & ->). rewrite K.
    destruct (darkenHex_canonical hp k Hp K0 K1) as (s & -> & Hs).
    eexists. split; [reflexivity|].
    unfold canonicalPalette, setPrimary. cbn [primary secondary accent background].
    cbn [isCanonicalValue]. now rewrite Hp, Hs, Ca, Cb.
  - destruct (canonicalValue_truthy p P) as (hp & -> & Hp & ->). rewrite K.
    destruct (canonicalValue_truthy a A) as (ha & -> & Ha & ->).
    destruct (darkenHex_canonical hp k Hp K0 K1) as (s & -> & Hs).
    eexists. split; [reflexivity|].
    unfold canonicalPalette, setAccent, setPrimary.
    cbn [primary secondary accent background bind].
    cbn [isCanonicalValue]. now rewrite Hp, Hs, Ha, Cb.
Qed.

(** The refinement keeps the palette canonical at both call sites: from a
    canonical palette and CSS signals that are absent or valid colours it
    returns, without raising, a palette whose four fields are canonical
    colours, and [detectTheme] answers on it. *)
Theorem refinement_canonical (colors : BrandColors) :
  canonicalPalette colors = true ->
  (forall css,
     validSignal (cssPrimary css) -> validSignal (cssAccent css) ->
     exists c' t, Docs.overrideColors colors css = Normal c'
                  /\ canonicalPalette c' = true /\ detectTheme c' = Normal t)
  /\ (forall sig,
        validSignal (Url.sigPrimary sig) -> validSignal (Url.sigButtonBg sig) ->
        validSignal (Url.sigLinkColor sig) -> validSignal (Url.sigAccent sig) ->
        exists c' t, Url.applyCss colors (Url.resolveColors sig) = Normal c'
                     /\ canonicalPalette c' = true /\ detectTheme c' = Normal t).
Proof.
  intros C.
  assert (T : forall c', canonicalPalette c' = true ->
                         exists t, detectTheme c' = Normal t).
  { intros c' C'. destruct (canonicalPalette_fields c' C') as (_ & _ & _ & B).
    now apply detectTheme_defined. }
  split.
  - intros css P A.
    destruct (overrideColors_valid colors css C P A) as (c' & E & C').
    destruct (T c' C') as [t Et]. now exists c', t.
  - intros sig P B L A.
    destruct (resolveColors_valid sig P B L A) as [->|(p & a & -> & Hp & Ha)];
      cbn [Url.applyCss].
    + destruct (T colors C) as [t Et]. now exists colors, t.
    + destruct (improveColors_valid colors p a C Hp Ha) as (c' & E & C').
      destruct (T c' C') as [t Et]. now exists c', t.
Qed.

Lemma refinement_canonical_witness :
  (exists c' t,
     Docs.overrideColors Docs.defaultColors
       (mkCss (VStr "hsl(210, 65%, 43%)") (VStr "salmon")) = Normal c'
     /\ canonicalPalette c' = true /\ detectTheme c' = Normal t)
  /\ (exists c' t,
        Url.applyCss Docs.defaultColors
          (Url.resolveColors
             (Url.mkSignals VNull VNull (VStr "rgb(18, 52, 86)") VNull))
        = Normal c'
        /\ canonicalPalette c' = true /\ detectTheme c' = Normal t).
Proof.
  split.
  - apply (proj1 (refinement_canonical Docs.defaultColors eq_refl)).
    + right. exists "hsl(210, 65%, 43%)". split; [reflexivity|].
      right. right. left.
      exists (mkHslText false EmptyString (mkNumeral "210" EmptyString) EmptyString
                " " (mkNumeral "65" EmptyString) EmptyString " "
                (mkNumeral "43" EmptyString) ")").
      split; reflexivity.
    + right. exists "salmon". split; [reflexivity|].
      right. right. right. reflexivity.
  - apply (proj2 (refinement_canonical Docs.defaultColors eq_refl)).
    + now left.
    + right. exists "rgb(18, 52, 86)". split; [reflexivity|].
      right. left.
      exists (mkRgbText false EmptyString "18" EmptyString " " "52" EmptyString
                " " "86" ")").
      split; reflexivity.
    + now left.
    + now left.
Defined.

(** ** Substrings *)

Lemma prefix_app (p z : string) : String.prefix p (p ++ z) = true.
Proof.
  induction p as [|c p IH]; simpl; [now destruct z|].
  destruct (ascii_dec c c) as [_|N]; [exact IH|now destruct N].
Qed.

Lemma prefix_split (p s : string) :
  String.prefix p s = true -> exists z, s = p ++ z.
Proof.
  revert s. induction p as [|c p IH]; intros s H.
  - now exists s.
  - destruct s as [|c' s]; [discriminate H|]. simpl in H.
    destruct (ascii_dec c c') as [<-|N]; [|discriminate H].
    destruct (IH s H) as [z ->]. now exists z.
Qed.

Lemma includes_spec (s p : string) :
  includes s p = true <-> exists a b, s = a ++ p ++ b.
Proof.
  split.
  - induction s as [|c s IH]; cbn [includes]; intros H.
    + rewrite orb_false_r in H. destruct (prefix_split _ _ H) as [z E].
      exists EmptyString, z. exact E.
    + apply orb_true_iff in H. destruct H as [H|H].
      * destruct (prefix_split _ _ H) as [z E]. exists EmptyString, z. exact E.
      * destruct (IH H) as (a & b & ->). now exists (String c a), b.
  - intros (a & b & ->). induction a as [|c a IH].
    + cbn [append]. destruct (p ++ b) eqn:E; cbn [includes].
      * destruct p; [reflexivity|discriminate E].
      * rewrite <- E, prefix_app. reflexivity.
    + cbn [append includes]. rewrite IH. apply orb_true_r.
Qed.

Lemma append_assoc (a b c : string) : (a ++ b) ++ c = a ++ b ++ c.
Proof. induction a as [|x a IH]; simpl; [reflexivity|now rewrite IH]. Qed.

Lemma includes_extend (s p a b : string) :
  includes s p = true -> includes (a ++ s ++ b) p = true.
Proof.
  intros H. apply includes_spec in H. destruct H as (x & y & ->).
  apply includes_spec. exists (a ++ x), (y ++ b).
  now rewrite !append_assoc.
Qed.

Lemma includes_left (s p b : string) :
  includes s p = true -> includes (s ++ b) p = true.
Proof. intros H. now apply (includes_extend s p EmptyString b). Qed.

Lemma includes_right (s p a : string) :
  includes s p = true -> includes (a ++ s) p = true.
Proof.
  intros H. apply includes_spec in H. destruct H as (x & y & ->).
  apply includes_spec. exists (a ++ x), y. now rewrite append_assoc.
Qed.

Lemma toLowerCase_app (a b : string) :
  Str.toLowerCase (a ++ b) = Str.toLowerCase a ++ Str.toLowerCase b.
Proof.
  induction a as [|c a IH]; simpl; [reflexivity|]. now rewrite IH.
Qed.

Lemma lowerChar_idem (c : ascii) : Str.lowerChar (Str.lowerChar c) = Str.lowerChar c.
Proof. destruct c as [[] [] [] [] [] [] [] []]; reflexivity. Qed.

Lemma toLowerCase_idem (s : string) :
  Str.toLowerCase (Str.toLowerCase s) = Str.toLowerCase s.
Proof.
  induction s as [|c s IH]; simpl; [reflexivity|].
  now rewrite lowerChar_idem, IH.
Qed.

(** ** [inferIndustry] *)

(** [inferIndustry] answers with one of its eight labels, and with
    [general] exactly when no keyword of any industry occurs in the
    lower-cased text. *)
Theorem inferIndustry_labels (title description : string) :
  In (inferIndustry title description) industryLabels
  /\ (inferIndustry title description = "general"
      <-> forall industry keywords keyword,
            In (industry, keywords) industries -> In keyword keywords ->
            includes (Str.toLowerCase (title ++ " " ++ description)) keyword
            = false).
Proof.
  unfold inferIndustry.
  set (text := Str.toLowerCase (title ++ " " ++ description)).
  destruct (find (fun entry => mentions text (snd entry)) industries)
    as [[industry keywords]|] eqn:F.
  - apply find_some in F. destruct F as [I M]. cbn [snd] in M.
    split.
    + unfold industries in I. simpl in I.
      repeat (destruct I as [I|I]; [injection I as <- _; simpl; tauto|]).
      destruct I.
    + split.
      * intros ->. unfold industries in I. simpl in I.
        repeat (destruct I as [I|I]; [discriminate I|]). destruct I.
      * intros N. unfold mentions in M. apply existsb_exists in M.
        destruct M as (kw & K & C). rewrite (N _ _ _ I K) in C. discriminate C.
  - split; [simpl; tauto|]. split; [|reflexivity].
    intros _ industry keywords keyword I K.
    pose proof (find_none _ _ F _ I) as N. cbn [snd] in N.
    unfold mentions in N.
    destruct (includes text keyword) eqn:C; [|reflexivity].
    assert (X : existsb (fun k => includes text k) keywords = true).
    { apply existsb_exists. now exists keyword. }
    rewrite X in N. discriminate N.
Qed.

Lemma inferIndustry_labels_witness :
  includes (Str.toLowerCase ("Hello World" ++ " " ++ "Just a test page")) "app"
  = false.
Proof.
  apply (proj1 (proj2 (inferIndustry_labels "Hello World" "Just a test page"))
               eq_refl "tech" techKeywords "app"); simpl; tauto.
Defined.

(** A keyword of the first industry decides: when the lower-cased title or
    description contains one of them anywhere, inside a longer word or not
    and whatever else the text contains, the answer is [tech]. *)
Theorem inferIndustry_tech_first (title description keyword : string) :
  In keyword techKeywords ->
  includes (Str.toLowerCase title) keyword = true
  \/ includes (Str.toLowerCase description) keyword = true ->
  inferIndustry title description = "tech".
Proof.
  intros K H. unfold inferIndustry.
  set (text := Str.toLowerCase (title ++ " " ++ description)).
  assert (C : includes text keyword = true).
  { unfold text. rewrite !toLowerCase_app. destruct H as [H|H].
    - now apply includes_left.
    - now apply includes_right, includes_right. }
  unfold industries. cbn [find snd].
  assert (M : mentions text techKeywords = true).
  { apply existsb_exists. now exists keyword. }
  unfold techKeywords in M. now rewrite M.
Qed.

Lemma inferIndustry_tech_first_witness :
  inferIndustry "Happy Trading" "Buy crypto in our shop" = "tech".
Proof.
  apply (inferIndustry_tech_first _ _ "app"); [simpl; tauto|].
  left. reflexivity.
Defined.

(** The answer does not depend on the case of the letters. *)
Theorem inferIndustry_case (title description : string) :
  inferIndustry (Str.toLowerCase title) (Str.toLowerCase description)
  = inferIndustry title description.
Proof.
  unfold inferIndustry.
  now rewrite !toLowerCase_app, !toLowerCase_idem.
Qed.

(** ** [inferMetadataFromMarkdown] *)

(** A page whose text contains [import ] or [def ] is filed under one of
    the first four technologies of the table: the Python keywords come
    before those of Node.js, TypeScript and the rest. *)
Theorem technology_import (markdown hostname : string) :
  includes (Str.toLowerCase markdown) "import " = true
  \/ includes (Str.toLowerCase markdown) "def " = true ->
  In (Meta.technology (Meta.inferMetadataFromMarkdown markdown hostname))
     [ "React"; "Next.js"; "Vue"; "Python" ].
Proof.
  intros H. unfold Meta.inferMetadataFromMarkdown. cbn [Meta.technology].
  set (text := Str.toLowerCase markdown).
  set (domain := Str.toLowerCase hostname).
  unfold Meta.techMap. cbn [find snd].
  destruct (existsb _ [ "react"; "jsx"; "usestate"; "useeffect"; "react.dev" ]);
    [simpl; tauto|].
  destruct (existsb _ [ "next.js"; "nextjs"; "next/" ]); [simpl; tauto|].
  destruct (existsb _ [ "vue"; "vuejs"; "vue.js" ]); [simpl; tauto|].
  assert (P : existsb (fun kw => includes text kw || includes domain kw)
                      [ "python"; "pip install"; "def "; "import " ] = true).
  { apply existsb_exists. destruct H as [H|H].
    - exists "import ". split; [simpl; tauto|]. fold text in H. now rewrite H.
    - exists "def ". split; [simpl; tauto|]. fold text in H. now rewrite H. }
  rewrite P. simpl. tauto.
Qed.

Lemma technology_import_witness :
  In (Meta.technology
        (Meta.inferMetadataFromMarkdown
           "# Express routing: import express from 'express' (Node.js, npm install)"
           "expressjs.com"))
     [ "React"; "Next.js"; "Vue"; "Python" ].
Proof.
  apply technology_import. left. reflexivity.
Defined.

(** A page that says [getting started], in any case, is a quickstart for
    beginners. *)
Theorem getting_started (markdown hostname : string) :
  includes (Str.toLowerCase markdown) "getting started" = true ->
  Meta.docType (Meta.inferMetadataFromMarkdown markdown hostname)
  = Meta.quickstart
  /\ Meta.difficulty (Meta.inferMetadataFromMarkdown markdown hostname)
     = Meta.beginner.
Proof.
  intros H. unfold Meta.inferMetadataFromMarkdown.
  cbn [Meta.docType Meta.difficulty]. rewrite H.
  rewrite !orb_true_r. cbn [orb]. split; reflexivity.
Qed.

Lemma getting_started_witness :
  Meta.docType (Meta.inferMetadataFromMarkdown
                  "# Advanced API reference: Getting Started" "example.com")
  = Meta.quickstart
  /\ Meta.difficulty (Meta.inferMetadataFromMarkdown
                        "# Advanced API reference: Getting Started" "example.com")
     = Meta.beginner.
Proof. apply getting_started. reflexivity. Defined.

Lemma splitWhiteFrom_length (s : string) :
  forall inRun,
    (1 <= List.length (splitWhiteFrom inRun s) <= S (String.length s))%nat.
Proof.
  induction s as [|c s IH]; intros inRun; cbn [splitWhiteFrom String.length].
  - simpl. lia.
  - destruct (Str.isWhite c).
    + destruct inRun.
      * specialize (IH true). lia.
      * specialize (IH true). cbn [List.length]. lia.
    + specialize (IH false).
      destruct (splitWhiteFrom false s) as [|piece rest]; cbn [List.length] in *; lia.
Qed.

Lemma lit200 : Num.lit 200 1 = Num.Fin 200.
Proof. vm_compute. reflexivity. Qed.

Open Scope Q_scope.

Lemma inject_Z_sub (a b : Z) : inject_Z (a - b) == inject_Z a - inject_Z b.
Proof.
  unfold Z.sub. rewrite inject_Z_plus, inject_Z_opp. reflexivity.
Qed.

Lemma Qceiling_unique (v : Q) (k : Z) :
  inject_Z k - 1 < v -> v <= inject_Z k -> Qceiling v = k.
Proof.
  intros L U.
  pose proof (Qle_ceiling v) as C1. pose proof (Qceiling_lt v) as C2.
  assert (A : (Qceiling v - 1 < k)%Z).
  { rewrite Zlt_Qlt. lra. }
  assert (B : (k - 1 < Qceiling v)%Z).
  { rewrite Zlt_Qlt. rewrite inject_Z_sub. change (inject_Z 1) with 1. lra. }
  lia.
Qed.

(** [Math.ceil(n / 200)] is the exact quotient rounded up. *)
Lemma ceil_div_200 (n : Z) :
  (1 <= n <= 2 ^ 40)%Z ->
  ceil (Num.div (Num.of_int (Num.IInt n)) (Num.lit 200 1))
  = Num.IInt ((n + 199) / 200).
Proof.
  intros H. rewrite lit200. cbn [Num.of_int Num.div].
  change (Num.iszero 200) with false. cbv iota.
  set (k := ((n + 199) / 200)%Z).
  assert (K : (200 * (k - 1) < n <= 200 * k)%Z).
  { unfold k. pose proof (Z.div_mod (n + 199) 200 ltac:(lia)).
    pose proof (Z.mod_pos_bound (n + 199) 200 ltac:(lia)). lia. }
  assert (N0 : 1 <= inject_Z n).
  { change 1 with (inject_Z 1). rewrite <- Zle_Qle. lia. }
  assert (N1 : inject_Z n <= inject_Z (2 ^ 40)).
  { rewrite <- Zle_Qle. lia. }
  change (inject_Z (2 ^ 40)) with 1099511627776 in N1.
  assert (X : inject_Z n / 200 == inject_Z n * (1 # 200)) by reflexivity.
  destruct (RN_approx (inject_Z n / 200) 33 ltac:(lia)) as (v & E & B).
  { change (Num.pow2 33) with 8589934592.
    apply Qabs_Qle_condition. rewrite X. split; lra. }
  change (Num.pow2 (33 - 53)) with (1 # 2 ^ 20) in B.
  apply Qabs_Qle_condition in B. rewrite X in B.
  rewrite E. cbn [ceil]. f_equal.
  assert (D : (1 # 2 ^ 20) < 1 # 200) by reflexivity.
  destruct (Z.eq_dec n (200 * k)) as [Eq|Ne].
  - (* an exact quotient is an integer below 2^53: it rounds to itself *)
    destruct (RN_between_ints (inject_Z n / 200) k k) as (w & Ew & W0 & W1);
      try lia.
    + rewrite X, Eq, inject_Z_mult. change (inject_Z 200) with 200. lra.
    + rewrite X, Eq, inject_Z_mult. change (inject_Z 200) with 200. lra.
    + rewrite E in Ew. injection Ew as <-.
      apply Qceiling_unique; lra.
  - assert (L : inject_Z (200 * (k - 1) + 1) <= inject_Z n)
      by (rewrite <- Zle_Qle; lia).
    assert (U : inject_Z n <= inject_Z (200 * k - 1))
      by (rewrite <- Zle_Qle; lia).
    rewrite inject_Z_plus, inject_Z_mult, inject_Z_sub in L.
    rewrite inject_Z_sub, inject_Z_mult in U.
    change (inject_Z 200) with 200 in *. change (inject_Z 1) with 1 in *.
    apply Qceiling_unique; lra.
Qed.

Close Scope Q_scope.

(** ** Decimal notation *)

Lemma decChar_digit (v : Z) :
  0 <= v < 10 ->
  Str.isDigit (decChar v) = true /\ Str.digitValue (decChar v) = Some v.
Proof.
  intros H.
  assert (C : v = 0 \/ v = 1 \/ v = 2 \/ v = 3 \/ v = 4 \/ v = 5 \/ v = 6
              \/ v = 7 \/ v = 8 \/ v = 9) by lia.
  repeat (destruct C as [->|C]; [split; reflexivity|]). subst v.
  split; reflexivity.
Qed.

Lemma digitsValue_app (R pre : Z) (a b : string) :
  allChars Str.isDigit a = true ->
  digitsValue R pre (a ++ b) = digitsValue R (digitsValue R pre a) b.
Proof.
  revert pre. induction a as [|c a IH]; intros pre H; [reflexivity|].
  cbn [allChars] in H. apply andb_true_iff in H. destruct H as [C H].
  cbn [append digitsValue].
  destruct (Str.digitValue c) as [v|] eqn:E.
  - now apply IH.
  - unfold Str.isDigit, Str.digitValue in *.
    destruct ((48 <=? Str.code c) && (Str.code c <=? 57)); discriminate.
Qed.

Lemma append_length (a b : string) :
  String.length (a ++ b) = (String.length a + String.length b)%nat.
Proof. induction a as [|x a IH]; simpl; [reflexivity|now rewrite IH]. Qed.

(** [decDigits] writes the decimal digits of [z] in front of [acc]. *)
Lemma decDigits_spec (fuel : nat) :
  forall z acc, 0 <= z < 2 ^ Z.of_nat fuel -> (0 < fuel)%nat ->
    exists d,
      decDigits fuel z acc = d ++ acc
      /\ allChars Str.isDigit d = true /\ Str.isEmpty d = false
      /\ forall pre, digitsValue 10 pre d
                     = pre * 10 ^ Z.of_nat (String.length d) + z.
Proof.
  induction fuel as [|fuel IH]; intros z acc Hz Hf; [lia|].
  cbn [decDigits].
  assert (M : 0 <= z mod 10 < 10) by (apply Z.mod_pos_bound; lia).
  destruct (decChar_digit _ M) as [Dc Vc].
  destruct (Z.eqb_spec (z / 10) 0) as [E|N].
  - exists (String (decChar (z mod 10)) EmptyString).
    split; [reflexivity|]. split; [cbn [allChars]; now rewrite Dc|].
    split; [reflexivity|]. intros pre. cbn [digitsValue String.length].
    rewrite Vc. pose proof (Z.div_mod z 10 ltac:(lia)).
    change (10 ^ Z.of_nat 1) with 10. lia.
  - assert (Q : 0 <= z / 10 < 2 ^ Z.of_nat fuel).
    { split; [apply Z.div_pos; lia|].
      apply Z.div_lt_upper_bound; [lia|].
      rewrite Nat2Z.inj_succ, Z.pow_succ_r in Hz by lia. lia. }
    assert (F : (0 < fuel)%nat).
    { destruct fuel; [|lia]. change (2 ^ Z.of_nat 0) with 1 in Q. lia. }
    destruct (IH (z / 10) (String (decChar (z mod 10)) acc) Q F)
      as (d & E & A & NE & V).
    exists (d ++ String (decChar (z mod 10)) EmptyString).
    split; [rewrite E, append_assoc; reflexivity|].
    split; [rewrite allChars_app, A; cbn [allChars]; now rewrite Dc|].
    split; [destruct d; [discriminate NE|reflexivity]|].
    intros pre. rewrite (digitsValue_app _ _ _ _ A), V.
    cbn [digitsValue]. rewrite Vc.
    rewrite append_length. cbn [String.length].
    rewrite Nat2Z.inj_add, Z.pow_add_r by lia.
    change (10 ^ Z.of_nat 1) with 10.
    pose proof (Z.div_mod z 10 ltac:(lia)). lia.
Qed.

(** The decimal notation of a natural number: digits that read back as
    the number. *)
Lemma toString10_digits (n : Z) :
  0 <= n ->
  isDigits (toString10 (Num.IInt n)) = true
  /\ digitsValue 10 0 (toString10 (Num.IInt n)) = n.
Proof.
  intros H. unfold toString10.
  replace (n <? 0) with false by (symmetry; apply Z.ltb_ge; lia).
  rewrite Z.abs_eq by exact H. cbn [append].
  destruct (decDigits_spec (S (Z.to_nat (Z.log2 n))) n EmptyString)
    as (d & E & A & NE & V).
  - split; [exact H|].
    rewrite Nat2Z.inj_succ, Z2Nat.id by apply Z.log2_nonneg.
    destruct (Z.eq_dec n 0) as [->|P]; [reflexivity|].
    apply Z.log2_spec. lia.
  - lia.
  - rewrite E.
    assert (X : d ++ EmptyString = d).
    { clear. induction d as [|c d IH]; simpl; [reflexivity|now rewrite IH]. }
    rewrite X. split.
    + unfold isDigits. now rewrite NE, A.
    + rewrite V. lia.
Qed.

(** The reading time is the number of pieces [split(/\s+/)] cuts the
    markdown into, divided by 200 and rounded up, in decimal notation and
    followed by [ min]; it is at least one minute, also for an empty
    page. *)
Theorem estimatedReadTime_ceiling (markdown hostname : string) :
  Z.of_nat (String.length markdown) < 2 ^ 40 ->
  let words := Z.of_nat (List.length (splitWhite markdown)) in
  let minutes := (words + 199) / 200 in
  Meta.estimatedReadTime (Meta.inferMetadataFromMarkdown markdown hostname)
  = toString10 (Num.IInt minutes) ++ " min"
  /\ isDigits (toString10 (Num.IInt minutes)) = true
  /\ digitsValue 10 0 (toString10 (Num.IInt minutes)) = minutes
  /\ 1 <= minutes
  /\ 1 <= words <= Z.of_nat (String.length markdown) + 1.
Proof.
  intros L words minutes.
  pose proof (splitWhiteFrom_length markdown false) as W.
  fold (splitWhite markdown) in W.
  assert (B : 1 <= words <= Z.of_nat (String.length markdown) + 1)
    by (unfold words; lia).
  assert (M : 1 <= minutes).
  { unfold minutes. apply Z.div_le_lower_bound; lia. }
  destruct (toString10_digits minutes ltac:(lia)) as [D V].
  unfold Meta.inferMetadataFromMarkdown. cbn [Meta.estimatedReadTime].
  fold words. rewrite ceil_div_200 by lia. fold minutes.
  repeat split; try assumption; lia.
Qed.

Lemma estimatedReadTime_ceiling_witness :
  Meta.estimatedReadTime (Meta.inferMetadataFromMarkdown EmptyString "example.com")
  = "1 min".
Proof.
  apply (estimatedReadTime_ceiling EmptyString "example.com"). reflexivity.
Defined.

(** ** [downloadLogoToPublic] *)




(** ** The content read in the page *)

Lemma firstn_length_le {A : Type} (n : nat) (l : list A) :
  (List.length (firstn n l) <= n)%nat.
Proof. rewrite length_firstn. lia. Qed.

Lemma filter_length_le {A : Type} (p : A -> bool) (l : list A) :
  (List.length (filter p l) <= List.length l)%nat.
Proof.
  induction l as [|x l IH]; simpl; [lia|]. destruct (p x); simpl; lia.
Qed.

Lemma In_firstn {A : Type} (n : nat) (l : list A) (x : A) :
  In x (firstn n l) -> In x l.
Proof.
  revert l. induction n as [|n IH]; intros [|y l]; simpl; try tauto.
  intros [H|H]; [now left|right; now apply IH].
Qed.

(** The features [extractWithPlaywright] reads in a page are none, or
    between two and five, never one; each is the trimmed text of one of the
    first eight list items and has between 6 and 119 characters.  The
    sections are at most six, each with the trimmed text of one of the first
    six headings, of 3 to 99 characters, and an empty text. *)
Theorem page_content_bounds (items els : option (list (option string))) :
  let fs := Content.features (Content.listItems items) in
  (List.length fs = 0 \/ 2 <= List.length fs <= 5)%nat
  /\ (forall t, In t fs ->
        (5 < String.length t < 120)%nat
        /\ exists l item, items = Some l /\ In item (firstn 8 l)
                          /\ t = Content.trimmedText item)
  /\ (List.length (Content.headings els) <= 6)%nat
  /\ (forall s, In s (Content.headings els) ->
        (2 < String.length (Content.heading s) < 100)%nat
        /\ Content.text s = EmptyString
        /\ exists l el, els = Some l /\ In el (firstn 6 l)
                        /\ Content.heading s = Content.trimmedText el).
Proof.
  cbv zeta. split; [|split; [|split]].
  - unfold Content.features.
    destruct (2 <=? List.length (Content.listItems items))%nat eqn:E;
      [|left; reflexivity].
    apply Nat.leb_le in E. right. rewrite length_firstn. lia.
  - intros t H. unfold Content.features in H.
    destruct (2 <=? List.length (Content.listItems items))%nat; [|destruct H].
    apply In_firstn in H. unfold Content.listItems in H.
    destruct items as [l|]; [|destruct H].
    apply filter_In in H. destruct H as [I B].
    unfold Content.lengthBetween in B. apply andb_true_iff in B.
    destruct B as [B1 B2]. apply Nat.ltb_lt in B1, B2.
    split; [lia|]. apply in_map_iff in I. destruct I as (item & <- & I).
    now exists l, item.
  - unfold Content.headings. destruct els as [l|]; [|simpl; lia].
    pose proof (filter_length_le
                  (fun s => Content.lengthBetween 2 100 (Content.heading s))
                  (map (fun el => Content.mkSection (Content.trimmedText el)
                                                    EmptyString)
                       (firstn 6 l))) as F.
    rewrite length_map in F. pose proof (firstn_length_le 6 l). lia.
  - intros s H. unfold Content.headings in H.
    destruct els as [l|]; [|destruct H].
    apply filter_In in H. destruct H as [I B].
    unfold Content.lengthBetween in B. apply andb_true_iff in B.
    destruct B as [B1 B2]. apply Nat.ltb_lt in B1, B2.
    split; [lia|]. apply in_map_iff in I. destruct I as (el & <- & I).
    split; [reflexivity|]. now exists l, el.
Qed.

Lemma page_content_bounds_witness :
  (5 < String.length "Fast builds" < 120)%nat.
Proof.
  apply (proj1 (proj2 (page_content_bounds
                         (Some [Some "  Fast builds  "; Some "tiny";
                                Some "Easy setup"])
                         None))
               "Fast builds").
  simpl. tauto.
Defined.

Open Scope Q_scope.

(** A positive value on the grid of its own magnitude rounds to itself. *)
Lemma RN_on_grid (x : Q) (m : Z) :
  0 < x -> x == inject_Z m * Num.pow2 (Num.ulp_exp x) -> x < Num.pow2 1024 ->
  Num.RN x = Num.Fin (Qred x).
Proof.
  intros P G B.
  pose proof (round_mag_le x x m G (Qle_refl _)) as U.
  pose proof (round_mag_ge x x m G (Qle_refl _)) as L.
  assert (E : Num.round_mag x == x) by lra.
  unfold Num.RN. rewrite (proj1 (Qgt_alt x 0) P). cbv zeta.
  destruct (Qle_bool (Num.pow2 1024) (Num.round_mag x)) eqn:O.
  - apply Qle_bool_iff in O. lra.
  - f_equal. now apply Qred_complete.
Qed.

(** Halves of integers below 2^53 are binary64 values. *)
Lemma RN_half (x : Q) (k : Z) :
  (0 <= k < 2 ^ 53)%Z -> x == inject_Z k / 2 -> Num.RN x = Num.Fin (Qred (k # 2)).
Proof.
  intros K E.
  assert (X : x == inject_Z k * (1 # 2)) by (rewrite E; reflexivity).
  assert (Y : (k # 2) == x).
  { rewrite X. unfold Qeq. simpl. lia. }
  destruct (Z.eq_dec k 0) as [->|N].
  - rewrite RN_zero; [reflexivity|]. rewrite X. reflexivity.
  - assert (P : 0 < x).
    { rewrite X. assert (1 <= inject_Z k)
        by (change 1 with (inject_Z 1); rewrite <- Zle_Qle; lia). lra. }
    assert (B : x < Num.pow2 52).
    { rewrite X. change (Num.pow2 52) with (inject_Z (2 ^ 52)).
      assert (inject_Z k < inject_Z (2 ^ 53)) by (rewrite <- Zlt_Qlt; lia).
      change (inject_Z (2 ^ 53)) with (2 * inject_Z (2 ^ 52)) in H. lra. }
    assert (U : (Num.ulp_exp x <= -1)%Z).
    { pose proof (ilog2_lt x 52 P B). unfold Num.ulp_exp. lia. }
    rewrite (RN_on_grid x (k * 2 ^ (- 1 - Num.ulp_exp x))).
    + f_equal. apply Qred_complete. now symmetry.
    + exact P.
    + set (e := Num.ulp_exp x) in *.
      rewrite inject_Z_mult, <- pow2_of_Z by lia.
      rewrite <- Qmult_assoc, <- pow2_add.
      replace (-1 - e + e)%Z with (-1)%Z by lia.
      change (Num.pow2 (-1)) with (1 # 2). exact X.
    + pose proof (pow2_lt 52 1024 ltac:(lia)). lra.
Qed.

Lemma half_value (k : nat) : Qred (Z.of_nat k # 2) == inject_Z (Z.of_nat k) / 2.
Proof.
  rewrite Qred_correct. unfold Qdiv. change (/ 2) with (1 # 2).
  unfold Qeq. simpl. lia.
Qed.

Lemma interval_120 : Num.div (Num.lit 60 1) (Num.lit 120 1) = Num.Fin (1 # 2).
Proof. vm_compute. reflexivity. Qed.

Lemma add_half (k : nat) :
  (Z.of_nat k < 2 ^ 53 - 1)%Z ->
  Num.add (half k) (Num.Fin (1 # 2)) = half (S k).
Proof.
  intros K. unfold half. cbn [Num.add].
  apply RN_half; [lia|]. rewrite half_value, Nat2Z.inj_succ.
  unfold Z.succ. rewrite inject_Z_plus. change (inject_Z 1) with 1. field.
Qed.

Close Scope Q_scope.

Lemma half_Q (k : Z) : (k # 2 == inject_Z k * (1 # 2))%Q.
Proof. unfold Qeq. simpl. lia. Qed.

Lemma floor_hundredths (k : Z) :
  Qfloor (Qred (k # 2) * 100 + (1 # 2)) = 50 * k.
Proof.
  rewrite <- (floor_half_int (50 * k)). apply Qfloor_comp.
  rewrite Qred_correct, inject_Z_mult, half_Q. change (inject_Z 50) with 50%Q.
  ring.
Qed.

(** [parseFloat(time.toFixed(2))] gives a half-integer back. *)
Lemma fixed2_half (k : nat) :
  Z.of_nat k < 2 ^ 53 ->
  exists digits, fixed2 (half k) = Some digits /\ parseFloat digits = half k.
Proof.
  intros K. unfold half, fixed2.
  assert (V : (Qred (Z.of_nat k # 2) == inject_Z (Z.of_nat k) * (1 # 2))%Q).
  { rewrite Qred_correct. apply half_Q. }
  assert (I0 : (0 <= inject_Z (Z.of_nat k))%Q).
  { change 0%Q with (inject_Z 0). rewrite <- Zle_Qle. lia. }
  assert (I1 : (inject_Z (Z.of_nat k) < inject_Z (2 ^ 53))%Q).
  { rewrite <- Zlt_Qlt. lia. }
  change (inject_Z (2 ^ 53)) with 9007199254740992%Q in I1.
  replace (Qle_bool 0 (Qred (Z.of_nat k # 2))) with true.
  2:{ symmetry. apply Qle_bool_iff. lra. }
  replace (Qle_bool (inject_Z (10 ^ 21)) (Qred (Z.of_nat k # 2))) with false.
  2:{ symmetry. destruct (Qle_bool _ _) eqn:E; [|reflexivity].
      apply Qle_bool_iff in E.
      change (inject_Z (10 ^ 21)) with 1000000000000000000000%Q in E. lra. }
  cbn [andb negb]. rewrite floor_hundredths.
  set (n := 50 * Z.of_nat k).
  eexists. split; [reflexivity|].
  assert (M1 : 0 <= (n / 10) mod 10 < 10) by (apply Z.mod_pos_bound; lia).
  assert (M2 : 0 <= n mod 10 < 10) by (apply Z.mod_pos_bound; lia).
  destruct (decChar_digit _ M1) as [D1 V1].
  destruct (decChar_digit _ M2) as [D2 V2].
  assert (N0 : 0 <= n / 100) by (apply Z.div_pos; lia).
  destruct (toString10_digits (n / 100) N0) as [Di Vi].
  pose (num := mkNumeral (toString10 (Num.IInt (n / 100)))
                 (String (decChar ((n / 10) mod 10))
                    (String (decChar (n mod 10)) EmptyString))).
  assert (W : validNum num = true).
  { unfold validNum, num. cbn [intPart fracPart allChars].
    now rewrite Di, D1, D2. }
  change (toString10 (Num.IInt (n / 100)) ++ "."
          ++ String (decChar ((n / 10) mod 10))
               (String (decChar (n mod 10)) EmptyString))
    with (writeNum num).
  rewrite (parseFloat_num num W).
  apply RN_half; [lia|].
  unfold numValue, num. cbn [intPart fracPart digitsValue String.length].
  rewrite Vi, V1, V2.
  assert (E : (n / 100 * 10 + (n / 10) mod 10) * 10 + n mod 10 = n).
  { pose proof (Z.div_mod n 10 ltac:(lia)).
    pose proof (Z.div_mod (n / 10) 10 ltac:(lia)).
    rewrite Z.div_div in H0 by lia. change (10 * 10) with 100 in H0. lia. }
  rewrite E. unfold n. unfold Qdiv. change (/ 2)%Q with (1 # 2)%Q.
  change (Z.to_pos (10 ^ Z.of_nat 2)) with 100%positive.
  unfold Qeq, Qmult, inject_Z. cbn [Qnum Qden]. lia.
Qed.

Lemma beatsFrom_halves (d : Q) (n : nat) :
  Z.of_nat n < 2 ^ 53 - 1 ->
  (forall k, (k < n)%nat -> (inject_Z (Z.of_nat k) / 2 < d)%Q) ->
  (d <= inject_Z (Z.of_nat n) / 2)%Q ->
  forall m k fuel,
    (k + m = n)%nat -> (m < fuel)%nat ->
    beatsFrom fuel (Num.Fin (1 # 2)) (Num.Fin d) (half k)
    = Some (map half (seq k m)).
Proof.
  intros B Below Above. induction m as [|m IH]; intros k fuel E F;
    (destruct fuel as [|fuel]; [lia|]); cbn [beatsFrom].
  - replace k with n by lia. unfold half at 1.
    replace (Num.ltb _ _) with false; [reflexivity|].
    symmetry. apply ltb_Fin_false. now rewrite half_value.
  - unfold half at 1.
    replace (Num.ltb _ _) with true.
    2:{ symmetry. apply ltb_Fin. rewrite half_value. apply Below. lia. }
    fold (half k).
    destruct (fixed2_half k ltac:(lia)) as (digits & -> & ->).
    rewrite add_half by lia.
    rewrite (IH (S k) fuel) by lia. reflexivity.
Qed.

(** The fall-back of [detectBeats], [generateHeuristicBeats(120,
    duration)], terminates with the multiples of half a second below the
    duration, in order and exact: [ceil(2 * duration)] beats, none for a
    duration that is not positive. *)
Theorem generateHeuristicBeats_120 (d : Q) (fuel : nat) :
  (d <= inject_Z (2 ^ 50))%Q ->
  let n := Z.to_nat (Qceiling (2 * d)) in
  (n < fuel)%nat ->
  generateHeuristicBeats fuel (Num.lit 120 1) (Num.Fin d)
  = Some (map half (seq 0 n)).
Proof.
  intros D n F. unfold generateHeuristicBeats.
  rewrite interval_120, lit0.
  change (Num.Fin 0) with (half 0).
  pose proof (Qle_ceiling (2 * d)) as C1.
  pose proof (Qceiling_lt (2 * d)) as C2.
  assert (C3 : (Qceiling (2 * d) <= 2 ^ 51)%Z).
  { rewrite <- (Qceiling_Z (2 ^ 51)). apply Qceiling_resp_le.
    change (inject_Z (2 ^ 51)) with (2 * inject_Z (2 ^ 50))%Q. lra. }
  apply (beatsFrom_halves d n); try lia.
  - intros k K. unfold n in K.
    assert (I : (inject_Z (Z.of_nat k) <= inject_Z (Qceiling (2 * d) - 1))%Q).
    { rewrite <- Zle_Qle. lia. }
    unfold Qdiv. change (/ 2)%Q with (1 # 2)%Q. lra.
  - unfold Qdiv. change (/ 2)%Q with (1 # 2)%Q.
    unfold n. destruct (Z.le_gt_cases 0 (Qceiling (2 * d))) as [P|N].
    + rewrite Z2Nat.id by exact P. lra.
    + replace (Z.to_nat (Qceiling (2 * d))) with 0%nat by lia.
      assert (I : (inject_Z (Qceiling (2 * d)) <= inject_Z 0)%Q).
      { rewrite <- Zle_Qle. lia. }
      change (inject_Z (Z.of_nat 0)) with 0%Q. change (inject_Z 0) with 0%Q in I.
      lra.
Qed.

Lemma generateHeuristicBeats_120_witness :
  generateHeuristicBeats 10 (Num.lit 120 1) (Num.Fin (22 # 10))
  = Some [Num.Fin 0; Num.Fin (1 # 2); Num.Fin 1; Num.Fin (3 # 2); Num.Fin 2].
Proof.
  apply (generateHeuristicBeats_120 (22 # 10) 10).
  - discriminate.
  - vm_compute. lia.
Defined.

(** ** [calculateVideoMetadata] *)

Lemma lit30 : Num.lit 30 1 = Num.Fin 30.
Proof. vm_compute. reflexivity. Qed.

(** A length between 29.967 and 30 seconds gives exactly 900 frames. *)
Lemma frames_of_30s (n : Q) :
  ((29967 # 1000) <= n)%Q -> (n <= 30)%Q -> framesOf (Num.Fin n) = Num.IInt 900.
Proof.
  intros L U. unfold framesOf, FPS. rewrite lit30. cbn [Num.mul].
  destruct (RN_between_ints (n * 30) 899 900) as (v & E & V0 & V1); try lia.
  - change (inject_Z 899) with 899%Q. lra.
  - change (inject_Z 900) with 900%Q. lra.
  - destruct (RN_approx (n * 30) 10 ltac:(lia)) as (w & Ew & B).
    { change (Num.pow2 10) with 1024%Q. apply Qabs_Qle_condition. split; lra. }
    rewrite E in Ew. injection Ew as <-.
    change (Num.pow2 (10 - 53)) with (1 # 2 ^ 43)%Q in B.
    apply Qabs_Qle_condition in B.
    assert (D : ((1 # 2 ^ 43) < 1 # 1000)%Q) by reflexivity.
    rewrite E. cbn [ceil]. f_equal. apply Qceiling_unique.
    + change (inject_Z 900) with 900%Q. lra.
    + exact V1.
Qed.

Lemma fromAudio_available
    (audioDuration : string -> completion Num.number) (p : string)
    (seconds : Num.number) (d : Num.jsint) :
  Str.isEmpty p = false -> audioDuration p = Normal seconds ->
  fromAudio audioDuration (VStr p) d = framesOf seconds.
Proof. intros N A. unfold fromAudio. now rewrite N, A. Qed.

(** The narration decides the length of the video, unless it gives
    exactly the 900 frames of the default: a narration of 29.967 to 30
    seconds is taken for a missing one, and the music or [props.duration]
    decides in its place. *)
Theorem calculateVideoMetadata_narration
    (audioDuration : string -> completion Num.number) (props : VideoProps)
    (p : string) (seconds : Num.number) :
  narrationPath props = VStr p -> Str.isEmpty p = false ->
  audioDuration p = Normal seconds ->
  (isDefault (framesOf seconds) = false ->
   calculateVideoMetadata audioDuration props = framesOf seconds)
  /\ (forall n, seconds = Num.Fin n -> ((29967 # 1000) <= n)%Q -> (n <= 30)%Q ->
      calculateVideoMetadata audioDuration props
      = calculateVideoMetadata audioDuration
          (mkVideoProps VUndefined (musicPath props) (duration props))).
Proof.
  intros P N A. unfold calculateVideoMetadata.
  cbn [narrationPath musicPath duration].
  rewrite P, (fromAudio_available _ _ _ _ N A). split.
  - intros D. now rewrite !D.
  - intros n -> L U. rewrite (frames_of_30s n L U). reflexivity.
Qed.

Lemma calculateVideoMetadata_narration_witness :
  let audio := fun p : string =>
                 if String.eqb p "audio/narration.mp3" then Normal (Num.lit 30 1)
                 else Normal (Num.lit 95 10) in
  calculateVideoMetadata audio
    (mkVideoProps (VStr "audio/narration.mp3") (VStr "audio/music.mp3") None)
  = Num.IInt 285.
Proof.
  intros audio.
  rewrite (proj2 (calculateVideoMetadata_narration audio
                    (mkVideoProps (VStr "audio/narration.mp3")
                                  (VStr "audio/music.mp3") None)
                    "audio/narration.mp3" (Num.lit 30 1)
                    eq_refl eq_refl eq_refl) 30%Q eq_refl).
  - vm_compute. reflexivity.
  - discriminate.
  - discriminate.
Defined.

(** ** The cost of the logo resolver *)

Lemma totalTimeout_paths (paths : list string) :
  totalTimeout (map (fun p => (p, 3000)) paths) = 3000 * Z.of_nat (List.length paths).
Proof.
  induction paths as [|p paths IH]; [reflexivity|].
  cbn [map totalTimeout fold_right snd List.length].
  fold (totalTimeout (map (fun p => (p, 3000)) paths)). rewrite IH. lia.
Qed.

(** The loop over the common paths probes a prefix of them, with a
    time-out of three seconds each, and leaves the warnings alone. *)
Lemma tryPaths_log (w : World) (paths : list string) :
  forall st, exists k found,
    tryPaths w paths st
    = (Normal found,
       mkState (probes st ++ map (fun p => (p, 3000)) (firstn k paths))
               (warnings st))
    /\ (k <= List.length paths)%nat.
Proof.
  induction paths as [|p paths IH]; intros st.
  - exists 0%nat, None. split; [|simpl; lia]. cbn [tryPaths ret firstn map].
    rewrite app_nil_r. now destruct st.
  - cbn [tryPaths]. unfold mbind, probe.
    destruct (is200 (head w (List.length (probes st)) p 3000)).
    + exists 1%nat, (Some (mkLogo p medium)). split; [|simpl; lia].
      reflexivity.
    + destruct (IH (mkState (probes st ++ [(p, 3000)]) (warnings st)))
        as (k & found & E & K).
      exists (S k), found. split; [|simpl; lia].
      rewrite E. cbn [probes warnings firstn map].
      now rewrite <- app_assoc.
Qed.

(** Whatever the network answers, [extractLogoFromCloud] makes between one
    and seven probes, whose time-outs add up to at most 23 seconds, and
    adds at most one warning after those already logged.  It raises only
    when the brand API gave no logo and the page URL does not parse, after
    that single probe and without a warning. *)
Theorem extractLogoFromCloud_budget (w : World) (domain fullUrl : string)
                                    (st : state) :
  exists r st' new added,
    extractLogoFromCloud w domain fullUrl st = (r, st')
    /\ probes st' = (probes st ++ new)%list
    /\ (1 <= List.length new <= 7)%nat /\ totalTimeout new <= 23000
    /\ warnings st' = (warnings st ++ added)%list /\ (List.length added <= 1)%nat
    /\ match r with
       | Normal _ => True
       | Throw _ =>
           is200 (head w (List.length (probes st))
                       ("https://logo.clearbit.com/" ++ domain) 5000) = false
           /\ origin w fullUrl = None /\ List.length new = 1%nat
           /\ added = []
       end.
Proof.
  unfold extractLogoFromCloud, mbind, probe.
  destruct (is200 (head w (List.length (probes st)) (clearbitUrl domain) 5000))
    eqn:B.
  - do 2 eexists. exists [(clearbitUrl domain, 5000)], [].
    split; [reflexivity|]. cbn [probes warnings].
    rewrite app_nil_r. repeat split; simpl; lia.
  - destruct (origin w fullUrl) as [org|] eqn:O.
    + destruct (tryPaths_log w (commonPaths org)
                  (mkState (probes st ++ [(clearbitUrl domain, 5000)])
                           (warnings st)))
        as (k & found & E & K).
      rewrite E. cbn [probes warnings] in *.
      assert (L : (List.length (firstn k (commonPaths org)) <= 6)%nat).
      { rewrite length_firstn. simpl. lia. }
      assert (T : totalTimeout
                    ((clearbitUrl domain, 5000)
                       :: map (fun p => (p, 3000)) (firstn k (commonPaths org)))
                  <= 23000).
      { cbn [totalTimeout fold_right snd].
        fold (totalTimeout (map (fun p => (p, 3000)) (firstn k (commonPaths org)))).
        rewrite totalTimeout_paths. lia. }
      destruct found as [r|].
      * do 2 eexists.
        exists ((clearbitUrl domain, 5000)
                  :: map (fun p => (p, 3000)) (firstn k (commonPaths org))), [].
        split; [reflexivity|]. cbn [probes warnings].
        rewrite <- app_assoc, app_nil_r.
        repeat split; try exact T; cbn [List.length]; rewrite ?length_map; lia.
      * do 2 eexists.
        exists ((clearbitUrl domain, 5000)
                  :: map (fun p => (p, 3000)) (firstn k (commonPaths org))),
               [faviconWarning domain].
        split; [reflexivity|]. cbn [probes warnings].
        rewrite <- app_assoc.
        repeat split; try exact T; cbn [List.length]; rewrite ?length_map; lia.
    + do 2 eexists. exists [(clearbitUrl domain, 5000)], [].
      split; [reflexivity|]. cbn [probes warnings].
      rewrite app_nil_r. repeat split; try exact B; simpl; lia.
Qed.

Lemma extractLogoFromCloud_warnings (w : World) (domain fullUrl : string)
                                    (st : state) :
  exists r st' added,
    extractLogoFromCloud w domain fullUrl st = (r, st')
    /\ warnings st' = (warnings st ++ added)%list
    /\ (List.length added <= 1)%nat.
Proof.
  unfold extractLogoFromCloud, mbind, probe.
  destruct (is200 (head w (List.length (probes st)) (clearbitUrl domain) 5000)).
  - do 2 eexists. exists []. split; [reflexivity|]. cbn [warnings].
    rewrite app_nil_r. split; [reflexivity|simpl; lia].
  - destruct (origin w fullUrl) as [org|].
    + destruct (tryPaths_log w (commonPaths org)
                  (mkState (probes st ++ [(clearbitUrl domain, 5000)])
                           (warnings st)))
        as (k & found & E & K).
      rewrite E. cbn [probes warnings] in *.
      destruct found as [r|].
      * do 2 eexists. exists []. split; [reflexivity|]. cbn [warnings].
        rewrite app_nil_r. split; [reflexivity|simpl; lia].
      * do 2 eexists. exists [faviconWarning domain].
        split; [reflexivity|]. cbn [warnings]. split; [reflexivity|simpl; lia].
    + do 2 eexists. exists []. split; [reflexivity|]. cbn [warnings].
      rewrite app_nil_r. split; [reflexivity|simpl; lia].
Qed.

(** The branding phase of [extractDocsContent] never rejects.  When
    [extractBrandingWithCssColors] fails, whatever the reason, the result is
    the default palette with the light theme and the favicon of the domain,
    and the failure is logged after the warnings already made, those of the
    failed attempt included; at most two warnings are added in all. *)
Theorem extractDocsBranding_total (w : World) (url domain : string)
                                  (st : state) :
  exists r st' added,
    Docs.extractDocsBranding w url domain st = (Normal r, st')
    /\ warnings st' = (warnings st ++ added)%list
    /\ (List.length added <= 2)%nat
    /\ forall e st1,
         Docs.extractBrandingWithCssColors w url domain st = (Throw e, st1) ->
         r = mkBranding
               (mkLogo ("https://www.google.com/s2/favicons?domain="
                        ++ domain ++ "&sz=256") favicon)
               (mkColors (VStr "#0066FF") (VStr "#003D99") (VStr "#66B3FF")
                         (VStr "#FFFFFF"))
               "system-ui, sans-serif" light
         /\ warnings st'
            = (warnings st1
               ++ [("Branding extraction failed: " ++ errorMessage e)%string])%list.
Proof.
  unfold Docs.extractDocsBranding, try_catch.
  assert (I : exists r st1 added,
             Docs.extractBrandingWithCssColors w url domain st = (r, st1)
             /\ warnings st1 = (warnings st ++ added)%list
             /\ (List.length added <= 1)%nat).
  { unfold Docs.extractBrandingWithCssColors, mbind, lift.
    destruct (extractLogoFromCloud_warnings w (Str.removeFirst "www." domain)
                url st) as (r & st1 & added & -> & W & L).
    destruct r as [logoResult|e]; [|now exists (Throw e), st1, added].
    destruct (openPage w url) as [page|e]; [|now exists (Throw e), st1, added].
    destruct (Docs.overrideColors _ _) as [colors|e];
      [|now exists (Throw e), st1, added].
    destruct (detectTheme colors) as [theme|e];
      [|now exists (Throw e), st1, added].
    eexists. exists st1, added. split; [reflexivity|]. now split. }
  destruct I as (r & st1 & added & -> & W & L).
  destruct r as [r|e].
  - exists r, st1, added. split; [reflexivity|]. split; [exact W|].
    split; [lia|]. intros e st2 H. discriminate H.
  - eexists. eexists.
    exists (added ++ [("Branding extraction failed: " ++ errorMessage e)%string])%list.
    split; [reflexivity|]. cbn [warnings]. rewrite W.
    split; [now rewrite <- app_assoc|].
    split; [rewrite length_app; simpl; lia|].
    intros e' st2 H. injection H as <- <-. split; [reflexivity|].
    now rewrite W.
Qed.

Lemma extractDocsBranding_total_witness :
  exists r st',
    Docs.extractDocsBranding offline "https://example.com/docs" "example.com"
      freshState = (Normal r, st')
    /\ url (logo r)
       = "https://www.google.com/s2/favicons?domain=example.com&sz=256"
    /\ colors r
       = mkColors (VStr "#0066FF") (VStr "#003D99") (VStr "#66B3FF")
                  (VStr "#FFFFFF")
    /\ List.length (warnings st') = 2%nat.
Proof.
  destruct (extractDocsBranding_total offline "https://example.com/docs"
              "example.com" freshState) as (r & st' & added & E & W & L & F).
  exists r, st'. split; [exact E|].
  destruct (F (Rejected "net::ERR_INTERNET_DISCONNECTED")
              (mkState (probesAfter freshState "example.com"
                          "https://example.com" 6)
                       [faviconWarning "example.com"])
              eq_refl) as [-> Ws].
  split; [reflexivity|]. split; [reflexivity|]. rewrite Ws. reflexivity.
Defined.

Open Scope Q_scope.

(** ** The conversion from HSL against exact arithmetic *)

Lemma Qlt_bool_true (a b : Q) : Qlt_bool a b = true <-> a < b.
Proof.
  unfold Qlt_bool. rewrite negb_true_iff. split; intros H.
  - apply Qnot_le_lt. intros C. apply Qle_bool_iff in C. congruence.
  - destruct (Qle_bool b a) eqn:E; [|reflexivity].
    apply Qle_bool_iff in E. lra.
Qed.

Lemma Qlt_bool_false (a b : Q) : Qlt_bool a b = false <-> b <= a.
Proof.
  unfold Qlt_bool. rewrite negb_false_iff. apply Qle_bool_iff.
Qed.

Ltac qcases :=
  cbv zeta;
  repeat match goal with
         | |- context [Qlt_bool ?a ?b] =>
             lazymatch a with
             | context [Qlt_bool _ _] => fail
             | _ =>
                 let E := fresh "E" in
                 destruct (Qlt_bool a b) eqn:E;
                 [apply Qlt_bool_true in E|apply Qlt_bool_false in E]
             end
         end.

Lemma hue2rgbQ_ramp (p q t : Q) :
  hue2rgbQ p q t == p + (q - p) * ramp (wrapQ t).
Proof.
  unfold hue2rgbQ, ramp, wrapQ. qcases; ring.
Qed.

Lemma ramp_range (u : Q) : 0 <= u -> 0 <= ramp u /\ ramp u <= 1.
Proof. intros H. unfold ramp. qcases; split; lra. Qed.

Lemma ramp_lipschitz (u v d : Q) :
  u - d <= v -> v <= u + d -> 
  ramp u - 6 * d <= ramp v /\ ramp v <= ramp u + 6 * d.
Proof. intros L U. unfold ramp. qcases; split; lra. Qed.

Lemma wrapQ_range (t : Q) : -1 <= t -> 0 <= wrapQ t.
Proof. intros H. unfold wrapQ. qcases; lra. Qed.

(** The share is continuous across the two adjustments. *)
Lemma ramp_wrap_lipschitz (t t' d : Q) :
  -(1 # 2) <= t -> -(1 # 2) <= t' -> d <= 1 # 10 ->
  t - d <= t' -> t' <= t + d ->
  ramp (wrapQ t) - 6 * d <= ramp (wrapQ t')
  /\ ramp (wrapQ t') <= ramp (wrapQ t) + 6 * d.
Proof.
  intros T T' D L U. unfold ramp, wrapQ. qcases; split; lra.
Qed.

Lemma eps_small : 0 < eps /\ eps <= 1 # 100000000000000.
Proof. split; reflexivity || discriminate. Qed.

Lemma sixth_gap : c6 <= 1 # 6 /\ (1 # 6) - c6 <= eps * (1 # 10).
Proof. split; vm_compute; discriminate. Qed.

Lemma two_thirds_gap : c23 <= 2 # 3 /\ (2 # 3) - c23 <= eps * (1 # 10).
Proof. split; vm_compute; discriminate. Qed.

Lemma third_gap : c13 <= 1 # 3 /\ (1 # 3) - c13 <= eps * (1 # 10).
Proof. split; vm_compute; discriminate. Qed.

(** The two adjustments of [hue2rgb] in binary64 against the exact ones. *)
Lemma hue_wrap_close (t : Q) :
  -(1 # 2) <= t -> t <= 15 ->
  exists u,
    (let t1 := if Num.ltb (Num.Fin t) (Num.Fin 0)
               then Num.add (Num.Fin t) (Num.Fin 1) else Num.Fin t in
     if Num.gtb t1 (Num.Fin 1) then Num.sub t1 (Num.Fin 1) else t1)
    = Num.Fin u
    /\ 0 <= u /\ u <= 15
    /\ wrapQ t - eps <= u /\ u <= wrapQ t + eps.
Proof.
  intros T0 T1. destruct eps_small as [e0 e1]. cbv zeta. unfold wrapQ.
  destruct (Num.ltb (Num.Fin t) (Num.Fin 0)) eqn:L.
  - apply ltb_Fin in L.
    apply Qlt_bool_true in L as L'. rewrite L'.
    destruct (RN_between_ints (t + 1) 0 1 ltac:(lia) ltac:(lia))
      as (u & E & U0 & U1).
    { change (inject_Z 0) with 0. lra. }
    { change (inject_Z 1) with 1. lra. }
    change (inject_Z 0) with 0 in U0. change (inject_Z 1) with 1 in U1.
    destruct (RN_16' (t + 1)) as (u' & E' & Lu & Uu); try lra.
    rewrite E in E'. injection E' as <-.
    unfold Num.add. rewrite E. unfold Num.gtb.
    assert (G : Num.ltb (Num.Fin 1) (Num.Fin u) = false)
      by (apply ltb_Fin_false; exact U1).
    rewrite G.
    assert (G' : Qlt_bool 1 (t + 1) = false) by (apply Qlt_bool_false; lra).
    rewrite G'. exists u. repeat split; lra.
  - apply ltb_Fin_false in L.
    apply Qlt_bool_false in L as L'. rewrite L'.
    unfold Num.gtb. destruct (Num.ltb (Num.Fin 1) (Num.Fin t)) eqn:G.
    + apply ltb_Fin in G. apply Qlt_bool_true in G as G'. rewrite G'.
      unfold Num.sub, Num.neg, Num.add.
      destruct (RN_between_ints (t + Qopp 1) 0 15 ltac:(lia) ltac:(lia))
        as (u & E & U0 & U1).
      { change (inject_Z 0) with 0. lra. }
      { change (inject_Z 15) with 15. lra. }
      change (inject_Z 0) with 0 in U0. change (inject_Z 15) with 15 in U1.
      destruct (RN_16' (t + Qopp 1)) as (u' & E' & Lu & Uu); try lra.
      rewrite E in E'. injection E' as <-.
      rewrite E. exists u. repeat split; lra.
    + apply ltb_Fin_false in G. apply Qlt_bool_false in G as G'. rewrite G'.
      exists t. repeat split; lra.
Qed.

Lemma prod_bound (x y A B : Q) :
  - A <= x -> x <= A -> - B <= y -> y <= B ->
  - (A * B) <= x * y /\ x * y <= A * B.
Proof. intros. split; nra. Qed.

Lemma ramp_1 (u : Q) : u < 1 # 6 -> ramp u == 6 * u.
Proof. intros H. unfold ramp. qcases; lra. Qed.

Lemma ramp_2 (u : Q) : 1 # 6 <= u -> u < 1 # 2 -> ramp u == 1.
Proof. intros H1 H2. unfold ramp. qcases; lra. Qed.

Lemma ramp_3 (u : Q) :
  1 # 2 <= u -> u < 2 # 3 -> ramp u == ((2 # 3) - u) * 6.
Proof. intros H1 H2. unfold ramp. qcases; lra. Qed.

Lemma ramp_4 (u : Q) : 2 # 3 <= u -> ramp u == 0.
Proof. intros H. unfold ramp. qcases; lra. Qed.

(** The branches of [hue2rgb] in binary64 against the exact share. *)
Lemma hue_branch_close (p q u : Q) :
  nearUnit p tiny -> nearUnit q tiny -> 0 <= u -> u <= 15 ->
  exists r,
    (if Num.ltb (Num.Fin u) (Num.Fin c6)
     then Num.add (Num.Fin p)
            (Num.mul (Num.mul (Num.sub (Num.Fin q) (Num.Fin p)) (Num.Fin 6))
                     (Num.Fin u))
     else if Num.ltb (Num.Fin u) (Num.Fin (1 # 2)) then Num.Fin q
     else if Num.ltb (Num.Fin u) (Num.Fin c23)
     then Num.add (Num.Fin p)
            (Num.mul (Num.mul (Num.sub (Num.Fin q) (Num.Fin p))
                              (Num.sub (Num.Fin c23) (Num.Fin u)))
                     (Num.Fin 6))
     else Num.Fin p) = Num.Fin r
    /\ p + (q - p) * ramp u - 40 * eps <= r
    /\ r <= p + (q - p) * ramp u + 40 * eps.
Proof.
  intros [P0 P1] [Q0 Q1] U0 U1. unfold tiny in *.
  destruct eps_small as [e0 e1].
  destruct c6_bounds as [s0 s1]. destruct c23_bounds as [w0 w1].
  destruct sixth_gap as [g0 g1]. destruct two_thirds_gap as [h0 h1].
  destruct (Num.ltb (Num.Fin u) (Num.Fin c6)) eqn:L1.
  - apply ltb_Fin in L1.
    pose proof (ramp_1 u ltac:(lra)) as R.
    unfold Num.sub, Num.neg, Num.add, Num.mul.
    round16 (q + - p) d Ed Ld Ud; try lra.
    round16 (d * 6) a Ea La Ua; try lra.
    pose proof (prod_bound a u 7 1 ltac:(lra) ltac:(lra) ltac:(lra) ltac:(lra))
      as [B1 B2].
    round16 (a * u) b Eb Lb Ub; try lra.
    round16 (p + b) r Er Lr Ur; try lra.
    pose proof (prod_bound (a - 6 * (q - p)) u (7 * eps) 1
                  ltac:(lra) ltac:(lra) ltac:(lra) ltac:(lra)) as [C1 C2].
    exists r. split; [reflexivity|]. rewrite R. split; lra.
  - apply ltb_Fin_false in L1.
    destruct (Num.ltb (Num.Fin u) (Num.Fin (1 # 2))) eqn:L2.
    + apply ltb_Fin in L2. exists q. split; [reflexivity|].
      destruct (Qlt_le_dec u (1 # 6)) as [G|G].
      * rewrite (ramp_1 u G).
        pose proof (prod_bound (q - p) (1 - 6 * u) 2 eps
                      ltac:(lra) ltac:(lra) ltac:(lra) ltac:(lra)) as [C1 C2].
        split; lra.
      * rewrite (ramp_2 u G L2). split; lra.
    + apply ltb_Fin_false in L2.
      destruct (Num.ltb (Num.Fin u) (Num.Fin c23)) eqn:L3.
      * apply ltb_Fin in L3.
        pose proof (ramp_3 u L2 ltac:(lra)) as R.
        unfold Num.sub, Num.neg, Num.add, Num.mul.
        round16 (q + - p) d Ed Ld Ud; try lra.
        round16 (c23 + - u) x Ex Lx Ux; try lra.
        pose proof (prod_bound d x 2 1
                      ltac:(lra) ltac:(lra) ltac:(lra) ltac:(lra)) as [B1 B2].
        round16 (d * x) a Ea La Ua; try lra.
        round16 (a * 6) b Eb Lb Ub; try lra.
        round16 (p + b) r Er Lr Ur; try lra.
        pose proof (prod_bound (d - (q - p)) x eps 1
                      ltac:(lra) ltac:(lra) ltac:(lra) ltac:(lra)) as [C1 C2].
        pose proof (prod_bound (q - p) (x - ((2 # 3) - u)) 2 (2 * eps)
                      ltac:(lra) ltac:(lra) ltac:(lra) ltac:(lra)) as [C3 C4].
        exists r. split; [reflexivity|]. rewrite R. split; lra.
      * apply ltb_Fin_false in L3. exists p. split; [reflexivity|].
        destruct (Qlt_le_dec u (2 # 3)) as [G|G].
        -- rewrite (ramp_3 u L2 G).
           pose proof (prod_bound (q - p) (((2 # 3) - u) * 6) 2 eps
                         ltac:(lra) ltac:(lra) ltac:(lra) ltac:(lra))
             as [C1 C2].
           split; lra.
        -- rewrite (ramp_4 u G). split; lra.
Qed.

(** [hue2rgb] in binary64 against [hue2rgbQ]. *)
Lemma hue2rgb_close (p' q' t' p q t : Q) :
  nearUnit p' tiny -> nearUnit q' tiny ->
  p - 30 * eps <= p' -> p' <= p + 30 * eps ->
  q - 30 * eps <= q' -> q' <= q + 30 * eps ->
  -(1 # 2) <= t' -> t' <= 15 -> -(1 # 2) <= t ->
  t - 4 * eps <= t' -> t' <= t + 4 * eps ->
  exists r, hue2rgb (Num.Fin p') (Num.Fin q') (Num.Fin t') = Num.Fin r
            /\ nearUnit r (1 # 1000)
            /\ hue2rgbQ p q t - 200 * eps <= r
            /\ r <= hue2rgbQ p q t + 200 * eps.
Proof.
  intros P Q Lp Up Lq Uq T0 T1 T2 Lt Ut.
  destruct eps_small as [e0 e1].
  assert (A : hueArg (Num.Fin t')).
  { right. exists t'. split; [reflexivity|lra]. }
  destruct (hue2rgb_bounds p' q' _ P Q A) as (r0 & E0 & N0).
  destruct (hue_wrap_close t' T0 T1) as (u & E & U0 & U1 & Lu & Uu).
  destruct (hue_branch_close p' q' u P Q U0 U1) as (r & Er & Lr & Ur).
  assert (E1 : hue2rgb (Num.Fin p') (Num.Fin q') (Num.Fin t') = Num.Fin r).
  { unfold hue2rgb.
    rewrite sixth_eq, half_eq, two_thirds_eq, lit0, lit1, lit6.
    cbv zeta in E |- *. rewrite E. exact Er. }
  exists r. split; [exact E1|].
  rewrite E1 in E0. injection E0 as <-. split; [exact N0|].
  destruct (ramp_lipschitz (wrapQ t') u eps Lu Uu) as [R1 R2].
  destruct (ramp_wrap_lipschitz t t' (4 * eps) T2 T0 ltac:(lra) Lt Ut)
    as [R3 R4].
  destruct (ramp_range (wrapQ t)) as [R5 R6].
  { apply wrapQ_range. lra. }
  destruct P as [P0 P1]. destruct Q as [Q0 Q1]. unfold tiny in *.
  pose proof (prod_bound (q' - p') (ramp u - ramp (wrapQ t)) 2 (30 * eps)
                ltac:(lra) ltac:(lra) ltac:(lra) ltac:(lra)) as [C1 C2].
  pose proof (prod_bound (q' - p' - (q - p)) (ramp (wrapQ t)) (60 * eps) 1
                ltac:(lra) ltac:(lra) ltac:(lra) ltac:(lra)) as [C3 C4].
  rewrite (hue2rgbQ_ramp p q t). split; lra.
Qed.

(** [q] and [p] in exact arithmetic stay within the saturation of the
    lightness, and in the unit interval. *)
Lemma qQ_range (s l : Q) :
  0 <= s -> s <= 1 -> 0 <= l -> l <= 1 ->
  (l <= qQ s l /\ qQ s l <= l + s /\ qQ s l <= 1)
  /\ (l - s <= 2 * l - qQ s l /\ 2 * l - qQ s l <= l /\ 0 <= 2 * l - qQ s l).
Proof.
  intros S0 S1 L0 L1. unfold qQ. qcases; repeat split; nra.
Qed.

(** A channel in exact arithmetic lies between [p] and [q]. *)
Lemma hue2rgbQ_between (p q t lo hi : Q) :
  -1 <= t -> lo <= p -> p <= hi -> lo <= q -> q <= hi ->
  lo <= hue2rgbQ p q t /\ hue2rgbQ p q t <= hi.
Proof.
  intros T P0 P1 Q0 Q1.
  destruct (ramp_range (wrapQ t) (wrapQ_range t T)) as [R0 R1].
  rewrite (hue2rgbQ_ramp p q t). split; nra.
Qed.

(** [q] and [p] of [hslToHex] in binary64 against exact arithmetic. *)
Lemma hsl_pq_close (s' l' s l : Q) :
  0 <= s' -> s' <= 1 -> 0 <= l' -> l' <= 1 ->
  0 <= s -> s <= 1 -> 0 <= l -> l <= 1 ->
  s - 2 * eps <= s' -> s' <= s + 2 * eps ->
  l - 2 * eps <= l' -> l' <= l + 2 * eps ->
  exists q',
    (if Num.ltb (Num.Fin l') (Num.Fin (1 # 2))
     then Num.mul (Num.Fin l') (Num.add (Num.Fin 1) (Num.Fin s'))
     else Num.sub (Num.add (Num.Fin l') (Num.Fin s'))
                  (Num.mul (Num.Fin l') (Num.Fin s'))) = Num.Fin q'
    /\ (qQ s l - 20 * eps <= q' /\ q' <= qQ s l + 20 * eps)
    /\ exists p',
         Num.sub (Num.mul (Num.Fin 2) (Num.Fin l')) (Num.Fin q') = Num.Fin p'
         /\ 2 * l - qQ s l - 30 * eps <= p'
         /\ p' <= 2 * l - qQ s l + 30 * eps.
Proof.
  intros S0' S1' L0' L1' S0 S1 L0 L1 Ls Us Ll Ul.
  destruct eps_small as [e0 e1].
  pose proof (prod_bound (l' - l) s (2 * eps) 1
                ltac:(lra) ltac:(lra) ltac:(lra) ltac:(lra)) as [C1 C2].
  pose proof (prod_bound l' (s' - s) 1 (2 * eps)
                ltac:(lra) ltac:(lra) ltac:(lra) ltac:(lra)) as [C3 C4].
  assert (QE : qQ s l - 8 * eps <= l' * (1 + s')
               /\ l' * (1 + s') <= qQ s l + 8 * eps
               \/ (1 # 2) - 2 * eps <= l' /\ 1 # 2 <= l).
  { unfold qQ. destruct (Qlt_bool l (1 # 2)) eqn:B.
    - left. split; lra.
    - right. apply Qlt_bool_false in B. split; lra. }
  assert (QF : qQ s l - 8 * eps <= l' + s' - l' * s'
               /\ l' + s' - l' * s' <= qQ s l + 8 * eps
               \/ l' < (1 # 2) + 2 * eps /\ l < 1 # 2).
  { unfold qQ. destruct (Qlt_bool l (1 # 2)) eqn:B.
    - right. apply Qlt_bool_true in B. split; lra.
    - left. split; lra. }
  assert (Q' : exists q',
             (if Num.ltb (Num.Fin l') (Num.Fin (1 # 2))
              then Num.mul (Num.Fin l') (Num.add (Num.Fin 1) (Num.Fin s'))
              else Num.sub (Num.add (Num.Fin l') (Num.Fin s'))
                     (Num.mul (Num.Fin l') (Num.Fin s'))) = Num.Fin q'
             /\ qQ s l - 20 * eps <= q' /\ q' <= qQ s l + 20 * eps).
  { destruct (Num.ltb (Num.Fin l') (Num.Fin (1 # 2))) eqn:B.
    - apply ltb_Fin in B. unfold Num.sub, Num.neg, Num.add, Num.mul.
      round16 (1 + s') a Ea La Ua; try lra.
      pose proof (prod_bound l' a 1 3
                    ltac:(lra) ltac:(lra) ltac:(lra) ltac:(lra)) as [B1 B2].
      round16 (l' * a) q' Eqq Lq Uq; try lra.
      pose proof (prod_bound l' (a - (1 + s')) 1 eps
                    ltac:(lra) ltac:(lra) ltac:(lra) ltac:(lra)) as [B3 B4].
      exists q'. split; [reflexivity|].
      destruct QE as [[G1 G2]|[G1 G2]]; [split; lra|].
      (* the lightness is at one half up to rounding *)
      assert (G : qQ s l == l + s - l * s).
      { unfold qQ. assert (X : Qlt_bool l (1 # 2) = false)
          by (apply Qlt_bool_false; exact G2). now rewrite X. }
      pose proof (prod_bound s (2 * l - 1) 1 (4 * eps)
                    ltac:(lra) ltac:(lra) ltac:(lra) ltac:(lra)) as [B5 B6].
      rewrite G. split; lra.
    - apply ltb_Fin_false in B. unfold Num.sub, Num.neg, Num.add, Num.mul.
      round16 (l' + s') b Eb Lb Ub; try lra.
      pose proof (prod_bound l' s' 1 1
                    ltac:(lra) ltac:(lra) ltac:(lra) ltac:(lra)) as [B1 B2].
      round16 (l' * s') c Ec Lc Uc; try lra.
      round16 (b + - c) q' Eqq Lq Uq; try lra.
      exists q'. split; [reflexivity|].
      destruct QF as [[G1 G2]|[G1 G2]]; [split; lra|].
      assert (G : qQ s l == l * (1 + s)).
      { unfold qQ. assert (X : Qlt_bool l (1 # 2) = true)
          by (apply Qlt_bool_true; exact G2). now rewrite X. }
      pose proof (prod_bound s (2 * l - 1) 1 (4 * eps)
                    ltac:(lra) ltac:(lra) ltac:(lra) ltac:(lra)) as [B5 B6].
      rewrite G. split; lra. }
  destruct Q' as (q' & -> & Lq & Uq).
  destruct (qQ_range s l S0 S1 L0 L1) as ((X1 & X2 & X3) & (X4 & X5 & X6)).
  exists q'. split; [reflexivity|]. split; [split; assumption|].
  unfold Num.sub, Num.neg, Num.add, Num.mul.
  round16 (2 * l') m Em Lm Um; try lra.
  round16 (m + - q') p' Ep Lp Up; try lra.
  exists p'. split; [reflexivity|]. split; lra.
Qed.

(** The arguments of the three calls of [hue2rgb]. *)
Lemma hue_args_close (h' h : Q) :
  0 <= h' -> h' <= 10 -> 0 <= h ->
  h - 2 * eps <= h' -> h' <= h + 2 * eps ->
  exists t1 t3,
    Num.add (Num.Fin h') (Num.Fin c13) = Num.Fin t1
    /\ Num.sub (Num.Fin h') (Num.Fin c13) = Num.Fin t3
    /\ (-(1 # 2) <= t1 /\ t1 <= 15
        /\ h + (1 # 3) - 4 * eps <= t1 /\ t1 <= h + (1 # 3) + 4 * eps)
    /\ (-(1 # 2) <= t3 /\ t3 <= 15
        /\ h - (1 # 3) - 4 * eps <= t3 /\ t3 <= h - (1 # 3) + 4 * eps).
Proof.
  intros H0 H1 H2 Lh Uh. destruct eps_small as [e0 e1].
  destruct c13_bounds as [t0 t1']. destruct third_gap as [g0 g1].
  unfold Num.sub, Num.neg, Num.add.
  destruct (RN_16' (h' + c13)) as (t1 & -> & L1 & U1); try lra.
  destruct (RN_16' (h' + - c13)) as (t3 & -> & L3 & U3); try lra.
  exists t1, t3. repeat split; lra.
Qed.

(** One channel of [hslToHex] against its exact value. *)
Lemma channel_byte_close (r' r : Q) :
  nearUnit r' (1 # 1000) ->
  r - 200 * eps <= r' -> r' <= r + 200 * eps ->
  exists n, hexByte (Num.mul (Num.Fin r') (Num.Fin 255)) = twoHex n
            /\ byteOfChannel r n.
Proof.
  intros [R0 R1] Lr Ur. destruct eps_small as [e0 e1]. unfold Num.mul.
  destruct (RN_approx (r' * 255) 8 ltac:(lia)) as (v & E & B).
  { change (Num.pow2 8) with 256. apply Qabs_Qle_condition. split; lra. }
  change (Num.pow2 (8 - 53)) with (1 # 2 ^ 45) in B.
  assert (B' : (1 # 2 ^ 45) <= 16 * eps) by (vm_compute; discriminate).
  apply Qabs_Qle_condition in B.
  assert (N : (0 <= Qfloor (v + (1 # 2)) < 256)%Z).
  { apply Qfloor_range.
    - change (inject_Z 0) with 0. lra.
    - change (inject_Z 256) with 256. lra. }
  exists (Qfloor (v + (1 # 2))). split.
  - unfold hexByte. rewrite E. cbn [Num.round]. now apply byte_hex.
  - unfold byteOfChannel. split; [exact N|].
    pose proof (Qfloor_le (v + (1 # 2))) as F1.
    pose proof (Qlt_floor (v + (1 # 2))) as F2.
    rewrite inject_Z_plus in F2. change (inject_Z 1) with 1 in F2.
    split; lra.
Qed.

(** The channels of [hslToRgbQ] are those of its general case, also for a
    saturation of zero. *)
Lemma hslToRgbQ_channels (h s l r g b : Q) :
  0 <= h -> 0 <= s -> s <= 1 -> 0 <= l -> l <= 1 ->
  hslToRgbQ h s l = (r, g, b) ->
  (r == hue2rgbQ (2 * l - qQ s l) (qQ s l) (h + (1 # 3))
   /\ g == hue2rgbQ (2 * l - qQ s l) (qQ s l) h
   /\ b == hue2rgbQ (2 * l - qQ s l) (qQ s l) (h - (1 # 3)))
  /\ (l - s <= r /\ r <= l + s)
  /\ (l - s <= g /\ g <= l + s)
  /\ (l - s <= b /\ b <= l + s).
Proof.
  intros H0 S0 S1 L0 L1 E.
  destruct (qQ_range s l S0 S1 L0 L1) as ((X1 & X2 & X3) & (X4 & X5 & X6)).
  assert (B : forall t, -1 <= t ->
            l - s <= hue2rgbQ (2 * l - qQ s l) (qQ s l) t
            /\ hue2rgbQ (2 * l - qQ s l) (qQ s l) t <= l + s).
  { intros t T. apply hue2rgbQ_between; lra. }
  destruct (B (h + (1 # 3)) ltac:(lra)) as [B1 B2].
  destruct (B h ltac:(lra)) as [B3 B4].
  destruct (B (h - (1 # 3)) ltac:(lra)) as [B5 B6].
  unfold hslToRgbQ in E. destruct (Qeq_bool s 0) eqn:Z.
  - apply Qeq_bool_iff in Z. injection E as <- <- <-.
    repeat split; lra.
  - cbv zeta in E. fold (qQ s l) in E. injection E as <- <- <-.
    repeat split; lra || reflexivity.
Qed.

(** [hslToHex] against exact arithmetic. *)
Lemma hslToHex_close (h' s' l' h s l r g b : Q) :
  0 <= h' -> h' <= 10 -> 0 <= h ->
  h - 2 * eps <= h' -> h' <= h + 2 * eps ->
  0 <= s' -> s' <= 1 -> 0 <= l' -> l' <= 1 ->
  0 <= s -> s <= 1 -> 0 <= l -> l <= 1 ->
  s - 2 * eps <= s' -> s' <= s + 2 * eps ->
  l - 2 * eps <= l' -> l' <= l + 2 * eps ->
  hslToRgbQ h s l = (r, g, b) ->
  exists nr ng nb,
    hslToHex (Num.Fin h') (Num.Fin s') (Num.Fin l')
    = ("#" ++ twoHex nr ++ twoHex ng ++ twoHex nb)%string
    /\ byteOfChannel r nr /\ byteOfChannel g ng /\ byteOfChannel b nb.
Proof.
  intros H0' H1' H0 Lh Uh S0' S1' L0' L1' S0 S1 L0 L1 Ls Us Ll Ul E.
  destruct eps_small as [e0 e1].
  destruct (hslToRgbQ_channels h s l r g b H0 S0 S1 L0 L1 E)
    as ((Cr & Cg & Cb) & (Br0 & Br1) & (Bg0 & Bg1) & (Bb0 & Bb1)).
  unfold hslToHex. rewrite third_eq, lit_half, lit1, lit2, lit255.
  destruct (Num.is_zero (Num.Fin s')) eqn:Z.
  - cbn [Num.is_zero] in Z. apply Qeq_bool_iff in Z.
    assert (N : nearUnit l' (1 # 1000)) by (unfold nearUnit; split; lra).
    destruct (channel_byte_close l' r N ltac:(lra) ltac:(lra)) as (nr & Er & Nr).
    destruct (channel_byte_close l' g N ltac:(lra) ltac:(lra)) as (ng & Eg & Ng).
    destruct (channel_byte_close l' b N ltac:(lra) ltac:(lra)) as (nb & Eb & Nb).
    unfold hexTriple. exists nr, ng, nb.
    split; [|split; [exact Nr|split; [exact Ng|exact Nb]]].
    rewrite Er at 1. rewrite Eg at 1. rewrite Eb. reflexivity.
  - destruct (hsl_pq_close s' l' s l S0' S1' L0' L1' S0 S1 L0 L1 Ls Us Ll Ul)
      as (q' & -> & (Lq & Uq) & p' & -> & Lp & Up).
    destruct (qQ_range s l S0 S1 L0 L1) as ((X1 & X2 & X3) & (X4 & X5 & X6)).
    assert (Q : nearUnit q' tiny) by (unfold nearUnit, tiny; split; lra).
    assert (P : nearUnit p' tiny) by (unfold nearUnit, tiny; split; lra).
    destruct (hue_args_close h' h H0' H1' H0 Lh Uh)
      as (t1 & t3 & -> & -> & (A1 & A2 & A3 & A4) & (A5 & A6 & A7 & A8)).
    destruct (hue2rgb_close p' q' t1 (2 * l - qQ s l) (qQ s l) (h + (1 # 3))
                P Q ltac:(lra) ltac:(lra) ltac:(lra) ltac:(lra)
                A1 A2 ltac:(lra) A3 A4) as (r' & -> & Nr' & Lr & Ur).
    destruct (hue2rgb_close p' q' h' (2 * l - qQ s l) (qQ s l) h
                P Q ltac:(lra) ltac:(lra) ltac:(lra) ltac:(lra)
                ltac:(lra) ltac:(lra) ltac:(lra) ltac:(lra) ltac:(lra))
      as (g' & -> & Ng' & Lg & Ug).
    destruct (hue2rgb_close p' q' t3 (2 * l - qQ s l) (qQ s l) (h - (1 # 3))
                P Q ltac:(lra) ltac:(lra) ltac:(lra) ltac:(lra)
                A5 A6 ltac:(lra) A7 A8) as (b' & -> & Nb' & Lb & Ub).
    destruct (channel_byte_close r' r Nr' ltac:(lra) ltac:(lra))
      as (nr & Er & Nr).
    destruct (channel_byte_close g' g Ng' ltac:(lra) ltac:(lra))
      as (ng & Eg & Ng).
    destruct (channel_byte_close b' b Nb' ltac:(lra) ltac:(lra))
      as (nb & Eb & Nb).
    unfold hexTriple. rewrite Er, Eg, Eb.
    exists nr, ng, nb.
    split; [reflexivity|split; [exact Nr|split; [exact Ng|exact Nb]]].
Qed.

(** A percentage of the text as [hslToHex] receives it. *)
Lemma percent_close (n : Numeral) :
  validNum n = true -> Qle_bool (numValue n) 100 = true ->
  exists s, Num.div (parseFloat (writeNum n)) (Num.lit 100 1) = Num.Fin s
            /\ (0 <= s /\ s <= 1)
            /\ numValue n / 100 - 2 * eps <= s
            /\ s <= numValue n / 100 + 2 * eps.
Proof.
  intros V B. apply Qle_bool_iff in B. destruct eps_small as [e0 e1].
  pose proof (numValue_nonneg n) as P.
  rewrite (parseFloat_num n V), lit100.
  destruct (RN_between_ints (numValue n) 0 100 ltac:(lia) ltac:(lia) P B)
    as (v & E & V0 & V1).
  destruct (RN_approx (numValue n) 7 ltac:(lia)) as (v' & E' & A).
  { change (Num.pow2 7) with 128. apply Qabs_Qle_condition. split; lra. }
  rewrite E in E'. injection E' as <-. rewrite E.
  change (Num.pow2 (7 - 53)) with (1 # 2 ^ 46) in A.
  assert (A' : (1 # 2 ^ 46) <= 8 * eps) by (vm_compute; discriminate).
  apply Qabs_Qle_condition in A.
  unfold Num.div. change (Num.iszero 100) with false. cbv iota.
  change (inject_Z 0) with 0 in V0. change (inject_Z 100) with 100 in V1.
  unfold Qdiv. change (/ 100) with (1 # 100).
  destruct (RN_between_ints (v * (1 # 100)) 0 1 ltac:(lia) ltac:(lia))
    as (s & Es & S0 & S1).
  { change (inject_Z 0) with 0. lra. }
  { change (inject_Z 1) with 1. lra. }
  change (inject_Z 0) with 0 in S0. change (inject_Z 1) with 1 in S1.
  destruct (RN_16' (v * (1 # 100))) as (s' & Es' & Ls & Us); try lra.
  rewrite Es in Es'. injection Es' as <-.
  exists s. split; [exact Es|]. split; [split; assumption|]. split; lra.
Qed.

(** A hue of the text, up to ten turns, as [hslToHex] receives it. *)
Lemma hue_close (n : Numeral) :
  validNum n = true -> numValue n <= 3600 ->
  exists h, Num.div (parseFloat (writeNum n)) (Num.lit 360 1) = Num.Fin h
            /\ (0 <= h /\ h <= 10)
            /\ numValue n / 360 - 2 * eps <= h
            /\ h <= numValue n / 360 + 2 * eps.
Proof.
  intros V B. destruct eps_small as [e0 e1].
  pose proof (numValue_nonneg n) as P.
  rewrite (parseFloat_num n V), lit360.
  destruct (RN_between_ints (numValue n) 0 3600 ltac:(lia) ltac:(lia) P B)
    as (v & E & V0 & V1).
  destruct (RN_approx (numValue n) 12 ltac:(lia)) as (v' & E' & A).
  { change (Num.pow2 12) with 4096. apply Qabs_Qle_condition. split; lra. }
  rewrite E in E'. injection E' as <-. rewrite E.
  change (Num.pow2 (12 - 53)) with (1 # 2 ^ 41) in A.
  assert (A' : (1 # 2 ^ 41) <= 256 * eps) by (vm_compute; discriminate).
  apply Qabs_Qle_condition in A.
  unfold Num.div. change (Num.iszero 360) with false. cbv iota.
  change (inject_Z 0) with 0 in V0. change (inject_Z 3600) with 3600 in V1.
  unfold Qdiv. change (/ 360) with (1 # 360).
  destruct (RN_between_ints (v * (1 # 360)) 0 10 ltac:(lia) ltac:(lia))
    as (h & Eh & H0 & H1).
  { change (inject_Z 0) with 0. lra. }
  { change (inject_Z 10) with 10. lra. }
  change (inject_Z 0) with 0 in H0. change (inject_Z 10) with 10 in H1.
  destruct (RN_16' (v * (1 # 360))) as (h' & Eh' & Lh & Uh); try lra.
  rewrite Eh in Eh'. injection Eh' as <-.
  exists h. split; [exact Eh|]. split; [split; assumption|]. split; lra.
Qed.

(** For an [hsl()] or [hsla()] text with a hue up to 3600 and a saturation
    and a lightness between 0% and 100%, [rgbaToHex] writes the bytes of
    the conversion in exact arithmetic: each byte is the integer nearest
    to 255 times the exact channel, up to 10^-7. *)
Theorem rgbaToHex_hsl_accuracy (color : string) (x : HslText) :
  validHsl x = true -> Str.trim color = writeHsl x ->
  numValue (hue x) <= 3600 ->
  exists nr ng nb,
    rgbaToHex (VStr color)
    = VStr ("#" ++ twoHex nr ++ twoHex ng ++ twoHex nb)%string
    /\ bytesOfChannels
         (hslToRgbQ (numValue (hue x) / 360) (numValue (saturation x) / 100)
                    (numValue (lightness x) / 100)) nr ng nb.
Proof.
  intros V T B. destruct (hslMatch_write x V) as [M R].
  apply validHsl_spec in V.
  destruct V as (_ & (NH & NS & NL) & (BS & BL) & _).
  assert (NC : Str.isEmpty color = false).
  { destruct color; [discriminate T|reflexivity]. }
  assert (S : Str.startsWith (Str.trim color) "#" = false).
  { destruct (Str.startsWith (Str.trim color) "#") eqn:S; [|reflexivity].
    apply startsWith_hash in S. destruct S as [t S]. rewrite S in T.
    discriminate T. }
  destruct (hue_close _ NH B) as (h' & Eh & (H0 & H1) & Lh & Uh).
  destruct (percent_close _ NS BS) as (s' & Es & (S0 & S1) & Ls & Us).
  destruct (percent_close _ NL BL) as (l' & El & (L0 & L1) & Ll & Ul).
  pose proof (numValue_nonneg (hue x)) as PH.
  pose proof (numValue_nonneg (saturation x)) as PS.
  pose proof (numValue_nonneg (lightness x)) as PL.
  apply Qle_bool_iff in BS. apply Qle_bool_iff in BL.
  unfold rgbaToHex. rewrite NC, S, T, R, M, Eh, Es, El.
  unfold Qdiv in *. change (/ 360) with (1 # 360) in *.
  change (/ 100) with (1 # 100) in *.
  destruct (hslToRgbQ (numValue (hue x) * (1 # 360))
              (numValue (saturation x) * (1 # 100))
              (numValue (lightness x) * (1 # 100))) as [[r g] b] eqn:E.
  destruct (hslToHex_close h' s' l' (numValue (hue x) * (1 # 360))
              (numValue (saturation x) * (1 # 100))
              (numValue (lightness x) * (1 # 100)) r g b
              H0 H1 ltac:(lra) Lh Uh S0 S1 L0 L1
              ltac:(lra) ltac:(lra) ltac:(lra) ltac:(lra) Ls Us Ll Ul E)
    as (nr & ng & nb & -> & Nr & Ng & Nb).
  exists nr, ng, nb. split; [reflexivity|].
  split; [exact Nr|split; [exact Ng|exact Nb]].
Qed.

Lemma rgbaToHex_hsl_accuracy_witness :
  exists nr ng nb,
    rgbaToHex (VStr "  hsl(210, 65.5%, 43%) ")
    = VStr ("#" ++ twoHex nr ++ twoHex ng ++ twoHex nb)%string
    /\ bytesOfChannels
         (hslToRgbQ (210 / 360) ((655 # 10) / 100) (43 / 100)) nr ng nb.
Proof.
  apply (rgbaToHex_hsl_accuracy "  hsl(210, 65.5%, 43%) "
           (mkHslText false EmptyString (mkNumeral "210" EmptyString)
              EmptyString " " (mkNumeral "65" "5") EmptyString " "
              (mkNumeral "43" EmptyString) ")")).
  - reflexivity.
  - reflexivity.
  - discriminate.
Defined.

(** ** Hues of two turns and more *)

Lemma RN_720 : Num.RN 720 = Num.Fin 720.
Proof. vm_compute. reflexivity. Qed.

Lemma RN_2 : Num.RN 2 = Num.Fin 2.
Proof. vm_compute. reflexivity. Qed.

Lemma RN_c23 : Num.RN c23 = Num.Fin c23.
Proof. vm_compute. reflexivity. Qed.

Lemma RN_below_third :
  exists v, Num.RN (2 + - c13) = Num.Fin v /\ 1 + c23 <= v.
Proof. eexists. split; [vm_compute; reflexivity|vm_compute; discriminate]. Qed.

(** The arguments [hue2rgb] answers with [p]: +infinity, or a value from
    [1 + 2/3] upwards. *)
Lemma hue2rgb_far (p q t : Num.number) :
  t = Num.Inf false \/ (exists t0, t = Num.Fin t0 /\ 1 + c23 <= t0) ->
  hue2rgb p q t = p.
Proof.
  destruct c23_bounds as [w0 w1]. destruct c6_bounds as [s0 s1].
  intros [->|(t0 & -> & T)]; unfold hue2rgb;
    rewrite sixth_eq, half_eq, two_thirds_eq, lit0, lit1; cbv zeta.
  - reflexivity.
  - assert (L : Num.ltb (Num.Fin t0) (Num.Fin 0) = false)
      by (apply ltb_Fin_false; lra).
    rewrite L. unfold Num.gtb.
    assert (G : Num.ltb (Num.Fin 1) (Num.Fin t0) = true)
      by (apply ltb_Fin; lra).
    rewrite G. unfold Num.sub, Num.neg, Num.add.
    destruct (RN_above c23 (t0 + - (1)) c23 ltac:(lra) ltac:(lra) RN_c23)
      as [->|(u & -> & U)].
    + reflexivity.
    + assert (L1 : Num.ltb (Num.Fin u) (Num.Fin c6) = false)
        by (apply ltb_Fin_false; lra).
      assert (L2 : Num.ltb (Num.Fin u) (Num.Fin (1 # 2)) = false)
        by (apply ltb_Fin_false; lra).
      assert (L3 : Num.ltb (Num.Fin u) (Num.Fin c23) = false)
        by (apply ltb_Fin_false; lra).
      now rewrite L1, L2, L3.
Qed.

(** A hue of 720 and more as [hslToHex] receives it. *)
Lemma hue_two_turns (n : Numeral) :
  validNum n = true -> 720 <= numValue n ->
  let h := Num.div (parseFloat (writeNum n)) (Num.lit 360 1) in
  h = Num.Inf false \/ exists h0, h = Num.Fin h0 /\ 2 <= h0.
Proof.
  intros V B. cbv zeta. rewrite (parseFloat_num n V), lit360.
  destruct (RN_above 720 (numValue n) 720 ltac:(lra) B RN_720)
    as [->|(v & -> & W)].
  - left. reflexivity.
  - unfold Num.div. change (Num.iszero 360) with false. cbv iota.
    destruct (RN_above 2 (v / 360) 2 ltac:(lra)) as [E|(w & E & X)].
    + apply Qle_shift_div_l; [reflexivity|]. lra.
    + exact RN_2.
    + left. exact E.
    + right. exists w. split; assumption.
Qed.

(** The three arguments of [hue2rgb] for a hue of two turns and more. *)
Lemma hue_args_far (h : Num.number) :
  h = Num.Inf false \/ (exists h0, h = Num.Fin h0 /\ 2 <= h0) ->
  forall p q,
    hue2rgb p q (Num.add h (Num.Fin c13)) = p
    /\ hue2rgb p q h = p
    /\ hue2rgb p q (Num.sub h (Num.Fin c13)) = p.
Proof.
  destruct c13_bounds as [t0 t1]. destruct c23_bounds as [w0 w1].
  intros H p q. split; [|split]; apply hue2rgb_far.
  - destruct H as [->|(h0 & -> & H)]; [left; reflexivity|].
    unfold Num.add.
    destruct (RN_above 2 (h0 + c13) 2 ltac:(lra) ltac:(lra) RN_2)
      as [E|(v & E & X)]; [now left|].
    right. exists v. split; [exact E|lra].
  - destruct H as [->|(h0 & -> & H)]; [left; reflexivity|].
    right. exists h0. split; [reflexivity|lra].
  - destruct H as [->|(h0 & -> & H)]; [left; reflexivity|].
    unfold Num.sub, Num.neg, Num.add.
    destruct RN_below_third as (v0 & E0 & X0).
    destruct (RN_above (2 + - c13) (h0 + - c13) v0 ltac:(lra) ltac:(lra) E0)
      as [E|(v & E & X)]; [now left|].
    right. exists v. split; [exact E|lra].
Qed.

(** [hslToHex] does not reduce the hue: for an [hsl()] or [hsla()] text
    with a hue of 720 or more and a saturation and a lightness between 0%
    and 100%, [rgbaToHex] writes a grey, three times the same byte. *)
Theorem rgbaToHex_hsl_two_turns (color : string) (x : HslText) :
  validHsl x = true -> Str.trim color = writeHsl x ->
  720 <= numValue (hue x) ->
  exists n, rgbaToHex (VStr color)
            = VStr ("#" ++ twoHex n ++ twoHex n ++ twoHex n)%string
            /\ (0 <= n < 256)%Z.
Proof.
  intros V T B. destruct (hslMatch_write x V) as [M R].
  apply validHsl_spec in V.
  destruct V as (_ & (NH & NS & NL) & (BS & BL) & _).
  assert (NC : Str.isEmpty color = false).
  { destruct color; [discriminate T|reflexivity]. }
  assert (S : Str.startsWith (Str.trim color) "#" = false).
  { destruct (Str.startsWith (Str.trim color) "#") eqn:S; [|reflexivity].
    apply startsWith_hash in S. destruct S as [t S]. rewrite S in T.
    discriminate T. }
  pose proof (hue_two_turns _ NH B) as Hh. cbv zeta in Hh.
  destruct (percent_of_text _ NS BS) as (s & Es & S0 & S1).
  destruct (percent_of_text _ NL BL) as (l & El & L0 & L1).
  unfold rgbaToHex. rewrite NC, S, T, R, M, Es, El.
  unfold hslToHex. rewrite third_eq, lit_half, lit1, lit2, lit255.
  destruct (Num.is_zero (Num.Fin s)).
  - destruct (channel_byte l) as (n & E & N).
    { unfold nearUnit. split; lra. }
    unfold hexTriple. rewrite E. exists n. split; [reflexivity|exact N].
  - destruct (hsl_pq s l S0 S1 L0 L1) as (q & -> & Q & p & -> & P).
    destruct (hue_args_far _ Hh (Num.Fin p) (Num.Fin q)) as (-> & -> & ->).
    destruct (channel_byte p) as (n & E & N).
    { destruct P as [P0 P1]. unfold nearUnit, tiny in *. split; lra. }
    unfold hexTriple. rewrite E. exists n. split; [reflexivity|exact N].
Qed.

Lemma rgbaToHex_hsl_two_turns_witness :
  (exists n, rgbaToHex (VStr "hsl(800, 65.5%, 43%)")
             = VStr ("#" ++ twoHex n ++ twoHex n ++ twoHex n)%string
             /\ (0 <= n < 256)%Z)
  /\ rgbaToHex (VStr "hsl(800, 65.5%, 43%)") = VStr "#262626"
  /\ rgbaToHex (VStr "hsl(80, 65.5%, 43%)") = VStr "#86b526".
Proof.
  split; [|split; vm_compute; reflexivity].
  apply (rgbaToHex_hsl_two_turns "hsl(800, 65.5%, 43%)"
           (mkHslText false EmptyString (mkNumeral "800" EmptyString)
              EmptyString " " (mkNumeral "65" "5") EmptyString " "
              (mkNumeral "43" EmptyString) ")")).
  - reflexivity.
  - reflexivity.
  - discriminate.
Defined.

Close Scope Q_scope.

(** ** The industry of the placeholder content *)

Lemma prefix_sep (c : ascii) (k a b : string) :
  allChars (fun x => negb (Ascii.eqb x c)) k = true ->
  String.prefix k (a ++ String c b) = String.prefix k a.
Proof.
  revert a. induction k as [|x k IH]; intros a H; [now destruct a|].
  cbn [allChars] in H. apply andb_true_iff in H. destruct H as [C H].
  destruct a as [|y a]; cbn [append String.prefix].
  - destruct (ascii_dec x c) as [->|N]; [|reflexivity].
    rewrite Ascii.eqb_refl in C. discriminate C.
  - destruct (ascii_dec x y); [now apply IH|reflexivity].
Qed.

(** A keyword without the character [c] occurs in [a c b] only inside [a]
    or inside [b]. *)
Lemma includes_sep (c : ascii) (k a b : string) :
  allChars (fun x => negb (Ascii.eqb x c)) k = true ->
  includes (a ++ String c b) k = includes a k || includes b k.
Proof.
  intros H. induction a as [|x a IH].
  - pose proof (prefix_sep c k EmptyString b H) as X.
    cbn [append] in X |- *. cbn [includes].
    rewrite X. now rewrite orb_false_r.
  - pose proof (prefix_sep c k (String x a) b H) as X.
    cbn [append] in X |- *. cbn [includes].
    rewrite IH, X. now rewrite orb_assoc.
Qed.

Lemma includes_space (k a b : string) :
  allChars notSpace k = true ->
  includes (a ++ String " " b) k = includes a k || includes b k.
Proof. apply includes_sep. Qed.

Lemma lower_upper (c : ascii) :
  Str.lowerChar (upperChar c) = Str.lowerChar c.
Proof. destruct c as [[] [] [] [] [] [] [] []]; reflexivity. Qed.

Lemma toLowerCase_capitalize (d : string) :
  Str.toLowerCase (Content.capitalize d) = Str.toLowerCase d.
Proof.
  destruct d as [|c d]; [reflexivity|].
  cbn [Content.capitalize Str.toLowerCase]. now rewrite lower_upper.
Qed.

(** The text [inferIndustry] searches for the placeholder content. *)
Lemma placeholder_text (hostname : string) :
  Str.toLowerCase (Content.placeholderTitle hostname ++ " "
                   ++ Content.placeholderDescription hostname)
  = Str.toLowerCase (Content.placeholderDomain hostname)
    ++ " discover " ++ Str.toLowerCase (Content.placeholderDomain hostname)
    ++ " - your solution for better productivity".
Proof.
  unfold Content.placeholderTitle, Content.placeholderDescription.
  rewrite !toLowerCase_app, toLowerCase_capitalize. reflexivity.
Qed.

Lemma earlier_apart : forallb keywordApart earlierKeywords = true.
Proof. vm_compute. reflexivity. Qed.

Lemma placeholder_keyword (d k : string) :
  keywordApart k = true ->
  includes (d ++ " discover " ++ d
            ++ " - your solution for better productivity") k
  = includes d k.
Proof.
  unfold keywordApart. intros H. apply andb_true_iff in H.
  destruct H as [S W]. cbn [forallb placeholderWords] in W.
  repeat (apply andb_true_iff in W; destruct W as [?W W]).
  repeat match goal with
         | X : negb _ = true |- _ => apply negb_true_iff in X
         end.
  change (d ++ " discover " ++ d ++ " - your solution for better productivity")
    with (d ++ String " " ("discover" ++ String " " (d ++ String " "
            ("-" ++ String " " ("your" ++ String " " ("solution" ++ String " "
               ("for" ++ String " " ("better" ++ String " " "productivity")))))))).
  rewrite !(includes_space k _ _ S).
  repeat match goal with
         | X : includes _ k = false |- _ => rewrite X; clear X
         end.
  destruct (includes d k); reflexivity.
Qed.

Lemma placeholder_product (d : string) :
  includes (d ++ " discover " ++ d
            ++ " - your solution for better productivity") "product" = true.
Proof.
  apply includes_right. apply includes_right. apply includes_right.
  reflexivity.
Qed.

Lemma mentions_false (text : string) (keywords : list string) :
  mentions text keywords = false <->
  forall k, In k keywords -> includes text k = false.
Proof.
  unfold mentions. induction keywords as [|k ks IH]; cbn [existsb].
  - split; [intros _ k []|reflexivity].
  - rewrite orb_false_iff, IH. split.
    + intros [A B] x [<-|I]; [exact A|now apply B].
    + intros H. split; [apply H; now left|].
      intros x I. apply H. now right.
Qed.

(** When the page gives no content, [extractUrlContent] infers the
    industry from the placeholder title and description, whose fixed words
    hold the keyword [product]: the answer is never [general], [education],
    [marketing] or [gaming], and it is [ecommerce] unless the first label of
    the host name holds a keyword of [tech], [finance] or [healthcare]. *)
Theorem placeholder_industry (hostname : string) :
  let industry :=
    inferIndustry (Content.placeholderTitle hostname)
                  (Content.placeholderDescription hostname) in
  In industry ["tech"; "finance"; "healthcare"; "ecommerce"]
  /\ (mentions (Str.toLowerCase (Content.placeholderDomain hostname))
               earlierKeywords = false ->
      industry = "ecommerce").
Proof.
  cbv zeta. unfold inferIndustry. rewrite placeholder_text.
  set (d := Str.toLowerCase (Content.placeholderDomain hostname)).
  set (text := d ++ " discover " ++ d
               ++ " - your solution for better productivity").
  assert (P : mentions text
                [ "shop"; "store"; "buy"; "product"; "marketplace"; "retail" ]
              = true).
  { unfold mentions. cbn [existsb]. unfold text.
    rewrite (placeholder_product d). now rewrite !orb_true_r. }
  unfold industries. cbn [find snd].
  split.
  - repeat match goal with
           | |- context [mentions text ?l] =>
               destruct (mentions text l) eqn:?; [simpl; tauto|]
           end.
    congruence.
  - intros H. rewrite mentions_false in H.
    assert (A : forall l, incl l earlierKeywords -> mentions text l = false).
    { intros l I. apply mentions_false. intros k K.
      pose proof earlier_apart as E. rewrite forallb_forall in E.
      unfold text. rewrite (placeholder_keyword d k (E k (I k K))).
      apply H. now apply I. }
    do 3 (rewrite A
           by (intros k K; unfold earlierKeywords, industries;
               cbn [firstn flat_map snd app]; simpl in K |- *; tauto)).
    now rewrite P.
Qed.

Lemma placeholder_industry_witness :
  inferIndustry (Content.placeholderTitle "www.example.com")
                (Content.placeholderDescription "www.example.com")
  = "ecommerce".
Proof.
  apply (proj2 (placeholder_industry "www.example.com")).
  reflexivity.
Defined.

(** ** The theme of the returned branding *)

Lemma detectTheme_background (c1 c2 : BrandColors) :
  background c1 = background c2 -> detectTheme c1 = detectTheme c2.
Proof. unfold detectTheme. now intros ->. Qed.

Lemma applyCss_background (c : BrandColors) (css : option CssColors)
                          (c1 : BrandColors) :
  Url.applyCss c css = Normal c1 -> background c1 = background c.
Proof.
  destruct css as [css|]; simpl; intros R.
  - destruct (improveColors_cases c css)
      as [[T E]|[[T (p & s & P & D & E)]|(n & e & P & E)]];
      rewrite E in R; try discriminate R; injection R as <-;
      destruct (truthy (cssAccent css)); reflexivity.
  - now injection R as <-.
Qed.

(** Every branding the orchestrators return carries the theme that
    [detectTheme] gives on its final colours: in [extractDocsContent] also
    for the palette of the [catch], and in [extractUrlContent] also after
    the improvement by the CSS colours, which leaves the theme computed
    before as it is. *)
Theorem theme_of_final_colors :
  (forall w url domain st r st',
     Docs.extractDocsBranding w url domain st = (Normal r, st') ->
     detectTheme (colors r) = Normal (theme r))
  /\ (forall w url hostname shot st b st' domain css shot' r,
        Url.extractBrandingSimple w url hostname shot st = (Normal b, st') ->
        Url.improveBranding domain (Some b) css shot' = Normal r ->
        detectTheme (colors r) = Normal (theme r))
  /\ (forall domain css shot r,
        Url.improveBranding domain None css shot = Normal r ->
        detectTheme (colors r) = Normal (theme r)).
Proof.
  split; [|split].
  - intros w url domain st r st'.
    unfold Docs.extractDocsBranding, try_catch.
    destruct (Docs.extractBrandingWithCssColors w url domain st)
      as [[b|e] st1] eqn:E.
    + intros R. injection R as <- _. revert E.
      unfold Docs.extractBrandingWithCssColors, mbind, lift, ret.
      destruct (extractLogoFromCloud _ _ _ _) as [[lr|e] st2]; [|discriminate].
      destruct (openPage w url) as [page|e]; [|discriminate].
      destruct (Docs.overrideColors _ _) as [c|e]; [|discriminate].
      destruct (detectTheme c) as [t|e] eqn:T; [|discriminate].
      intros R. injection R as <- _. exact T.
    + unfold mbind, warn, ret. intros R. injection R as <- _. reflexivity.
  - intros w url hostname shot st b st' domain css shot' r B.
    assert (T : detectTheme (colors b) = Normal (theme b)).
    { revert B. unfold Url.extractBrandingSimple, mbind, lift, ret.
      destruct (extractLogoFromCloud _ _ _ _) as [[lr|e] st2]; [|discriminate].
      destruct shot as [c|e]; [|discriminate].
      destruct (detectTheme c) as [t|e] eqn:T; [|discriminate].
      intros R. injection R as <- _. exact T. }
    unfold Url.improveBranding.
    destruct (Url.applyCss (colors b) css) as [c|e] eqn:A; simpl;
      [|discriminate].
    intros R. injection R as <-. cbn [colors theme].
    rewrite (detectTheme_background c (colors b) (applyCss_background _ _ _ A)).
    exact T.
  - intros domain css shot r. unfold Url.improveBranding.
    destruct shot as [c|e]; simpl; [|discriminate].
    destruct (Url.applyCss c css) as [c1|e]; simpl; [|discriminate].
    destruct (detectTheme c1) as [t|e] eqn:T; simpl; [|discriminate].
    intros R. injection R as <-. exact T.
Qed.

Lemma theme_of_final_colors_witness :
  exists r,
    Url.improveBranding "example.com"
      (Some (mkBranding (mkLogo (clearbitUrl "example.com") high)
                        samplePalette
                        "system-ui, -apple-system, sans-serif" dark))
      (Some (mkCss (VStr "#ffffff") VNull)) (Normal samplePalette) = Normal r
    /\ detectTheme (colors r) = Normal (theme r).
Proof.
  eexists. split.
  - vm_compute. reflexivity.
  - apply (proj1 (proj2 theme_of_final_colors)
             (answering 0) "https://example.com" "www.example.com"
             (Normal samplePalette) freshState
             (mkBranding (mkLogo (clearbitUrl "example.com") high)
                         samplePalette
                         "system-ui, -apple-system, sans-serif" dark)
             (mkState [(clearbitUrl "example.com", 5000)] [])
             "example.com" (Some (mkCss (VStr "#ffffff") VNull))
             (Normal samplePalette)).
    + vm_compute. reflexivity.
    + vm_compute. reflexivity.
Defined.

(** ** The markdown read in the page and the metadata inferred from it *)


Lemma split_cons (c : ascii) (s : string) :
  exists h t, split c s = h :: t.
Proof.
  induction s as [|x s (h & t & IH)]; cbn [split].
  - now exists EmptyString, [].
  - destruct (Ascii.eqb x c).
    + now exists EmptyString, (split c s).
    + rewrite IH. now exists (String x h), t.
Qed.

Lemma split_app (c : ascii) (a b : string) :
  split c (a ++ String c b) = (split c a ++ split c b)%list.
Proof.
  induction a as [|x a IH]; cbn [append split].
  - now rewrite Ascii.eqb_refl.
  - destruct (Ascii.eqb x c); rewrite IH; [reflexivity|].
    destruct (split_cons c a) as (h & t & ->). reflexivity.
Qed.

Lemma split_pre (c : ascii) (pre t h : string) (r : list string) :
  allChars (fun x => negb (Ascii.eqb x c)) pre = true ->
  split c t = h :: r -> split c (pre ++ t) = (pre ++ h) :: r.
Proof.
  intros P E. induction pre as [|x pre IH]; cbn [append]; [exact E|].
  cbn [allChars] in P. apply andb_true_iff in P. destruct P as [X P].
  apply negb_true_iff in X. cbn [split]. rewrite X, (IH P). reflexivity.
Qed.

Lemma split_one (c : ascii) (s : string) :
  allChars (fun x => negb (Ascii.eqb x c)) s = true -> split c s = [s].
Proof.
  intros H. pose proof (split_pre c s EmptyString EmptyString [] H eq_refl) as E.
  assert (A : forall z, z ++ EmptyString = z).
  { induction z as [|x z IH]; simpl; [reflexivity|now rewrite IH]. }
  now rewrite A in E.
Qed.



Lemma append_empty (z : string) : z ++ EmptyString = z.
Proof. induction z as [|x z IH]; simpl; [reflexivity|now rewrite IH]. Qed.












Lemma trimEnd_cons (c : ascii) (s : string) :
  Str.trimEnd (String c s)
  = match Str.trimEnd s with
    | EmptyString => if Str.isWhite c then EmptyString else String c EmptyString
    | r => String c r
    end.
Proof. reflexivity. Qed.

Lemma trimEnd_idem (s : string) : Str.trimEnd (Str.trimEnd s) = Str.trimEnd s.
Proof.
  induction s as [|c s IH]; [reflexivity|]. rewrite trimEnd_cons.
  destruct (Str.trimEnd s) as [|d r] eqn:E.
  - destruct (Str.isWhite c) eqn:W; [reflexivity|].
    rewrite trimEnd_cons. cbn [Str.trimEnd]. now rewrite W.
  - rewrite trimEnd_cons, IH. reflexivity.
Qed.

Lemma trimEnd_head (s : string) :
  headIs Str.isWhite s = false -> headIs Str.isWhite (Str.trimEnd s) = false.
Proof.
  destruct s as [|c s]; [reflexivity|]. cbn [headIs Str.trimEnd]. intros W.
  destruct (Str.trimEnd s); [rewrite W|]; cbn [headIs]; exact W.
Qed.

Lemma trimStart_headIs (s : string) :
  headIs Str.isWhite (Str.trimStart s) = false.
Proof.
  induction s as [|c s IH]; cbn [Str.trimStart]; [reflexivity|].
  destruct (Str.isWhite c) eqn:W; [exact IH|]. cbn [headIs]. exact W.
Qed.

Lemma trim_headIs (s : string) : headIs Str.isWhite (Str.trim s) = false.
Proof. unfold Str.trim. apply trimEnd_head, trimStart_headIs. Qed.

Lemma trim_idem (s : string) : Str.trim (Str.trim s) = Str.trim s.
Proof.
  unfold Str.trim at 1. rewrite (trimStart_head _ (trim_headIs s)).
  unfold Str.trim. apply trimEnd_idem.
Qed.

(** A heading written by [processNode] is read back by
    [inferMetadataFromMarkdown]. *)
Lemma heading_back (marker x : string) :
  Str.trim (Meta.dropMarker marker (marker ++ " " ++ Str.trim x)) = Str.trim x.
Proof.
  unfold Meta.dropMarker. rewrite expect_app.
  cbn [append headIs]. change (Str.isWhite " ") with true. cbv iota.
  cbn [Str.trimStart]. change (Str.isWhite " ") with true. cbv iota.
  rewrite (trimStart_head _ (trim_headIs x)). apply trim_idem.
Qed.




(** ** [extractDocsContent] *)

(** The branding phase returns, and keeps the warnings made before. *)
Lemma extractDocsBranding_returns (w : World) (url domain : string)
                                  (st : state) :
  exists r st' added,
    Docs.extractDocsBranding w url domain st = (Normal r, st')
    /\ warnings st' = (warnings st ++ added)%list.
Proof.
  unfold Docs.extractDocsBranding, try_catch.
  assert (I : exists r st1 added,
             Docs.extractBrandingWithCssColors w url domain st = (r, st1)
             /\ warnings st1 = (warnings st ++ added)%list).
  { unfold Docs.extractBrandingWithCssColors, mbind, lift.
    destruct (extractLogoFromCloud_warnings w (Str.removeFirst "www." domain)
                url st) as (r & st1 & added & -> & W & _).
    destruct r as [logoResult|e]; [|now exists (Throw e), st1, added].
    destruct (openPage w url) as [page|e]; [|now exists (Throw e), st1, added].
    destruct (Docs.overrideColors _ _) as [colors|e];
      [|now exists (Throw e), st1, added].
    destruct (detectTheme colors) as [theme|e];
      [|now exists (Throw e), st1, added].
    eexists. exists st1, added. split; [reflexivity|exact W]. }
  destruct I as (r & st1 & added & -> & W).
  destruct r as [r|e].
  - now exists r, st1, added.
  - eexists. eexists.
    exists (added ++ [("Branding extraction failed: " ++ errorMessage e)%string])%list.
    split; [reflexivity|]. cbn [warnings]. rewrite W. now rewrite <- app_assoc.
Qed.

(** Phase 1 in closed form. *)
Lemma extractMarkdown_cases (src : DocsTool.Sources) (domain : string)
                            (st : state) :
  exists r added,
    DocsTool.extractMarkdown src domain st
    = (Normal r, mkState (probes st) (warnings st ++ added))
    /\ match DocsTool.tabstackMarkdownOf src, DocsTool.mainContentOf src with
       | Normal m, _ => r = (m, DocsTool.tabstackMarkdown) /\ added = []
       | Throw _, Normal (parent, mainContent) =>
           r = (pageMarkdown parent mainContent, DocsTool.playwrightFallback)
           /\ List.length added = 2%nat
       | Throw _, Throw _ =>
           r = (DocsTool.stubMarkdown domain, DocsTool.tabstackMarkdown)
           /\ List.length added = 2%nat
       end.
Proof.
  unfold DocsTool.extractMarkdown, DocsTool.extractMarkdownWithPlaywright,
    try_catch, mbind, lift, warn, ret.
  destruct (DocsTool.tabstackMarkdownOf src) as [m|e].
  - exists (m, DocsTool.tabstackMarkdown), []. rewrite app_nil_r.
    destruct st. split; [reflexivity|now split].
  - destruct (DocsTool.mainContentOf src) as [[parent mainContent]|e'];
      cbn [probes warnings fst snd]; eexists; eexists;
      (split; [rewrite <- app_assoc; reflexivity|now split]).
Qed.

(** [extractDocsContent] never rejects.  Its markdown is the one of
    Tabstack, else the one read in the page, else the stub; the extraction
    method is [playwright-fallback] exactly when Tabstack failed and the
    page was read, so the stub is returned under [tabstack-markdown]; the
    metadata are those of Tabstack, else those inferred from the markdown
    returned; the warnings made before are kept. *)
Theorem extractDocsContent_total (w : World) (src : DocsTool.Sources)
                                 (fs : Files) (url domain : string)
                                 (st : state) :
  exists r st' added,
    DocsTool.extractDocsContent w src fs url domain st = (Normal r, st')
    /\ warnings st' = (warnings st ++ added)%list
    /\ DocsTool.domain r = domain
    /\ match DocsTool.tabstackMarkdownOf src, DocsTool.mainContentOf src with
       | Normal m, _ =>
           DocsTool.markdown r = m
           /\ DocsTool.extractionMethod r = DocsTool.tabstackMarkdown
       | Throw _, Normal (parent, mainContent) =>
           DocsTool.markdown r = pageMarkdown parent mainContent
           /\ DocsTool.extractionMethod r = DocsTool.playwrightFallback
           /\ (2 <= List.length added)%nat
       | Throw _, Throw _ =>
           DocsTool.markdown r = DocsTool.stubMarkdown domain
           /\ DocsTool.extractionMethod r = DocsTool.tabstackMarkdown
           /\ (2 <= List.length added)%nat
       end
    /\ DocsTool.metadata r
       = match DocsTool.tabstackMetadataOf src with
         | Normal m => m
         | Throw _ =>
             Meta.inferMetadataFromMarkdown (DocsTool.markdown r) domain
         end
    /\ (DocsTool.staticPath r = None
        <-> downloadLogoToPublic fs (logoUrl (DocsTool.branding r)) domain
            = EmptyString).
Proof.
  unfold DocsTool.extractDocsContent.
  destruct (extractMarkdown_cases src domain st) as (p1 & a1 & E1 & C1).
  unfold mbind at 1. rewrite E1.
  set (st1 := mkState (probes st) (warnings st ++ a1)).
  assert (E2 : exists md a2,
             DocsTool.extractMetadata src (fst p1) domain st1
             = (Normal md, mkState (probes st1) (warnings st1 ++ a2))
             /\ md = match DocsTool.tabstackMetadataOf src with
                     | Normal m => m
                     | Throw _ => Meta.inferMetadataFromMarkdown (fst p1) domain
                     end).
  { unfold DocsTool.extractMetadata, try_catch, mbind, lift, warn, ret.
    destruct (DocsTool.tabstackMetadataOf src) as [m|e].
    - exists m, []. rewrite app_nil_r. destruct st1. now split.
    - eexists. eexists. split; reflexivity. }
  destruct E2 as (md & a2 & E2 & C2).
  unfold mbind at 1. rewrite E2.
  set (st2 := mkState (probes st1) (warnings st1 ++ a2)).
  destruct (extractDocsBranding_returns w url domain st2)
    as (b & st3 & a3 & E3 & W3).
  unfold mbind at 1. rewrite E3.
  assert (W : warnings st3 = (warnings st ++ (a1 ++ a2 ++ a3))%list).
  { rewrite W3. unfold st2, st1. cbn [warnings].
    now rewrite <- !app_assoc. }
  destruct (Str.isEmpty (downloadLogoToPublic fs (logoUrl b) domain)) eqn:D;
    cbn [negb]; unfold mbind, warn, ret.
  - eexists. eexists. eexists. split; [reflexivity|].
    cbn [warnings DocsTool.domain DocsTool.markdown DocsTool.extractionMethod
           DocsTool.metadata DocsTool.staticPath DocsTool.branding].
    split; [rewrite W, <- !app_assoc; reflexivity|].
    split; [reflexivity|]. split; [|split; [exact C2|]].
    + destruct (DocsTool.tabstackMarkdownOf src) as [m|e].
      * destruct C1 as [-> _]. now split.
      * destruct (DocsTool.mainContentOf src) as [[parent mainContent]|e'];
          destruct C1 as [-> L]; (split; [reflexivity|]);
          (split; [reflexivity|]); rewrite !length_app; lia.
    + split; [intros _|reflexivity].
      destruct (downloadLogoToPublic fs (logoUrl b) domain);
        [reflexivity|discriminate D].
  - exists (DocsTool.mkContent (fst p1) md b
              (Some (downloadLogoToPublic fs (logoUrl b) domain)) domain
              (snd p1)), st3, (a1 ++ a2 ++ a3)%list.
    split; [reflexivity|].
    cbn [warnings DocsTool.domain DocsTool.markdown DocsTool.extractionMethod
           DocsTool.metadata DocsTool.staticPath DocsTool.branding].
    split; [exact W|].
    split; [reflexivity|]. split; [|split; [exact C2|]].
    + destruct (DocsTool.tabstackMarkdownOf src) as [m|e].
      * destruct C1 as [-> _]. now split.
      * destruct (DocsTool.mainContentOf src) as [[parent mainContent]|e'];
          destruct C1 as [-> L]; (split; [reflexivity|]);
          (split; [reflexivity|]); rewrite !length_app; lia.
    + split; [discriminate|]. intros H. rewrite H in D. discriminate D.
Qed.

(** ** The metadata of the stub *)

Lemma keywords_fit : forallb keywordFits metadataKeywords = true.
Proof. vm_compute. reflexivity. Qed.

Lemma includes_cons_other (a : ascii) (s k : string) :
  headIs (fun c => Ascii.eqb c a) k = false -> Str.isEmpty k = false ->
  includes (String a s) k = includes s k.
Proof.
  intros H N. cbn [includes]. destruct k as [|x k]; [discriminate N|].
  cbn [headIs] in H. cbn [String.prefix].
  destruct (ascii_dec x a) as [->|D]; [|reflexivity].
  rewrite Ascii.eqb_refl in H. discriminate H.
Qed.

(** The lower-cased text of the stub. *)
Lemma stub_text (hostname : string) :
  Str.toLowerCase (DocsTool.stubMarkdown hostname)
  = String "#" (String " " (Str.toLowerCase hostname ++ String newline stubTail)).
Proof.
  unfold DocsTool.stubMarkdown. rewrite !toLowerCase_app. reflexivity.
Qed.

(** In the stub a word is found only in the host name. *)
Lemma stub_keyword (hostname k : string) :
  keywordFits k = true ->
  includes (Str.toLowerCase (DocsTool.stubMarkdown hostname)) k
  = includes (Str.toLowerCase hostname) k.
Proof.
  unfold keywordFits. intros H.
  repeat (apply andb_true_iff in H; destruct H as [H ?F]).
  apply negb_true_iff in F, F0, F1.
  rewrite stub_text.
  assert (H1 : headIs (fun c => Ascii.eqb c "#") k = false
               /\ headIs (fun c => Ascii.eqb c " ") k = false).
  { destruct k as [|x k]; [discriminate F0|]. cbn [headIs] in *.
    now apply orb_false_iff in F1. }
  destruct H1 as [H1 H2].
  rewrite (includes_cons_other "#" _ k H1 F0).
  rewrite (includes_cons_other " " _ k H2 F0).
  rewrite (includes_sep newline k _ _ H), F. apply orb_false_r.
Qed.

Lemma splitWhiteFrom_prefix (h s : string) :
  allChars (fun c => negb (Str.isWhite c)) h = true -> h <> EmptyString ->
  forall inRun,
    List.length (splitWhiteFrom inRun (h ++ s))
    = List.length (splitWhiteFrom false s).
Proof.
  induction h as [|c h IH]; intros H N inRun; [now destruct N|].
  cbn [allChars] in H. apply andb_true_iff in H. destruct H as [C H].
  apply negb_true_iff in C. cbn [append splitWhiteFrom]. rewrite C.
  assert (L : List.length (splitWhiteFrom false (h ++ s))
              = List.length (splitWhiteFrom false s)).
  { destruct h as [|d h]; [reflexivity|]. apply IH; [exact H|discriminate]. }
  pose proof (splitWhiteFrom_length (h ++ s) false) as B.
  destruct (splitWhiteFrom false (h ++ s)) as [|p r]; [simpl in B; lia|].
  exact L.
Qed.

(** When neither Tabstack nor the page gives a markdown,
    [extractDocsContent] infers the metadata from its stub: for a host name
    that is not empty and holds no white space the title is the host name,
    there are no sections and the read time is [1 min]; the technology, the
    type and the difficulty are the defaults unless the host name itself
    holds one of the words looked for. *)
Theorem stub_metadata (hostname : string) :
  allChars (fun c => negb (Str.isWhite c)) hostname = true ->
  hostname <> EmptyString ->
  let metadata :=
    Meta.inferMetadataFromMarkdown (DocsTool.stubMarkdown hostname) hostname in
  Meta.title metadata = hostname
  /\ Meta.sections metadata = []
  /\ Meta.estimatedReadTime metadata = "1 min"
  /\ (mentions (Str.toLowerCase hostname) metadataKeywords = false ->
      Meta.technology metadata = "Unknown"
      /\ Meta.docType metadata = Meta.guide
      /\ Meta.difficulty metadata = Meta.intermediate).
Proof.
  intros W N. cbv zeta.
  assert (NL : noNewline hostname = true).
  { unfold noNewline. revert W. apply allChars_impl.
    intros c. destruct c as [[] [] [] [] [] [] [] []]; intros H;
      try discriminate H; reflexivity. }
  assert (L : split newline (DocsTool.stubMarkdown hostname)
              = [ "# " ++ hostname; EmptyString;
                  "Content could not be extracted. Please provide the documentation content manually." ]).
  { unfold DocsTool.stubMarkdown.
    change ("# " ++ hostname ++ nl ++ nl
            ++ "Content could not be extracted. "
            ++ "Please provide the documentation content manually.")
      with ("# " ++ hostname ++ String newline (nl
            ++ "Content could not be extracted. "
            ++ "Please provide the documentation content manually.")).
    rewrite <- append_assoc, split_app, split_one.
    - reflexivity.
    - unfold noNewline in NL. cbn [append allChars]. now rewrite NL. }
  assert (P : Str.startsWith ("# " ++ hostname) "# " = true).
  { unfold Str.startsWith. apply prefix_app. }
  unfold Meta.inferMetadataFromMarkdown.
  change (ascii_of_nat 10) with newline. rewrite L.
  cbn [Meta.title Meta.sections Meta.estimatedReadTime Meta.technology
         Meta.docType Meta.difficulty].
  split; [|split; [|split]].
  - cbn [find]. rewrite P.
    rewrite <- (trim_id hostname W) at 1 2. apply (heading_back "#").
  - reflexivity.
  - assert (C : List.length (splitWhite (DocsTool.stubMarkdown hostname))
                = 13%nat).
    { unfold splitWhite, DocsTool.stubMarkdown.
      cbn [append splitWhiteFrom]. change (Str.isWhite "#") with false.
      change (Str.isWhite " ") with true. cbv iota.
      pose proof (splitWhiteFrom_prefix hostname
                    (nl ++ nl ++ "Content could not be extracted. "
                        ++ "Please provide the documentation content manually.")
                    W N true) as E.
      destruct (splitWhiteFrom true _) as [|p r] eqn:Q.
      - discriminate E.
      - cbn [List.length] in *. rewrite E. reflexivity. }
    rewrite C. vm_compute. reflexivity.
  - intros M.
    assert (I : forall k, In k metadataKeywords ->
                includes (Str.toLowerCase (DocsTool.stubMarkdown hostname)) k
                = false
                /\ includes (Str.toLowerCase hostname) k = false).
    { intros k K. pose proof keywords_fit as F. rewrite forallb_forall in F.
      rewrite (stub_keyword hostname k (F k K)).
      unfold mentions in M.
      assert (X : includes (Str.toLowerCase hostname) k = false).
      { destruct (includes (Str.toLowerCase hostname) k) eqn:Y; [|reflexivity].
        assert (Z : existsb (fun keyword => includes (Str.toLowerCase hostname)
                                              keyword) metadataKeywords = true).
        { apply existsb_exists. now exists k. }
        congruence. }
      now split. }
    set (text := Str.toLowerCase (DocsTool.stubMarkdown hostname)) in *.
    set (dom := Str.toLowerCase hostname) in *.
    assert (A : forall l, incl l metadataKeywords ->
                existsb (fun kw => includes text kw || includes dom kw) l
                = false).
    { intros l Hl. induction l as [|k l IHl]; [reflexivity|].
      cbn [existsb]. destruct (I k (Hl k (or_introl eq_refl))) as [-> ->].
      apply IHl. intros z Z. apply Hl. now right. }
    assert (K : forall k, In k metadataKeywords -> includes text k = false).
    { intros k Hk. now destruct (I k Hk). }
    split; [|split].
    + unfold Meta.techMap. cbn [find snd].
      repeat (rewrite A
                by (intros k Hk; unfold metadataKeywords, Meta.techMap;
                    cbn [flat_map snd app]; simpl in Hk |- *; tauto)).
      reflexivity.
    + repeat match goal with
             | |- context [includes text ?k] =>
                 rewrite (K k)
                   by (unfold metadataKeywords, Meta.techMap;
                       cbn [flat_map snd app]; simpl; tauto)
             end.
      reflexivity.
    + repeat match goal with
             | |- context [includes text ?k] =>
                 rewrite (K k)
                   by (unfold metadataKeywords, Meta.techMap;
                       cbn [flat_map snd app]; simpl; tauto)
             end.
      reflexivity.
Qed.

Lemma stub_metadata_witness :
  Meta.title (Meta.inferMetadataFromMarkdown
                (DocsTool.stubMarkdown "docs.example.com") "docs.example.com")
  = "docs.example.com"
  /\ Meta.technology (Meta.inferMetadataFromMarkdown
                        (DocsTool.stubMarkdown "docs.example.com")
                        "docs.example.com")
     = "Unknown".
Proof.
  destruct (stub_metadata "docs.example.com" eq_refl ltac:(discriminate))
    as (T & _ & _ & D).
  split; [exact T|]. exact (proj1 (D eq_refl)).
Defined.

(** ** [detectBeats] *)

(** The heuristic beats of a duration up to 2^50 seconds. *)
Lemma heuristic_halves (d : Q) (fuel : nat) :
  (d <= inject_Z (2 ^ 50))%Q ->
  (Z.to_nat (Qceiling (2 * d)) < fuel)%nat ->
  generateHeuristicBeats fuel (Num.lit 120 1) (Num.Fin d)
  = Some (map half (seq 0 (Z.to_nat (Qceiling (2 * d))))).
Proof.
  intros D F. set (n := Z.to_nat (Qceiling (2 * d))) in *.
  unfold generateHeuristicBeats. rewrite interval_120, lit0.
  change (Num.Fin 0) with (half 0).
  pose proof (Qle_ceiling (2 * d)) as C1.
  pose proof (Qceiling_lt (2 * d)) as C2.
  assert (C3 : (Qceiling (2 * d) <= 2 ^ 51)%Z).
  { rewrite <- (Qceiling_Z (2 ^ 51)). apply Qceiling_resp_le.
    change (inject_Z (2 ^ 51)) with (2 * inject_Z (2 ^ 50))%Q. lra. }
  apply (beatsFrom_halves d n); try lia.
  - intros k K. unfold n in K.
    assert (I : (inject_Z (Z.of_nat k) <= inject_Z (Qceiling (2 * d) - 1))%Q).
    { rewrite <- Zle_Qle. lia. }
    unfold Qdiv. change (/ 2)%Q with (1 # 2)%Q. lra.
  - unfold Qdiv. change (/ 2)%Q with (1 # 2)%Q.
    unfold n. destruct (Z.le_gt_cases 0 (Qceiling (2 * d))) as [P|N].
    + rewrite Z2Nat.id by exact P. lra.
    + replace (Z.to_nat (Qceiling (2 * d))) with 0%nat by lia.
      assert (I : (inject_Z (Qceiling (2 * d)) <= inject_Z 0)%Q).
      { rewrite <- Zle_Qle. lia. }
      change (inject_Z (Z.of_nat 0)) with 0%Q. change (inject_Z 0) with 0%Q in I.
      lra.
Qed.

Lemma lit60 : Num.lit 60 1 = Num.Fin 60.
Proof. vm_compute. reflexivity. Qed.

(** [detectBeats] always has beats for a positive duration: those of the
    first tool that returns some, and the multiples of half a second below
    the duration when both tools fail or return none; without a duration
    these are the 120 beats of one minute. *)
Theorem detectBeats_nonempty (aubio ffmpeg : completion (list Num.number))
                             (d : Q) (fuel : nat) :
  (0 < d)%Q -> (d <= inject_Z (2 ^ 50))%Q ->
  (Z.to_nat (Qceiling (2 * d)) < fuel)%nat ->
  (exists beats,
     detectBeats aubio ffmpeg fuel (Some (Num.Fin d)) = Some beats
     /\ beats <> []
     /\ (silent aubio = true -> silent ffmpeg = true ->
         beats = map half (seq 0 (Z.to_nat (Qceiling (2 * d)))))
     /\ (silent aubio = false -> aubio = Normal beats)
     /\ (silent aubio = true -> silent ffmpeg = false -> ffmpeg = Normal beats))
  /\ ((120 < fuel)%nat -> silent aubio = true -> silent ffmpeg = true ->
      detectBeats aubio ffmpeg fuel None = Some (map half (seq 0 120))).
Proof.
  intros P D F. split.
  - unfold detectBeats. rewrite (heuristic_halves d fuel D F).
    assert (N : map half (seq 0 (Z.to_nat (Qceiling (2 * d)))) <> []).
    { pose proof (Qle_ceiling (2 * d)) as C.
      assert (0 < Qceiling (2 * d)).
      { rewrite Zlt_Qlt. change (inject_Z 0) with 0%Q. lra. }
      destruct (Z.to_nat (Qceiling (2 * d))) as [|n] eqn:E; [lia|].
      discriminate. }
    assert (T : forall tool next beats,
               tryBeats tool next = Some beats ->
               (silent tool = false /\ tool = Normal beats)
               \/ (silent tool = true /\ next = Some beats)).
    { intros tool next beats. unfold tryBeats, silent.
      destruct tool as [b|e]; [|now right].
      destruct (0 <? List.length b)%nat; [|now right].
      intros H. injection H as <-. now left. }
    destruct (tryBeats aubio _) as [beats|] eqn:E.
    + exists beats. split; [reflexivity|].
      destruct (T _ _ _ E) as [[S1 ->]|[S1 E2]].
      * pose proof S1 as S1'. cbn [silent] in S1'. apply negb_false_iff in S1'.
        split; [intros ->; discriminate S1'|].
        split; [congruence|]. split; [reflexivity|congruence].
      * destruct (T _ _ _ E2) as [[S2 ->]|[S2 E3]].
        -- pose proof S2 as S2'. cbn [silent] in S2'.
           apply negb_false_iff in S2'.
           split; [intros ->; discriminate S2'|].
           split; [congruence|]. split; [congruence|reflexivity].
        -- injection E3 as <-.
           split; [exact N|]. split; [reflexivity|]. split; congruence.
    + exfalso. unfold tryBeats in E.
      destruct aubio as [b|e]; [destruct (0 <? List.length b)%nat;
                                 [discriminate E|]|];
        (destruct ffmpeg as [b'|e']; [destruct (0 <? List.length b')%nat|]);
        discriminate E.
  - intros F' S1 S2. unfold detectBeats. rewrite lit60.
    assert (E : generateHeuristicBeats fuel (Num.lit 120 1) (Num.Fin 60)
                = Some (map half (seq 0 120))).
    { apply (heuristic_halves 60 fuel); [discriminate|].
      change (Z.to_nat (Qceiling (2 * 60))) with 120%nat. exact F'. }
    rewrite E. unfold tryBeats, silent in *.
    destruct aubio as [b|e];
      [apply negb_true_iff in S1; rewrite S1|];
      (destruct ffmpeg as [b'|e'];
       [apply negb_true_iff in S2; rewrite S2|]); reflexivity.
Qed.

Lemma detectBeats_nonempty_witness :
  detectBeats (Normal []) (Throw (Rejected "ffmpeg not installed")) 10
              (Some (Num.Fin (22 # 10)))
  = Some [Num.Fin 0; Num.Fin (1 # 2); Num.Fin 1; Num.Fin (3 # 2); Num.Fin 2].
Proof.
  destruct (proj1 (detectBeats_nonempty (Normal [])
                     (Throw (Rejected "ffmpeg not installed")) (22 # 10) 10
                     eq_refl ltac:(discriminate) ltac:(vm_compute; lia)))
    as (beats & E & _ & H & _).
  rewrite E. f_equal. exact (H eq_refl eq_refl).
Defined.
